(** * libtins: the IP and EAPOL codecs and the checksum primitive

    A shallow embedding of [src/utils.cpp] ([Utils::do_checksum],
    [Utils::pseudoheader_checksum], [Utils::crc32], [Utils::from_hex],
    [Utils::channel_to_mhz]), [src/ip.cpp] (class [IP] and its options)
    and [src/eapol.cpp] (classes [EAPOL], [RC4EAPOL], [RSNEAPOL] and
    [EAPOL::from_bytes]), with the properties the specification states
    about them and further properties read off the code: round trips
    between serialization and decoding, the layout and the checksum of a
    serialized header, the bookkeeping of the options.

    Conventions of the embedding:
    - a [uint8_t*] buffer is a [list byte]; a pointer into it is a [Z] offset;
    - a [uintN_t] value is a [Z], its wrap-around written with [wrap];
    - a struct field holds the value the host sees; [to_mem]/[of_mem] give
      its bytes in memory for the byte order of the host ([host_le]);
    - an exception, a failed [assert] and an access outside the buffer are
      abnormal results of [outcome]; a loop of the source is a [Fixpoint]
      over a bound on its turns, and running out of the bound is a result
      too, shown below never to happen. *)

From Stdlib Require Import Ascii String ZArith List Lia Bool.
From coqutil Require Import Byte Word.LittleEndianList.
Import ListNotations.
Local Open Scope Z_scope.

(** ** Results of a call *)

Inductive outcome (A : Type) : Type :=
| Ok (a : A)                (* normal return *)
| Throw (what : string)     (* throw std::runtime_error(what) *)
| AssertFail                (* assert(...) failed *)
| OutOfBounds               (* a byte outside the buffer was accessed *)
| Fuel.                     (* the loop bound of the model was reached *)

Arguments Ok {A} a.
Arguments Throw {A} what.
Arguments AssertFail {A}.
Arguments OutOfBounds {A}.
Arguments Fuel {A}.

Definition bind {A B : Type} (c : outcome A) (k : A -> outcome B) : outcome B :=
  match c with
  | Ok a => k a
  | Throw w => Throw w
  | AssertFail => AssertFail
  | OutOfBounds => OutOfBounds
  | Fuel => Fuel
  end.

Notation "x <- c ;; k" := (bind c (fun x => k))
  (at level 61, c at next level, right associativity).
Notation "' pat <- c ;; k" := (bind c (fun x => match x with pat => k end))
  (at level 61, pat pattern, c at next level, right associativity).

Definition is_ok {A : Type} (c : outcome A) : bool :=
  match c with Ok _ => true | _ => false end.

Definition throws {A : Type} (c : outcome A) : bool :=
  match c with Throw _ => true | _ => false end.

(** ** Fixed-width integers *)

Definition wrap (bits : Z) (v : Z) : Z := v mod 2 ^ bits.

(** ** Buffers *)

Definition buffer := list byte.

Definition size (buf : buffer) : Z := Z.of_nat (length buf).

Definition in_range (buf : buffer) (off n : Z) : bool :=
  (0 <=? off) && (0 <=? n) && (off + n <=? size buf).

Definition slice (buf : buffer) (off n : Z) : list byte :=
  firstn (Z.to_nat n) (skipn (Z.to_nat off) buf).

(** [*(buffer + off)] *)
Definition read8 (buf : buffer) (off : Z) : outcome Z :=
  if in_range buf off 1
  then Ok (byte.unsigned (nth (Z.to_nat off) buf Byte.x00))
  else OutOfBounds.

(** The [n] bytes at [buffer + off], as [memcpy] or [assign] read them. *)
Definition read_bytes (buf : buffer) (off n : Z) : outcome (list byte) :=
  if in_range buf off n then Ok (slice buf off n) else OutOfBounds.

(** The buffer with [data] in place of the bytes from [off] on. *)
Definition splice (buf : buffer) (off : Z) (data : list byte) : buffer :=
  firstn (Z.to_nat off) buf ++ data ++ skipn (Z.to_nat off + length data) buf.

(** [memcpy(buffer + off, data, |data|)] *)
Definition write_bytes (buf : buffer) (off : Z) (data : list byte) : outcome buffer :=
  if in_range buf off (size data) then Ok (splice buf off data) else OutOfBounds.

(** [memset(buffer + off, 0, n)] *)
Definition memset0 (buf : buffer) (off n : Z) : outcome buffer :=
  if in_range buf off n
  then Ok (splice buf off (repeat Byte.x00 (Z.to_nat n)))
  else OutOfBounds.

(** The value of the byte at index [i] of a byte block. *)
Definition byte_at (bs : list byte) (i : nat) : Z :=
  byte.unsigned (nth i bs Byte.x00).

(** ** Byte order *)

(** Modelled from the spec: [endianness.h], which declares
    [Endian::host_to_be] and [Endian::be_to_host], is not under [src/].
    Fields are big-endian on the wire and in host order in memory: the two
    functions swap the bytes of their argument on a little-endian host and
    leave it as it is on a big-endian one; the argument has the width of
    the template's type. *)

Module Endian.

(** The big-endian bytes of an [n]-byte integer, and back. *)
Definition be_bytes (n : nat) (v : Z) : list byte := rev (le_split n v).
Definition be_value (bs : list byte) : Z := le_combine (rev bs).

Definition change_endian (n : nat) (v : Z) : Z := le_combine (rev (le_split n v)).

Section Host.

(** [true] on a little-endian host. *)
Variable host_le : bool.

(** The bytes in memory of an [n]-byte integer field, and the value the
    host reads from such bytes. *)
Definition to_mem (n : nat) (v : Z) : list byte :=
  if host_le then le_split n v else be_bytes n v.

Definition of_mem (bs : list byte) : Z :=
  if host_le then le_combine bs else be_value bs.

Definition host_to_be (n : nat) (v : Z) : Z :=
  if host_le then change_endian n v else wrap (Z.of_nat n * 8) v.

Definition be_to_host (n : nat) (v : Z) : Z := host_to_be n v.

End Host.

End Endian.

(** ** utils.cpp *)

Module Utils.

(** The loop of [Utils::Internals::from_hex]: the characters not yet read
    and the value of [result]. A character is the number of its code; a
    code above 127, negative where [char] is signed, fails both tests
    either way. *)
Fixpoint from_hex_loop (str : list ascii) (result : Z) : bool * Z :=
  match str with
  | [] => (true, result)
  | c :: rest =>
      let c := Z.of_N (N_of_ascii c) in
      match
        (if (c >=? 65) && (c <=? 70) then Some (wrap 8 (c - 65 + 10))
         else if (c >=? 48) && (c <=? 57) then Some (wrap 8 (c - 48))
         else None)
      with
      | None => (false, result)
      | Some tmp =>
          from_hex_loop rest (wrap 32 (Z.lor (Z.shiftl result 4) tmp))
      end
  end.

(** [Utils::Internals::from_hex(str, result)]: the flag returned and the
    value left in [result]. *)
Definition from_hex (str : string) : bool * Z :=
  from_hex_loop (list_ascii_of_string str) 0.

(** [Utils::channel_to_mhz(channel)] *)
Definition channel_to_mhz (channel : Z) : Z :=
  wrap 16 (2407 + wrap 16 channel * 5).

(** The table of [Utils::crc32]. *)
Definition crc_table : list Z :=
  [0x4DBDF21C; 0x500AE278; 0x76D3D2D4; 0x6B64C2B0;
   0x3B61B38C; 0x26D6A3E8; 0x000F9344; 0x1DB88320;
   0xA005713C; 0xBDB26158; 0x9B6B51F4; 0x86DC4190;
   0xD6D930AC; 0xCB6E20C8; 0xEDB71064; 0xF0000000].

Definition crc_table_at (i : Z) : Z := nth (Z.to_nat i) crc_table 0.

(** The body of the loop of [Utils::crc32] for the byte [d]. *)
Definition crc32_step (crc d : Z) : Z :=
  let crc := Z.lxor (Z.shiftr crc 4) (crc_table_at (Z.land (Z.lxor crc d) 15)) in
  let crc :=
    Z.lxor (Z.shiftr crc 4) (crc_table_at (Z.land (Z.lxor crc (Z.shiftr d 4)) 15)) in
  crc.

(** The loop [for (i = 0; i < data_size; ++i)] of [Utils::crc32]. *)
Fixpoint crc32_loop (fuel : nat) (data : buffer) (i data_size crc : Z)
  : outcome Z :=
  if i <? data_size then
    match fuel with
    | O => Fuel
    | S fuel' =>
        d <- read8 data i ;;
        crc32_loop fuel' data (i + 1) data_size (crc32_step crc d)
    end
  else Ok crc.

(** [Utils::crc32(data, data_size)] *)
Definition crc32 (data : buffer) (data_size : Z) : outcome Z :=
  crc32_loop (Z.to_nat data_size) data 0 data_size 0.

Section Host.

Variable host_le : bool.

(** [*(uint16_t* )(buffer + off)] *)
Definition read16 (buf : buffer) (off : Z) : outcome Z :=
  bs <- read_bytes buf off 2 ;; Ok (Endian.of_mem host_le bs).

(** The loop [while(ptr < last) checksum += Endian::host_to_be( *(ptr++))]. *)
Fixpoint do_checksum_loop (fuel : nat) (buf : buffer) (ptr last checksum : Z)
  : outcome Z :=
  if ptr <? last then
    match fuel with
    | O => Fuel
    | S fuel' =>
        w <- read16 buf ptr ;;
        do_checksum_loop fuel' buf (ptr + 2) last
          (wrap 32 (checksum + Endian.host_to_be host_le 2 w))
    end
  else Ok checksum.

(** [Utils::do_checksum(start, end)], the two pointers given as offsets into
    the buffer they point into. *)
Definition do_checksum (buf : buffer) (start end_ : Z) : outcome Z :=
  let checksum := 0 in
  '(last, padding) <-
     (if Z.land (end_ - start) 1 =? 1
      then b <- read8 buf (end_ - 1) ;;
           Ok (end_ - 2, wrap 16 (Z.shiftl b 8))
      else Ok (end_, 0)) ;;
  checksum <- do_checksum_loop (Z.to_nat (end_ - start)) buf start last checksum ;;
  Ok (wrap 32 (checksum + padding)).

(** [Utils::pseudoheader_checksum(source_ip, dest_ip, len, flag)]. An
    address is given as the [uint32_t] it converts to; [ptr] reads the two
    16-bit halves of a swapped address as they lie in memory. *)
Definition pseudoheader_checksum (source_ip dest_ip len flag : Z) : Z :=
  let checksum := 0 in
  let source_ip_int := Endian.host_to_be host_le 4 (wrap 32 source_ip) in
  let dest_ip_int := Endian.host_to_be host_le 4 (wrap 32 dest_ip) in
  let ptr := Endian.to_mem host_le 4 source_ip_int in
  let checksum :=
    wrap 32 (checksum
             + wrap 32 (Endian.of_mem host_le (slice ptr 0 2)
                        + Endian.of_mem host_le (slice ptr 2 2))) in
  let ptr := Endian.to_mem host_le 4 dest_ip_int in
  let checksum :=
    wrap 32 (checksum
             + wrap 32 (Endian.of_mem host_le (slice ptr 0 2)
                        + Endian.of_mem host_le (slice ptr 2 2))) in
  let checksum := wrap 32 (checksum + wrap 32 (wrap 32 flag + wrap 32 len)) in
  checksum.

End Host.

End Utils.

(** ** ip.cpp *)

Module IP.

(** *** Declarations of [ip.h] *)

(** Modelled from the spec: [struct iphdr] of [ip.h], which is not under
    [src/]. It is the standard 20-byte fixed header, packed: the byte of
    version and header length, type of service, 16-bit total length,
    identification and flags with fragment offset, time to live, protocol,
    16-bit checksum, two 32-bit addresses. The first byte holds [version]
    in its high and [ihl] in its low four bits on either kind of host. *)
Record iphdr : Type := {
  ihl : Z;
  version : Z;
  tos : Z;
  tot_len : Z;
  id : Z;
  frag_off : Z;
  ttl : Z;
  protocol : Z;
  check : Z;
  saddr : Z;
  daddr : Z
}.

Definition sizeof_iphdr : Z := 20.
Definition sizeof_uint32_t : Z := 4.

(** Modelled from the spec: [enum Option] and [enum OptionClass] of
    [ip.h]; the option numbers are those IANA assigns, the classes 0 and
    2. *)
Inductive Option_ : Type :=
| END | NOOP | SEC | LSSR | TIMESTAMP | EXTSEC | RR | SID | SSRR
| MTUPROBE | MTUREPLY | EIP | TR | ADDEXT | RTRALT | SDB | DPS | UMP | QS.

Definition Option_value (o : Option_) : Z :=
  match o with
  | END => 0 | NOOP => 1 | SEC => 2 | LSSR => 3 | TIMESTAMP => 4
  | EXTSEC => 5 | RR => 7 | SID => 8 | SSRR => 9 | MTUPROBE => 11
  | MTUREPLY => 12 | EIP => 17 | TR => 18 | ADDEXT => 19 | RTRALT => 20
  | SDB => 21 | DPS => 23 | UMP => 24 | QS => 25
  end.

Inductive OptionClass : Type := CONTROL | MEASUREMENT.

Definition OptionClass_value (c : OptionClass) : Z :=
  match c with CONTROL => 0 | MEASUREMENT => 2 end.

(** Modelled from the spec: [struct IPOption] of [ip.h]. The type byte is
    split into a copy-on-fragmentation bit, an option class and an option
    number: [number:5], [op_class:2] and [copied:1] from the low bit up;
    the data block, when present, starts with the length byte. *)
Record IPOption : Type := {
  number : Z;
  op_class : Z;
  copied : Z;
  optional_data : list byte
}.

(** [Constants::IP::PROTO_IP] and the protocol numbers of [netinet/in.h]. *)
Definition PROTO_IP : Z := 0.
Definition IPPROTO_IP : Z := 0.
Definition IPPROTO_ICMP : Z := 1.
Definition IPPROTO_IPIP : Z := 4.
Definition IPPROTO_TCP : Z := 6.
Definition IPPROTO_UDP : Z := 17.

Definition DEFAULT_TTL : Z := 128.

(** Modelled from the spec: [small_uint<4>] of [small_uint.h], the type of
    the 4-bit header length. Its constructor takes a [uint8_t] and refuses
    a value above 15 with an exception. *)
Definition small_uint4 (val : Z) : outcome Z :=
  let val := wrap 8 val in
  if val >? 15 then Throw "Value is too large" else Ok val.

Section Host.

Variable host_le : bool.

(** The nested unit, its flag and the decoders of the next layer are
    external collaborators of [ip.cpp]; a decoder gets the buffer, the
    offset of the payload and its size. *)
Context {PDU : Type}.
Variable PDU_flag : PDU -> Z.
Variables TCP UDP ICMP RawPDU : buffer -> Z -> Z -> outcome PDU.
(** [PDU::clone_inner_pdu] of a unit whose nested unit is the first
    argument; a null pointer is [None]. *)
Variable clone_inner_pdu : option PDU -> buffer -> Z -> Z -> outcome (option PDU).

(** The 20 bytes of an [iphdr] in memory. *)
Definition iphdr_to_mem (h : iphdr) : list byte :=
  [byte.of_Z (Z.lor (Z.land (ihl h) 15) (Z.shiftl (Z.land (version h) 15) 4));
   byte.of_Z (tos h)]
  ++ Endian.to_mem host_le 2 (tot_len h)
  ++ Endian.to_mem host_le 2 (id h)
  ++ Endian.to_mem host_le 2 (frag_off h)
  ++ [byte.of_Z (ttl h); byte.of_Z (protocol h)]
  ++ Endian.to_mem host_le 2 (check h)
  ++ Endian.to_mem host_le 4 (saddr h)
  ++ Endian.to_mem host_le 4 (daddr h).

(** The [iphdr] a host sees in 20 bytes of memory. *)
Definition iphdr_of_mem (bs : list byte) : iphdr :=
  {| ihl := Z.land (byte_at bs 0) 15;
     version := Z.shiftr (byte_at bs 0) 4;
     tos := byte_at bs 1;
     tot_len := Endian.of_mem host_le (slice bs 2 2);
     id := Endian.of_mem host_le (slice bs 4 2);
     frag_off := Endian.of_mem host_le (slice bs 6 2);
     ttl := byte_at bs 8;
     protocol := byte_at bs 9;
     check := Endian.of_mem host_le (slice bs 10 2);
     saddr := Endian.of_mem host_le (slice bs 12 4);
     daddr := Endian.of_mem host_le (slice bs 16 4) |}.

(** The type byte of an option in memory, and back. *)
Definition type_to_mem (o : IPOption) : byte :=
  byte.of_Z (Z.lor (Z.land (number o) 31)
            (Z.lor (Z.shiftl (Z.land (op_class o) 3) 5)
                   (Z.shiftl (Z.land (copied o) 1) 7))).

Definition type_of_mem (b : Z) (data : list byte) : IPOption :=
  {| number := Z.land b 31;
     op_class := Z.land (Z.shiftr b 5) 3;
     copied := Z.shiftr b 7;
     optional_data := data |}.

(** *** The class *)

Record IP : Type := {
  flag : Z;                       (* PDU::_flag *)
  inner_pdu : option PDU;         (* PDU::_inner_pdu *)
  _ip : iphdr;
  _ip_options : list IPOption;
  _options_size : Z;
  _padded_options_size : Z
}.

Definition set_ip (this : IP) (h : iphdr) : IP :=
  {| flag := flag this; inner_pdu := inner_pdu this; _ip := h;
     _ip_options := _ip_options this; _options_size := _options_size this;
     _padded_options_size := _padded_options_size this |}.

(** Modelled from the spec: the setters [PDU::flag(uint32_t)] and
    [PDU::inner_pdu(PDU* )] of the base class ([pdu.h] is not under
    [src/]). *)
Definition set_flag (this : IP) (new_flag : Z) : IP :=
  {| flag := wrap 32 new_flag; inner_pdu := inner_pdu this; _ip := _ip this;
     _ip_options := _ip_options this; _options_size := _options_size this;
     _padded_options_size := _padded_options_size this |}.

Definition set_inner_pdu (this : IP) (next_pdu : option PDU) : IP :=
  {| flag := flag this; inner_pdu := next_pdu; _ip := _ip this;
     _ip_options := _ip_options this; _options_size := _options_size this;
     _padded_options_size := _padded_options_size this |}.

(** Modelled from the spec: the getter [head_len()] of [ip.h]. *)
Definition head_len (this : IP) : Z := ihl (_ip this).

(** The setters. A setter [IP::x(v)] of the source is [set_x] here, the
    name [x] being the field's; its argument is converted to the type of
    the parameter first. *)

Definition set_tos (this : IP) (new_tos : Z) : IP :=
  let h := _ip this in
  set_ip this
    {| ihl := ihl h; version := version h; tos := wrap 8 new_tos;
       tot_len := tot_len h; id := id h; frag_off := frag_off h; ttl := ttl h;
       protocol := protocol h; check := check h; saddr := saddr h;
       daddr := daddr h |}.

Definition set_tot_len (this : IP) (new_tot_len : Z) : IP :=
  let h := _ip this in
  set_ip this
    {| ihl := ihl h; version := version h; tos := tos h;
       tot_len := Endian.host_to_be host_le 2 (wrap 16 new_tot_len);
       id := id h; frag_off := frag_off h; ttl := ttl h;
       protocol := protocol h; check := check h; saddr := saddr h;
       daddr := daddr h |}.

Definition set_id (this : IP) (new_id : Z) : IP :=
  let h := _ip this in
  set_ip this
    {| ihl := ihl h; version := version h; tos := tos h; tot_len := tot_len h;
       id := Endian.host_to_be host_le 2 (wrap 16 new_id);
       frag_off := frag_off h; ttl := ttl h;
       protocol := protocol h; check := check h; saddr := saddr h;
       daddr := daddr h |}.

Definition set_frag_off (this : IP) (new_frag_off : Z) : IP :=
  let h := _ip this in
  set_ip this
    {| ihl := ihl h; version := version h; tos := tos h; tot_len := tot_len h;
       id := id h;
       frag_off := Endian.host_to_be host_le 2 (wrap 16 new_frag_off);
       ttl := ttl h; protocol := protocol h; check := check h;
       saddr := saddr h; daddr := daddr h |}.

Definition set_ttl (this : IP) (new_ttl : Z) : IP :=
  let h := _ip this in
  set_ip this
    {| ihl := ihl h; version := version h; tos := tos h; tot_len := tot_len h;
       id := id h; frag_off := frag_off h; ttl := wrap 8 new_ttl;
       protocol := protocol h; check := check h; saddr := saddr h;
       daddr := daddr h |}.

Definition set_protocol (this : IP) (new_protocol : Z) : IP :=
  let h := _ip this in
  set_ip this
    {| ihl := ihl h; version := version h; tos := tos h; tot_len := tot_len h;
       id := id h; frag_off := frag_off h; ttl := ttl h;
       protocol := wrap 8 new_protocol; check := check h; saddr := saddr h;
       daddr := daddr h |}.

Definition set_check (this : IP) (new_check : Z) : IP :=
  let h := _ip this in
  set_ip this
    {| ihl := ihl h; version := version h; tos := tos h; tot_len := tot_len h;
       id := id h; frag_off := frag_off h; ttl := ttl h;
       protocol := protocol h;
       check := Endian.host_to_be host_le 2 (wrap 16 new_check);
       saddr := saddr h; daddr := daddr h |}.

Definition src_addr (this : IP) (ip : Z) : IP :=
  let h := _ip this in
  set_ip this
    {| ihl := ihl h; version := version h; tos := tos h; tot_len := tot_len h;
       id := id h; frag_off := frag_off h; ttl := ttl h;
       protocol := protocol h; check := check h; saddr := wrap 32 ip;
       daddr := daddr h |}.

Definition dst_addr (this : IP) (ip : Z) : IP :=
  let h := _ip this in
  set_ip this
    {| ihl := ihl h; version := version h; tos := tos h; tot_len := tot_len h;
       id := id h; frag_off := frag_off h; ttl := ttl h;
       protocol := protocol h; check := check h; saddr := saddr h;
       daddr := wrap 32 ip |}.

Definition set_head_len (this : IP) (new_head_len : Z) : IP :=
  let h := _ip this in
  set_ip this
    {| ihl := new_head_len; version := version h; tos := tos h;
       tot_len := tot_len h; id := id h; frag_off := frag_off h; ttl := ttl h;
       protocol := protocol h; check := check h; saddr := saddr h;
       daddr := daddr h |}.

Definition set_version (this : IP) (ver : Z) : IP :=
  let h := _ip this in
  set_ip this
    {| ihl := ihl h; version := ver; tos := tos h;
       tot_len := tot_len h; id := id h; frag_off := frag_off h; ttl := ttl h;
       protocol := protocol h; check := check h; saddr := saddr h;
       daddr := daddr h |}.

(** *** Constructors *)

Definition init_ip_fields (this : IP) : IP :=
  let this :=
    set_ip this
      {| ihl := 0; version := 4; tos := 0; tot_len := 0; id := 0;
         frag_off := 0; ttl := 0; protocol := 0; check := 0; saddr := 0;
         daddr := 0 |} in
  let this := set_ttl this DEFAULT_TTL in
  let this := set_id this 1 in
  {| flag := flag this; inner_pdu := inner_pdu this; _ip := _ip this;
     _ip_options := _ip_options this; _options_size := 0;
     _padded_options_size := 0 |}.

(** A unit as the base-class initialiser [PDU(flag, child)] leaves it,
    the members of [IP] not yet set. *)
Definition PDU_init (flag_ : Z) (child : option PDU) : IP :=
  {| flag := flag_; inner_pdu := child;
     _ip := {| ihl := 0; version := 0; tos := 0; tot_len := 0; id := 0;
               frag_off := 0; ttl := 0; protocol := 0; check := 0;
               saddr := 0; daddr := 0 |};
     _ip_options := []; _options_size := 0; _padded_options_size := 0 |}.

(** [IP::IP(address_type ip_dst, address_type ip_src, PDU *child)] *)
Definition IP_new (ip_dst ip_src : Z) (child : option PDU) : IP :=
  let this := init_ip_fields (PDU_init PROTO_IP child) in
  let this := dst_addr this ip_dst in
  src_addr this ip_src.

Definition msg : string := "Not enough size for an IP header in the buffer.".

(** The labels of the [switch] over the option number: the options whose
    second byte is a length. *)
Definition multibyte_options : list Option_ :=
  [SEC; LSSR; TIMESTAMP; EXTSEC; RR; SID; SSRR; MTUPROBE; MTUREPLY; EIP; TR;
   ADDEXT; RTRALT; SDB; DPS; UMP; QS].

Definition is_multibyte (num : Z) : bool :=
  existsb (fun o => num =? Option_value o) multibyte_options.

(** The [case] of the multi-byte options in the loop below: the data block
    it assigns to the option and the pointer it leaves. [ptr_buffer]
    points past the type byte, [buffer_] at the end of the header. *)
Definition read_option_data (buf : buffer) (ptr_buffer buffer_ : Z)
  : outcome (list byte * Z) :=
  if ptr_buffer =? buffer_ then Throw msg else
  len <- read8 buf ptr_buffer ;;
  if len =? 0 then Throw msg else
  let data_size := wrap 8 (len - 1) in
  optional_data <-
    (if data_size >? 0 then
       if buffer_ - ptr_buffer <? data_size then Throw msg
       else read_bytes buf ptr_buffer data_size
     else Ok []) ;;
  Ok (optional_data, ptr_buffer + size optional_data).

(** The body of that loop for an option whose type byte [t] lies at
    [ptr_buffer]: the option added and the pointer left. *)
Definition read_option (buf : buffer) (t : Z) (ptr_buffer buffer_ : Z)
  : outcome (IPOption * Z) :=
  let ptr_buffer := ptr_buffer + 1 in
  '(optional_data, ptr_buffer) <-
     (if is_multibyte (Z.land t 31)
      then read_option_data buf ptr_buffer buffer_
      else Ok ([], ptr_buffer)) ;;
  Ok (type_of_mem t optional_data, ptr_buffer).

(** The loop [while (ptr_buffer < buffer && ( *ptr_buffer != 0))] of the
    decoding constructor; it returns the members [_ip_options] and
    [_options_size]. *)
Fixpoint read_options (fuel : nat) (buf : buffer) (ptr_buffer buffer_ : Z)
  (ip_options : list IPOption) (options_size : Z)
  : outcome (list IPOption * Z) :=
  if negb (ptr_buffer <? buffer_) then Ok (ip_options, options_size) else
  t <- read8 buf ptr_buffer ;;
  if t =? 0 then Ok (ip_options, options_size) else
  match fuel with
  | O => Fuel
  | S fuel' =>
      '(opt_to_add, ptr_buffer) <- read_option buf t ptr_buffer buffer_ ;;
      read_options fuel' buf ptr_buffer buffer_
        (ip_options ++ [opt_to_add])
        (wrap 32 (options_size + size (optional_data opt_to_add) + 1))
  end.

(** The checks on the fixed header, up to and including
    ["Malformed head len field"]; they return the header read. *)
Definition read_header (buf : buffer) (total_sz : Z) : outcome iphdr :=
  if total_sz <? sizeof_iphdr then Throw msg else
  hdr <- read_bytes buf 0 sizeof_iphdr ;;
  let ip := iphdr_of_mem hdr in
  if total_sz <? ihl ip * sizeof_uint32_t then Throw msg else
  if ihl ip * sizeof_uint32_t <? sizeof_iphdr
  then Throw "Malformed head len field"
  else Ok ip.

(** The [switch(_ip.protocol)] that decodes the nested unit. *)
Definition read_inner (proto : Z) (buf : buffer) (buffer_ total_sz : Z)
  : outcome (option PDU) :=
  if total_sz =? 0 then Ok None else
  inner <-
    (if proto =? IPPROTO_TCP then TCP buf buffer_ total_sz
     else if proto =? IPPROTO_UDP then UDP buf buffer_ total_sz
     else if proto =? IPPROTO_ICMP then ICMP buf buffer_ total_sz
     else RawPDU buf buffer_ total_sz) ;;
  Ok (Some inner).

(** The decoded unit without its nested unit: the constructor up to the
    end of the option loop. *)
Definition IP_header_of_buffer (buf : buffer) (total_sz : Z) : outcome IP :=
  ip <- read_header buf total_sz ;;
  let ptr_buffer := sizeof_iphdr in
  let buffer_ := ihl ip * sizeof_uint32_t in
  let padded_options_size := ihl ip * sizeof_uint32_t - sizeof_iphdr in
  '(ip_options, options_size) <-
     read_options (Z.to_nat padded_options_size) buf ptr_buffer buffer_ [] 0 ;;
  Ok {| flag := PROTO_IP; inner_pdu := None; _ip := ip;
        _ip_options := ip_options; _options_size := options_size;
        _padded_options_size := padded_options_size |}.

(** [IP::IP(const uint8_t *buffer, uint32_t total_sz)] *)
Definition IP_of_buffer (buf : buffer) (total_sz : Z) : outcome IP :=
  this <- IP_header_of_buffer buf total_sz ;;
  let buffer_ := head_len this * sizeof_uint32_t in
  let total_sz := total_sz - head_len this * sizeof_uint32_t in
  inner <- read_inner (protocol (_ip this)) buf buffer_ total_sz ;;
  Ok (set_inner_pdu this inner).

(** *** Options *)

(** [IP::set_option(copied, op_class, number, data, data_size)] *)
Definition set_option (this : IP) (copied_ : Z) (op_class_ : OptionClass)
  (number_ : Option_) (data : buffer) (data_size : Z) : outcome IP :=
  '(optional_data, data_size) <-
     (if negb (data_size =? 0) then
        bytes <- read_bytes data 0 data_size ;;
        Ok (byte.of_Z data_size :: bytes, wrap 32 (data_size + 1))
      else Ok ([], data_size)) ;;
  let option :=
    {| number := Z.land (Option_value number_) 31;
       op_class := Z.land (OptionClass_value op_class_) 3;
       copied := Z.land (wrap 8 copied_) 1;
       optional_data := optional_data |} in
  let options_size :=
    wrap 32 (_options_size this
             + (1 + (match optional_data with [] => 0 | _ => data_size end))) in
  let padding := wrap 8 (Z.land options_size 3) in
  Ok {| flag := flag this; inner_pdu := inner_pdu this; _ip := _ip this;
        _ip_options := _ip_options this ++ [option];
        _options_size := options_size;
        _padded_options_size :=
          if negb (padding =? 0) then wrap 32 (options_size - padding + 4)
          else options_size |}.

Definition set_eol_option (this : IP) : outcome IP :=
  set_option this 0 CONTROL END [] 0.

Definition set_noop_option (this : IP) : outcome IP :=
  set_option this 0 CONTROL NOOP [] 0.

Definition set_sec_option (this : IP) (data : buffer) (data_len : Z) : outcome IP :=
  set_option this 1 CONTROL SEC data data_len.

(** The loop of [IP::search_option] over the options from [it] on. *)
Fixpoint search_option_from (it : list IPOption) (opt_class : OptionClass)
  (opt_number : Option_) : option IPOption :=
  match it with
  | [] => None
  | o :: rest =>
      if (op_class o =? wrap 8 (OptionClass_value opt_class))
         && (number o =? wrap 8 (Option_value opt_number))
      then Some o
      else search_option_from rest opt_class opt_number
  end.

(** [IP::search_option(opt_class, opt_number)]; a null result is [None]. *)
Definition search_option (this : IP) (opt_class : OptionClass)
  (opt_number : Option_) : option IPOption :=
  search_option_from (_ip_options this) opt_class opt_number.

(** [IP::IPOption::write(buffer)]: the buffer written and the pointer
    returned. *)
Definition IPOption_write (o : IPOption) (buf : buffer) (buffer_ : Z)
  : outcome (buffer * Z) :=
  buf <- write_bytes buf buffer_ [type_to_mem o] ;;
  let buffer_ := buffer_ + 1 in
  match optional_data o with
  | [] => Ok (buf, buffer_)
  | _ =>
      buf <- write_bytes buf buffer_ (optional_data o) ;;
      Ok (buf, buffer_ + size (optional_data o))
  end.

(** [IP::IPOption::data_ptr()]: the bytes of the data block from the
    pointer returned on; a null pointer is [None]. *)
Definition IPOption_data_ptr (o : IPOption) : option (list byte) :=
  match optional_data o with
  | [] => None
  | _ :: data => Some data
  end.

(** [IP::IPOption::data_size()] *)
Definition IPOption_data_size (o : IPOption) : Z :=
  match optional_data o with
  | [] => 0
  | _ => wrap 8 (size (optional_data o) - 1)
  end.

(** *** Serialization *)

(** [IP::header_size()] *)
Definition header_size (this : IP) : Z :=
  wrap 32 (sizeof_iphdr + _padded_options_size this).

(** The loop over [_ip_options] of [write_serialization]. *)
Fixpoint write_options (opts : list IPOption) (buf : buffer) (ptr_buffer : Z)
  : outcome (buffer * Z) :=
  match opts with
  | [] => Ok (buf, ptr_buffer)
  | it :: rest =>
      '(buf, ptr_buffer) <- IPOption_write it buf ptr_buffer ;;
      write_options rest buf ptr_buffer
  end.

(** The carry folding [while (checksum >> 16) ...]. *)
Fixpoint fold_carries (fuel : nat) (checksum : Z) : outcome Z :=
  if negb (Z.shiftr checksum 16 =? 0) then
    match fuel with
    | O => Fuel
    | S fuel' =>
        fold_carries fuel'
          (wrap 32 (Z.land checksum 65535 + Z.shiftr checksum 16))
    end
  else Ok checksum.

(** [IP::write_serialization] up to the test [if(parent && !_ip.check)]:
    the header, the options and the padding are in the buffer. *)
Definition write_header (this : IP) (buf : buffer) (total_sz : Z)
  : outcome (IP * buffer) :=
  let my_sz := header_size this in
  if negb (total_sz >=? my_sz) then AssertFail else
  let this :=
    match inner_pdu this with
    | Some inner =>
        let new_flag := PDU_flag inner in
        let new_flag := if new_flag =? IPPROTO_IP then IPPROTO_IPIP else new_flag in
        let this := set_protocol this new_flag in
        set_flag this new_flag
    | None => this
    end in
  let this := set_tot_len this total_sz in
  new_head_len <- small_uint4 (my_sz / sizeof_uint32_t) ;;
  let this := set_head_len this new_head_len in
  buf <- write_bytes buf 0 (iphdr_to_mem (_ip this)) ;;
  let ptr_buffer := sizeof_iphdr in
  '(buf, _) <- write_options (_ip_options this) buf ptr_buffer ;;
  buf <- memset0 buf (sizeof_iphdr + _options_size this)
           (wrap 32 (_padded_options_size this - _options_size this)) ;;
  Ok (this, buf).

(** [IP::write_serialization(buffer, total_sz, parent)]; [parent] tells
    whether the pointer is non-null. *)
Definition write_serialization (this : IP) (buf : buffer) (total_sz : Z)
  (parent : bool) : outcome (IP * buffer) :=
  '(this, buf) <- write_header this buf total_sz ;;
  if parent && (check (_ip this) =? 0) then
    checksum <- Utils.do_checksum host_le buf 0
                  (sizeof_iphdr + _padded_options_size this) ;;
    checksum <- fold_carries 32 checksum ;;
    buf <- write_bytes buf 10
             (Endian.to_mem host_le 2
                (Endian.host_to_be host_le 2 (wrap 16 (Z.lnot checksum)))) ;;
    Ok (set_check this 0, buf)
  else Ok (this, buf).

(** *** Responses *)

(** [PDU::matches_response] of the nested unit, an external collaborator:
    it gets the buffer, the offset of its part and the size left. *)
Variable PDU_matches_response : PDU -> buffer -> Z -> Z -> outcome bool.

(** [IP::matches_response(ptr, total_sz)] *)
Definition matches_response (this : IP) (ptr : buffer) (total_sz : Z)
  : outcome bool :=
  if total_sz <? sizeof_iphdr then Ok false else
  hdr <- read_bytes ptr 0 sizeof_iphdr ;;
  let ip_ptr := iphdr_of_mem hdr in
  if (daddr (_ip this) =? saddr ip_ptr) && (saddr (_ip this) =? daddr ip_ptr)
  then
    let sz := wrap 32 (ihl (_ip this) * sizeof_uint32_t) in
    match inner_pdu this with
    | Some inner => PDU_matches_response inner ptr sz (wrap 32 (total_sz - sz))
    | None => Ok true
    end
  else Ok false.

(** *** Cloning *)

(** The size [IP::clone_packet] hands to the decoding constructor. *)
Definition clone_bound (ip_ptr : iphdr) (total_sz : Z) : Z :=
  Z.min total_sz
    (wrap 32 (Endian.be_to_host host_le 2 (tot_len ip_ptr) * sizeof_uint32_t)).

(** [IP::clone_packet(ptr, total_sz)]; a null result is [None]. *)
Definition clone_packet (this : IP) (ptr : buffer) (total_sz : Z)
  : outcome (option IP) :=
  if total_sz <? sizeof_iphdr then Ok None else
  hdr <- read_bytes ptr 0 sizeof_iphdr ;;
  let ip_ptr := iphdr_of_mem hdr in
  let sz := ihl ip_ptr * sizeof_uint32_t in
  if total_sz <? sz then Ok None else
  child <-
    (if total_sz >? sz
     then clone_inner_pdu (inner_pdu this) ptr sizeof_iphdr
            (total_sz - sizeof_iphdr)
     else Ok None) ;;
  if (total_sz >? sz) && (match child with None => true | Some _ => false end)
  then Ok None else
  cloned <- IP_of_buffer ptr (clone_bound ip_ptr total_sz) ;;
  Ok (Some (set_inner_pdu cloned child)).

End Host.

Arguments IP : clear implicits.

End IP.

(** ** eapol.cpp *)

(** Modelled from the spec: [Dot11::RSN] of [dot11.h], the fixed tag of
    the RSN information element. *)
Definition Dot11_RSN : Z := 48.

Module EAPOL.

(** *** Declarations of [eapol.h] *)

(** Modelled from the spec: [struct eapolhdr] of [eapol.h], which is not
    under [src/]: the envelope of version, packet type and 16-bit length,
    and the discriminant byte that starts the body; packed, 5 bytes. *)
Record eapolhdr : Type := {
  version : Z;
  packet_type : Z;
  length : Z;
  type : Z
}.

Definition sizeof_eapolhdr : Z := 5.

(** Modelled from the spec: [enum EAPOLTYPE] of [eapol.h]. *)
Inductive EAPOLTYPE : Type := RC4 | RSN | EAPOL_WPA.

Definition EAPOLTYPE_value (t : EAPOLTYPE) : Z :=
  match t with RC4 => 1 | RSN => 2 | EAPOL_WPA => 254 end.

(** The class: the [PDU] flag and the envelope. *)
Record EAPOL : Type := {
  flag : Z;
  _header : eapolhdr
}.

(** What a derived class supplies: its base-class part and the two virtual
    functions [header_size] and [write_body]. [write_body] gets the buffer,
    the offset of the body in it and the size left. *)
Class Variant (D : Type) : Type := {
  base : D -> EAPOL;
  set_base : D -> EAPOL -> D;
  header_size : D -> Z;
  write_body : D -> buffer -> Z -> Z -> outcome (D * buffer)
}.

(** [EAPOL::EAPOL(uint8_t packet_type, EAPOLTYPE type)] *)
Definition EAPOL_new (packet_type_ : Z) (type_ : EAPOLTYPE) : EAPOL :=
  {| flag := 255;
     _header := {| version := 1; packet_type := wrap 8 packet_type_;
                   length := 0; type := wrap 8 (EAPOLTYPE_value type_) |} |}.

Definition msg : string := "Not enough size for an EAPOL header in the buffer.".

(** Setters *)

Definition set_version (this : EAPOL) (new_version : Z) : EAPOL :=
  let h := _header this in
  {| flag := flag this;
     _header := {| version := wrap 8 new_version; packet_type := packet_type h;
                   length := length h; type := type h |} |}.

Definition set_packet_type (this : EAPOL) (new_ptype : Z) : EAPOL :=
  let h := _header this in
  {| flag := flag this;
     _header := {| version := version h; packet_type := wrap 8 new_ptype;
                   length := length h; type := type h |} |}.

(** [EAPOL::length(uint16_t new_length)]: the value is stored as it is. *)
Definition set_length (this : EAPOL) (new_length : Z) : EAPOL :=
  let h := _header this in
  {| flag := flag this;
     _header := {| version := version h; packet_type := packet_type h;
                   length := wrap 16 new_length; type := type h |} |}.

Definition set_type (this : EAPOL) (new_type : Z) : EAPOL :=
  let h := _header this in
  {| flag := flag this;
     _header := {| version := version h; packet_type := packet_type h;
                   length := length h; type := wrap 8 new_type |} |}.

Section Host.

Variable host_le : bool.

(** The 5 bytes of an [eapolhdr] in memory, and back. *)
Definition eapolhdr_to_mem (h : eapolhdr) : list byte :=
  [byte.of_Z (version h); byte.of_Z (packet_type h)]
  ++ Endian.to_mem host_le 2 (length h) ++ [byte.of_Z (type h)].

Definition eapolhdr_of_mem (bs : list byte) : eapolhdr :=
  {| version := byte_at bs 0;
     packet_type := byte_at bs 1;
     length := Endian.of_mem host_le (slice bs 2 2);
     type := byte_at bs 4 |}.

(** [EAPOL::EAPOL(const uint8_t *buffer, uint32_t total_sz)] *)
Definition EAPOL_of_buffer (buf : buffer) (total_sz : Z) : outcome EAPOL :=
  if total_sz <? sizeof_eapolhdr then Throw msg else
  hdr <- read_bytes buf 0 sizeof_eapolhdr ;;
  Ok {| flag := 255; _header := eapolhdr_of_mem hdr |}.

(** [EAPOL::write_serialization(buffer, total_sz, parent)] of a unit of the
    derived class [D]. *)
Definition write_serialization {D : Type} `{Variant D} (this : D)
  (buf : buffer) (total_sz : Z) : outcome (D * buffer) :=
  let sz := header_size this in
  if negb (total_sz >=? sz) then AssertFail else
  let this :=
    if length (_header (base this)) =? 0
    then set_base this (set_length (base this) (sz - 1 - 2 - 1))
    else this in
  buf <- write_bytes buf 0 (eapolhdr_to_mem (_header (base this))) ;;
  write_body this buf sizeof_eapolhdr (wrap 32 (total_sz - sizeof_eapolhdr)).

End Host.

End EAPOL.

Module RC4EAPOL.

(** Modelled from the spec: [struct rc4hdr] of [eapol.h], the fixed body
    of the stream-cipher variant: key length, replay counter,
    initialization vector, key index and flag, key signature; packed, 43
    bytes. [key_index:7] and [key_flag:1] share a byte, from the low bit
    up. *)
Record rc4hdr : Type := {
  key_length : Z;
  replay_counter : Z;
  key_iv : list byte;
  key_index : Z;
  key_flag : Z;
  key_sign : list byte
}.

Definition sizeof_rc4hdr : Z := 43.

Record RC4EAPOL : Type := {
  eapol : EAPOL.EAPOL;
  _header : rc4hdr;
  _key : list byte
}.

Definition zero_header : rc4hdr :=
  {| key_length := 0; replay_counter := 0; key_iv := repeat Byte.x00 16;
     key_index := 0; key_flag := 0; key_sign := repeat Byte.x00 16 |}.

(** [RC4EAPOL::RC4EAPOL()] *)
Definition RC4EAPOL_new : RC4EAPOL :=
  {| eapol := EAPOL.EAPOL_new 3 EAPOL.RC4; _header := zero_header; _key := [] |}.

(** [RC4EAPOL::key(new_key)] *)
Definition key (this : RC4EAPOL) (new_key : list byte) : RC4EAPOL :=
  {| eapol := eapol this; _header := _header this; _key := new_key |}.

(** [RC4EAPOL::header_size()] *)
Definition header_size (this : RC4EAPOL) : Z :=
  wrap 32 (EAPOL.sizeof_eapolhdr + sizeof_rc4hdr + size (_key this)).

Section Host.

Variable host_le : bool.

(** The width of [size_t] in bytes: [write_body] swaps the bytes of
    [_key.size()] at that width. *)
Variable sizeof_size_t : nat.

Definition rc4hdr_to_mem (h : rc4hdr) : list byte :=
  Endian.to_mem host_le 2 (key_length h)
  ++ Endian.to_mem host_le 8 (replay_counter h)
  ++ key_iv h
  ++ [byte.of_Z (Z.lor (Z.land (key_index h) 127)
                       (Z.shiftl (Z.land (key_flag h) 1) 7))]
  ++ key_sign h.

Definition rc4hdr_of_mem (bs : list byte) : rc4hdr :=
  {| key_length := Endian.of_mem host_le (slice bs 0 2);
     replay_counter := Endian.of_mem host_le (slice bs 2 8);
     key_iv := slice bs 10 16;
     key_index := Z.land (byte_at bs 26) 127;
     key_flag := Z.shiftr (byte_at bs 26) 7;
     key_sign := slice bs 27 16 |}.

(** Modelled from the spec: the getter [key_length()] of [eapol.h], the
    declared key length in host order. *)
Definition get_key_length (this : RC4EAPOL) : Z :=
  Endian.be_to_host host_le 2 (key_length (_header this)).

(** [RC4EAPOL::key_length(uint16_t)] *)
Definition set_key_length (this : RC4EAPOL) (new_key_length : Z) : RC4EAPOL :=
  let h := _header this in
  {| eapol := eapol this;
     _header := {| key_length := Endian.host_to_be host_le 2 (wrap 16 new_key_length);
                   replay_counter := replay_counter h; key_iv := key_iv h;
                   key_index := key_index h; key_flag := key_flag h;
                   key_sign := key_sign h |};
     _key := _key this |}.

(** [RC4EAPOL::RC4EAPOL(const uint8_t *buffer, uint32_t total_sz)] *)
Definition RC4EAPOL_of_buffer (buf : buffer) (total_sz : Z) : outcome RC4EAPOL :=
  base <- EAPOL.EAPOL_of_buffer host_le buf total_sz ;;
  let buffer_ := EAPOL.sizeof_eapolhdr in
  let total_sz := wrap 32 (total_sz - EAPOL.sizeof_eapolhdr) in
  if total_sz <? sizeof_rc4hdr then Throw EAPOL.msg else
  hdr <- read_bytes buf buffer_ sizeof_rc4hdr ;;
  let this := {| eapol := base; _header := rc4hdr_of_mem hdr; _key := [] |} in
  let buffer_ := buffer_ + sizeof_rc4hdr in
  let total_sz := wrap 32 (total_sz - sizeof_rc4hdr) in
  if total_sz =? get_key_length this then
    k <- read_bytes buf buffer_ total_sz ;;
    Ok (key this k)
  else Ok this.

(** [RC4EAPOL::write_body(buffer, total_sz)] *)
Definition write_body (this : RC4EAPOL) (buf : buffer) (buffer_ total_sz : Z)
  : outcome (RC4EAPOL * buffer) :=
  let sz := wrap 32 (sizeof_rc4hdr + size (_key this)) in
  if negb (total_sz >=? sz) then AssertFail else
  let this :=
    if negb (size (_key this) =? 0) then
      let h := _header this in
      {| eapol := eapol this;
         _header :=
           {| key_length :=
                wrap 16 (Endian.host_to_be host_le sizeof_size_t (size (_key this)));
              replay_counter := replay_counter h; key_iv := key_iv h;
              key_index := key_index h; key_flag := key_flag h;
              key_sign := key_sign h |};
         _key := _key this |}
    else this in
  buf <- write_bytes buf buffer_ (rc4hdr_to_mem (_header this)) ;;
  let buffer_ := buffer_ + sizeof_rc4hdr in
  buf <- write_bytes buf buffer_ (_key this) ;;
  Ok (this, buf).

(** The class as a derived class of [EAPOL]. *)
Definition RC4EAPOL_Variant : EAPOL.Variant RC4EAPOL :=
  {| EAPOL.base := eapol;
     EAPOL.set_base :=
       fun this b => {| eapol := b; _header := _header this; _key := _key this |};
     EAPOL.header_size := header_size;
     EAPOL.write_body := write_body |}.

End Host.

End RC4EAPOL.

Module RSNEAPOL.

(** Modelled from the spec: [struct rsnhdr] of [eapol.h], the fixed body
    of the RSN variant: key information bits, key length, replay counter,
    nonce, initialization vector, receive sequence counter, key id,
    message integrity code and WPA length; packed, 94 bytes. The first two
    bytes hold the key information bits: [key_mic:1], [secure:1],
    [error:1], [request:1], [encrypted:1], [reserved:3] in the first and
    [key_descriptor:3], [key_t:1], [key_index:2], [install:1], [key_ack:1]
    in the second, from the low bit up. *)
Record rsnhdr : Type := {
  key_mic : Z;
  secure : Z;
  error : Z;
  request : Z;
  encrypted : Z;
  reserved : Z;
  key_descriptor : Z;
  key_t : Z;
  key_index : Z;
  install : Z;
  key_ack : Z;
  key_length : Z;
  replay_counter : Z;
  nonce : list byte;
  key_iv : list byte;
  rsc : Z;
  id : Z;
  mic : list byte;
  wpa_length : Z
}.

Definition sizeof_rsnhdr : Z := 94.

Record RSNEAPOL : Type := {
  eapol : EAPOL.EAPOL;
  _header : rsnhdr;
  _key : list byte
}.

Definition zero_header : rsnhdr :=
  {| key_mic := 0; secure := 0; error := 0; request := 0; encrypted := 0;
     reserved := 0; key_descriptor := 0; key_t := 0; key_index := 0;
     install := 0; key_ack := 0; key_length := 0; replay_counter := 0;
     nonce := repeat Byte.x00 32; key_iv := repeat Byte.x00 16; rsc := 0;
     id := 0; mic := repeat Byte.x00 16; wpa_length := 0 |}.

(** [RSNEAPOL::RSNEAPOL()] *)
Definition RSNEAPOL_new : RSNEAPOL :=
  {| eapol := EAPOL.EAPOL_new 3 EAPOL.RSN; _header := zero_header; _key := [] |}.

Definition set_header (this : RSNEAPOL) (h : rsnhdr) : RSNEAPOL :=
  {| eapol := eapol this; _header := h; _key := _key this |}.

Definition set_key_t (h : rsnhdr) (v : Z) : rsnhdr :=
  {| key_mic := key_mic h; secure := secure h; error := error h;
     request := request h; encrypted := encrypted h; reserved := reserved h;
     key_descriptor := key_descriptor h; key_t := v; key_index := key_index h;
     install := install h; key_ack := key_ack h; key_length := key_length h;
     replay_counter := replay_counter h; nonce := nonce h; key_iv := key_iv h;
     rsc := rsc h; id := id h; mic := mic h; wpa_length := wpa_length h |}.

Definition set_key_length_field (h : rsnhdr) (v : Z) : rsnhdr :=
  {| key_mic := key_mic h; secure := secure h; error := error h;
     request := request h; encrypted := encrypted h; reserved := reserved h;
     key_descriptor := key_descriptor h; key_t := key_t h;
     key_index := key_index h; install := install h; key_ack := key_ack h;
     key_length := v;
     replay_counter := replay_counter h; nonce := nonce h; key_iv := key_iv h;
     rsc := rsc h; id := id h; mic := mic h; wpa_length := wpa_length h |}.

Definition set_wpa_length_field (h : rsnhdr) (v : Z) : rsnhdr :=
  {| key_mic := key_mic h; secure := secure h; error := error h;
     request := request h; encrypted := encrypted h; reserved := reserved h;
     key_descriptor := key_descriptor h; key_t := key_t h;
     key_index := key_index h; install := install h; key_ack := key_ack h;
     key_length := key_length h;
     replay_counter := replay_counter h; nonce := nonce h; key_iv := key_iv h;
     rsc := rsc h; id := id h; mic := mic h; wpa_length := v |}.

(** [RSNEAPOL::key(new_key)] *)
Definition key (this : RSNEAPOL) (new_key : list byte) : RSNEAPOL :=
  {| eapol := eapol this; _header := set_key_t (_header this) 0;
     _key := new_key |}.

(** [RSNEAPOL::rsn_information(rsn)], given the bytes [rsn.serialize()]
    returns ([rsn_information.cpp] is not among the sources at hand). *)
Definition rsn_information (this : RSNEAPOL) (rsn_serialize : list byte) : RSNEAPOL :=
  {| eapol := eapol this; _header := set_key_t (_header this) 1;
     _key := rsn_serialize |}.

(** [RSNEAPOL::header_size()] *)
Definition header_size (this : RSNEAPOL) : Z :=
  let padding :=
    if negb (key_t (_header this) =? 0) && negb (size (_key this) =? 0)
    then 2 else 0 in
  wrap 32 (EAPOL.sizeof_eapolhdr + sizeof_rsnhdr + size (_key this) + padding).

Section Host.

Variable host_le : bool.

Definition rsnhdr_to_mem (h : rsnhdr) : list byte :=
  [byte.of_Z (Z.lor (Z.land (key_mic h) 1)
             (Z.lor (Z.shiftl (Z.land (secure h) 1) 1)
             (Z.lor (Z.shiftl (Z.land (error h) 1) 2)
             (Z.lor (Z.shiftl (Z.land (request h) 1) 3)
             (Z.lor (Z.shiftl (Z.land (encrypted h) 1) 4)
                    (Z.shiftl (Z.land (reserved h) 7) 5))))));
   byte.of_Z (Z.lor (Z.land (key_descriptor h) 7)
             (Z.lor (Z.shiftl (Z.land (key_t h) 1) 3)
             (Z.lor (Z.shiftl (Z.land (key_index h) 3) 4)
             (Z.lor (Z.shiftl (Z.land (install h) 1) 6)
                    (Z.shiftl (Z.land (key_ack h) 1) 7)))))]
  ++ Endian.to_mem host_le 2 (key_length h)
  ++ Endian.to_mem host_le 8 (replay_counter h)
  ++ nonce h ++ key_iv h
  ++ Endian.to_mem host_le 8 (rsc h)
  ++ Endian.to_mem host_le 8 (id h)
  ++ mic h
  ++ Endian.to_mem host_le 2 (wpa_length h).

Definition rsnhdr_of_mem (bs : list byte) : rsnhdr :=
  let b0 := byte_at bs 0 in
  let b1 := byte_at bs 1 in
  {| key_mic := Z.land b0 1;
     secure := Z.land (Z.shiftr b0 1) 1;
     error := Z.land (Z.shiftr b0 2) 1;
     request := Z.land (Z.shiftr b0 3) 1;
     encrypted := Z.land (Z.shiftr b0 4) 1;
     reserved := Z.shiftr b0 5;
     key_descriptor := Z.land b1 7;
     key_t := Z.land (Z.shiftr b1 3) 1;
     key_index := Z.land (Z.shiftr b1 4) 3;
     install := Z.land (Z.shiftr b1 6) 1;
     key_ack := Z.shiftr b1 7;
     key_length := Endian.of_mem host_le (slice bs 2 2);
     replay_counter := Endian.of_mem host_le (slice bs 4 8);
     nonce := slice bs 12 32;
     key_iv := slice bs 44 16;
     rsc := Endian.of_mem host_le (slice bs 60 8);
     id := Endian.of_mem host_le (slice bs 68 8);
     mic := slice bs 76 16;
     wpa_length := Endian.of_mem host_le (slice bs 92 2) |}.

(** Modelled from the spec: the getters [key_length()] and [wpa_length()]
    of [eapol.h], the declared lengths in host order. *)
Definition get_key_length (this : RSNEAPOL) : Z :=
  Endian.be_to_host host_le 2 (key_length (_header this)).

Definition get_wpa_length (this : RSNEAPOL) : Z :=
  Endian.be_to_host host_le 2 (wpa_length (_header this)).

(** [RSNEAPOL::wpa_length(uint16_t)] *)
Definition set_wpa_length (this : RSNEAPOL) (new_wpa_length : Z) : RSNEAPOL :=
  set_header this
    (set_wpa_length_field (_header this)
       (Endian.host_to_be host_le 2 (wrap 16 new_wpa_length))).

(** [RSNEAPOL::RSNEAPOL(const uint8_t *buffer, uint32_t total_sz)] *)
Definition RSNEAPOL_of_buffer (buf : buffer) (total_sz : Z) : outcome RSNEAPOL :=
  let base := EAPOL.EAPOL_new 3 EAPOL.RSN in
  let buffer_ := EAPOL.sizeof_eapolhdr in
  let total_sz := wrap 32 (total_sz - EAPOL.sizeof_eapolhdr) in
  if total_sz <? sizeof_rsnhdr then Throw EAPOL.msg else
  hdr <- read_bytes buf buffer_ sizeof_rsnhdr ;;
  let this := {| eapol := base; _header := rsnhdr_of_mem hdr; _key := [] |} in
  let buffer_ := buffer_ + sizeof_rsnhdr in
  let total_sz := wrap 32 (total_sz - sizeof_rsnhdr) in
  if total_sz =? get_wpa_length this then
    k <- read_bytes buf buffer_ total_sz ;;
    Ok {| eapol := eapol this; _header := _header this; _key := k |}
  else Ok this.

(** [RSNEAPOL::write_body(buffer, total_sz)] *)
Definition write_body (this : RSNEAPOL) (buf : buffer) (buffer_ total_sz : Z)
  : outcome (RSNEAPOL * buffer) :=
  let sz := wrap 32 (header_size this - EAPOL.sizeof_eapolhdr) in
  if negb (total_sz >=? sz) then AssertFail else
  let this :=
    if negb (size (_key this) =? 0) then
      if key_t (_header this) =? 0 then
        let this :=
          set_header this
            (set_key_length_field (_header this)
               (Endian.host_to_be host_le 2 32)) in
        set_wpa_length this (size (_key this))
      else if negb (size (_key this) =? 0) then
        let this := set_header this (set_key_length_field (_header this) 0) in
        set_wpa_length this (size (_key this) + 2)
      else set_wpa_length this 0
    else this in
  buf <- write_bytes buf buffer_ (rsnhdr_to_mem (_header this)) ;;
  let buffer_ := buffer_ + sizeof_rsnhdr in
  '(buf, buffer_) <-
     (if negb (key_t (_header this) =? 0) && negb (size (_key this) =? 0) then
        buf <- write_bytes buf buffer_ [byte.of_Z Dot11_RSN] ;;
        buf <- write_bytes buf (buffer_ + 1) [byte.of_Z (size (_key this))] ;;
        Ok (buf, buffer_ + 2)
      else Ok (buf, buffer_)) ;;
  buf <- write_bytes buf buffer_ (_key this) ;;
  Ok (this, buf).

(** The class as a derived class of [EAPOL]. *)
Definition RSNEAPOL_Variant : EAPOL.Variant RSNEAPOL :=
  {| EAPOL.base := eapol;
     EAPOL.set_base :=
       fun this b => {| eapol := b; _header := _header this; _key := _key this |};
     EAPOL.header_size := header_size;
     EAPOL.write_body := write_body |}.

End Host.

End RSNEAPOL.

(** A unit of one of the classes derived from [EAPOL]. *)
Inductive EAPOL_unit : Type :=
| RC4_unit (r : RC4EAPOL.RC4EAPOL)
| RSN_unit (r : RSNEAPOL.RSNEAPOL).

(** [EAPOL::from_bytes(buffer, total_sz)]; a null result is [None]. *)
Definition EAPOL_from_bytes (host_le : bool) (buf : buffer) (total_sz : Z)
  : outcome (option EAPOL_unit) :=
  if total_sz <? EAPOL.sizeof_eapolhdr then Throw EAPOL.msg else
  hdr <- read_bytes buf 0 EAPOL.sizeof_eapolhdr ;;
  let ptr := EAPOL.eapolhdr_of_mem host_le hdr in
  if EAPOL.type ptr =? EAPOL.EAPOLTYPE_value EAPOL.RC4 then
    r <- RC4EAPOL.RC4EAPOL_of_buffer host_le buf total_sz ;;
    Ok (Some (RC4_unit r))
  else if (EAPOL.type ptr =? EAPOL.EAPOLTYPE_value EAPOL.RSN)
          || (EAPOL.type ptr =? EAPOL.EAPOLTYPE_value EAPOL.EAPOL_WPA) then
    r <- RSNEAPOL.RSNEAPOL_of_buffer host_le buf total_sz ;;
    Ok (Some (RSN_unit r))
  else Ok None.

(** * Definitions for the statements *)

(** ** The checksum of the specification *)

(** The big-endian 16-bit words of a byte range, a dangling last byte being
    the high byte of a last word; their sum modulo 2^32, neither folded nor
    complemented. *)
Fixpoint be_words (bs : list byte) : list Z :=
  match bs with
  | [] => []
  | [b] => [Z.shiftl (byte.unsigned b) 8]
  | b0 :: b1 :: rest =>
      Z.lor (Z.shiftl (byte.unsigned b0) 8) (byte.unsigned b1) :: be_words rest
  end.

Definition sum_words (ws : list Z) : Z := fold_right Z.add 0 ws.

Definition spec_checksum (bs : list byte) : Z := wrap 32 (sum_words (be_words bs)).

(** ** Fields as they lie on the wire *)

(** The value of the byte at offset [p] of a buffer. *)
Definition wire_byte (buf : buffer) (p : Z) : Z := byte_at buf (Z.to_nat p).

(** The header length in 32-bit words an IP header declares: the low four
    bits of its first byte. *)
Definition wire_ihl (buf : buffer) : Z := Z.land (byte_at buf 0) 15.

(** The total length an IP header declares: the big-endian value of its
    bytes 2 and 3. *)
Definition wire_tot_len (buf : buffer) : Z := Endian.be_value (slice buf 2 2).

(** The checksum field of a serialized IP header, as the host reads it. *)
Definition wire_check (host_le : bool) (buf : buffer) : Z :=
  Endian.of_mem host_le (slice buf 10 2).

(** The key length a frame of the stream-cipher variant declares: the
    big-endian value of the first two bytes of the body, which follows the
    5 bytes of the envelope. *)
Definition wire_rc4_key_length (buf : buffer) : Z :=
  Endian.be_value (slice buf 5 2).

(** The key length and the WPA length of a frame of the RSN variant: the
    big-endian values at offsets 2 and 92 of the body. *)
Definition wire_rsn_key_length (buf : buffer) : Z := Endian.be_value (slice buf 7 2).
Definition wire_rsn_wpa_length (buf : buffer) : Z := Endian.be_value (slice buf 97 2).

(** The bytes of an option on the wire, and of a list of options. *)
Definition option_bytes (o : IP.IPOption) : list byte :=
  IP.type_to_mem o :: IP.optional_data o.

Definition options_bytes (opts : list IP.IPOption) : list byte :=
  flat_map option_bytes opts.

(** ** The option loop *)



(** ** Invariants of the units *)

(** Every field of a header is within the range of its type. *)
Definition iphdr_wf (h : IP.iphdr) : Prop :=
  0 <= IP.ihl h < 16 /\ 0 <= IP.version h < 16 /\ 0 <= IP.tos h < 256 /\
  0 <= IP.tot_len h < 65536 /\ 0 <= IP.id h < 65536 /\
  0 <= IP.frag_off h < 65536 /\ 0 <= IP.ttl h < 256 /\
  0 <= IP.protocol h < 256 /\ 0 <= IP.check h < 65536 /\
  0 <= IP.saddr h < 4294967296 /\ 0 <= IP.daddr h < 4294967296.

(** The bookkeeping of the options of a unit is consistent: [_options_size]
    counts the bytes of the options, and the padded size is a multiple of
    four that covers them and fits the 4-bit header length. *)
Definition options_wf {PDU : Type} (this : IP.IP PDU) : Prop :=
  size (options_bytes (IP._ip_options this)) = IP._options_size this /\
  IP._options_size this <= IP._padded_options_size this /\
  IP._padded_options_size this mod 4 = 0 /\
  IP._padded_options_size this <= 40.

(** An option that the decoder reads back as it is. Its fields are within
    the widths of the type byte. When its number is one of those followed
    by a length byte, its data block starts with that byte, which holds
    the length of the whole option, type byte included; when not, it has
    no data block and its type byte is not the end-of-list marker. *)
Definition readable_option (o : IP.IPOption) : Prop :=
  0 <= IP.number o < 32 /\ 0 <= IP.op_class o < 4 /\ 0 <= IP.copied o < 2 /\
  if IP.is_multibyte (IP.number o)
  then match IP.optional_data o with
       | [] => False
       | len :: _ => byte.unsigned len = size (IP.optional_data o) + 1
       end
  else IP.optional_data o = [] /\ IP.type_to_mem o <> Byte.x00.

(** A validly constructed header without nested unit, for the round trip:
    fields in range, the flag of an IP unit, consistent option
    bookkeeping, and readable options only. *)
Definition round_trip_header {PDU : Type} (h : IP.IP PDU) : Prop :=
  iphdr_wf (IP._ip h) /\
  IP.flag h = IP.PROTO_IP /\
  IP.inner_pdu h = None /\
  options_wf h /\
  Forall readable_option (IP._ip_options h).

(** The fields of a unit that serialization leaves as they are: all but
    the total length, the header length and the protocol of the header
    (and the flag of the base class, which follows the protocol). *)
Definition unchanged_by_serialization {PDU : Type} (a b : IP.IP PDU) : Prop :=
  IP.version (IP._ip b) = IP.version (IP._ip a) /\
  IP.tos (IP._ip b) = IP.tos (IP._ip a) /\
  IP.id (IP._ip b) = IP.id (IP._ip a) /\
  IP.frag_off (IP._ip b) = IP.frag_off (IP._ip a) /\
  IP.ttl (IP._ip b) = IP.ttl (IP._ip a) /\
  IP.check (IP._ip b) = IP.check (IP._ip a) /\
  IP.saddr (IP._ip b) = IP.saddr (IP._ip a) /\
  IP.daddr (IP._ip b) = IP.daddr (IP._ip a) /\
  IP._ip_options b = IP._ip_options a /\
  IP._options_size b = IP._options_size a /\
  IP._padded_options_size b = IP._padded_options_size a /\
  IP.inner_pdu b = IP.inner_pdu a.

(** The unit with the given value in the checksum field of its header. *)
Definition with_check {PDU : Type} (h : IP.IP PDU) (c : Z) : IP.IP PDU :=
  let ip := IP._ip h in
  IP.set_ip h
    {| IP.ihl := IP.ihl ip; IP.version := IP.version ip; IP.tos := IP.tos ip;
       IP.tot_len := IP.tot_len ip; IP.id := IP.id ip;
       IP.frag_off := IP.frag_off ip; IP.ttl := IP.ttl ip;
       IP.protocol := IP.protocol ip; IP.check := c; IP.saddr := IP.saddr ip;
       IP.daddr := IP.daddr ip |}.

(** The byte arrays of an [rsnhdr] have their declared sizes. *)
Definition rsnhdr_wf (h : RSNEAPOL.rsnhdr) : Prop :=
  length (RSNEAPOL.nonce h) = 32%nat /\
  length (RSNEAPOL.key_iv h) = 16%nat /\
  length (RSNEAPOL.mic h) = 16%nat.

(** [f] holds of every number below [n]. *)
Fixpoint all_below (n : nat) (f : Z -> bool) : bool :=
  match n with
  | O => true
  | S k => f (Z.of_nat k) && all_below k f
  end.

(** ** Collaborators and inputs of the examples *)

Definition bytes_of (l : list Z) : list byte := map byte.of_Z l.

(** The unit a call returns, or a default. *)
Definition value_or {A : Type} (c : outcome A) (d : A) : A :=
  match c with Ok a => a | _ => d end.

(** A stand-in for the decoders of the next layer: the unit is the bytes
    of the payload. *)
Definition payload_unit (buf : buffer) (off n : Z) : outcome (list byte) :=
  read_bytes buf off n.

(** A stand-in for a decoder of the next layer whose header has [m]
    bytes: it throws on a shorter payload. *)
Definition sized_unit (m : Z) (buf : buffer) (off n : Z) : outcome (list byte) :=
  if n <? m then Throw "Not enough size for the header in the buffer."
  else read_bytes buf off n.

(** A stand-in for [PDU::clone_inner_pdu] of a unit without nested unit:
    the payload becomes a raw unit. *)
Definition clone_raw (inner : option (list byte)) (buf : buffer) (off n : Z)
  : outcome (option (list byte)) :=
  r <- read_bytes buf off n ;; Ok (Some r).

(** A 20-byte buffer whose first byte declares a header of 4 words. *)
Definition short_ihl_buffer : buffer :=
  bytes_of [68; 0; 0; 20; 0; 1; 0; 0; 128; 0; 0; 0; 2; 0; 0; 0; 1; 0; 0; 0].


(** A 24-byte capture: a header that declares a total length of 20 bytes
    and the protocol 17, followed by four bytes of padding. *)
Definition padded_capture : buffer :=
  bytes_of [69; 0; 0; 20; 0; 1; 0; 0; 128; 17; 0; 0; 2; 0; 0; 0; 1; 0; 0; 0;
            0; 0; 0; 0].

(** [IP(1, 2)], and the same header after [set_noop_option()], after
    [set_eol_option()] and after [set_sec_option(data, 3)]. *)
Definition plain_header : IP.IP (list byte) := IP.IP_new true 1 2 None.

Definition noop_header : IP.IP (list byte) :=
  value_or (IP.set_noop_option plain_header) plain_header.

Definition eol_header : IP.IP (list byte) :=
  value_or (IP.set_eol_option plain_header) plain_header.

Definition sec_header : IP.IP (list byte) :=
  value_or (IP.set_sec_option plain_header (bytes_of [21; 23; 148]) 3) plain_header.

(** A 28-byte header with a no-operation option and a security option
    whose length byte, 5, counts the whole option, and the unit decoded
    from it. *)
Definition sec_noop_buffer : buffer :=
  bytes_of [71; 0; 0; 28; 0; 1; 0; 0; 128; 0; 0; 0; 2; 0; 0; 0; 1; 0; 0; 0;
            1; 130; 5; 21; 23; 148; 0; 0].

Definition decoded_sec_header : IP.IP (list byte) :=
  value_or (IP.IP_of_buffer true payload_unit payload_unit payload_unit
              payload_unit sec_noop_buffer 28) plain_header.

(** A unit serialized (without parent) into a buffer of exactly its size,
    and the bytes decoded again. *)
Definition round_trip (h : IP.IP (list byte))
  : outcome (IP.IP (list byte) * IP.IP (list byte)) :=
  let sz := IP.header_size h in
  '(h', buf') <- IP.write_serialization true (fun _ : list byte => 255) h
                   (repeat Byte.xff (Z.to_nat sz)) sz false ;;
  d <- IP.IP_of_buffer true payload_unit payload_unit payload_unit payload_unit
         buf' sz ;;
  Ok (h', d).

(** A 99-byte frame whose envelope bytes say version 2, packet type 7. *)
Definition foreign_envelope_frame : buffer :=
  bytes_of [2; 7; 0; 95; 254] ++ repeat Byte.x00 94.

(** A 51-byte frame that declares a key of 3 bytes and carries them. *)
Definition keyed_rc4_frame : buffer :=
  bytes_of [1; 3; 0; 47; 1; 0; 3] ++ repeat Byte.x00 41 ++ bytes_of [10; 11; 12].

(** An RSN unit serialized on a host of the given byte order into a buffer
    of exactly the size of its frame: the first four bytes of the frame,
    the two bytes after the fixed body, and the WPA length on the wire. *)
Definition serialized_envelope (host_le : bool) (this : RSNEAPOL.RSNEAPOL)
  : outcome (list byte) :=
  let sz := RSNEAPOL.header_size this in
  '(_, buf') <- EAPOL.write_serialization host_le
                 (H := RSNEAPOL.RSNEAPOL_Variant host_le)
                 this (repeat Byte.xff (Z.to_nat sz)) sz ;;
  Ok (slice buf' 0 4).

Definition serialized_prefix (this : RSNEAPOL.RSNEAPOL) : outcome (list byte) :=
  let sz := RSNEAPOL.header_size this in
  '(_, buf') <- EAPOL.write_serialization true (H := RSNEAPOL.RSNEAPOL_Variant true)
                 this (repeat Byte.xff (Z.to_nat sz)) sz ;;
  Ok (slice buf' 99 2).

Definition serialized_wpa_length (this : RSNEAPOL.RSNEAPOL) : outcome Z :=
  let sz := RSNEAPOL.header_size this in
  '(_, buf') <- EAPOL.write_serialization true (H := RSNEAPOL.RSNEAPOL_Variant true)
                 this (repeat Byte.xff (Z.to_nat sz)) sz ;;
  Ok (wire_rsn_wpa_length buf').

(** ** Numerals in base 16 *)

(** The digits [Utils::Internals::from_hex] accepts, each at the position
    of its value. *)
Definition upper_hex_digits : list ascii :=
  list_ascii_of_string "0123456789ABCDEF".

Fixpoint position_in (c : ascii) (l : list ascii) : option Z :=
  match l with
  | [] => None
  | x :: rest =>
      if Ascii.eqb c x then Some 0
      else match position_in c rest with
           | Some n => Some (n + 1)
           | None => None
           end
  end.

(** The values of the digits of a numeral, most significant first, when
    every character is a digit. *)
Fixpoint hex_digits (s : list ascii) : option (list Z) :=
  match s with
  | [] => Some []
  | c :: rest =>
      match position_in c upper_hex_digits, hex_digits rest with
      | Some d, Some ds => Some (d :: ds)
      | _, _ => None
      end
  end.

(** The number a list of digits denotes in base 16. *)
Definition hex_value (ds : list Z) : Z := fold_left (fun a d => 16 * a + d) ds 0.

(** The test of the loop of [from_hex] on one character: the value of the
    digit, if it is one. *)
Definition from_hex_digit (c : ascii) : option Z :=
  let c := Z.of_N (N_of_ascii c) in
  if (c >=? 65) && (c <=? 70) then Some (wrap 8 (c - 65 + 10))
  else if (c >=? 48) && (c <=? 57) then Some (wrap 8 (c - 48))
  else None.

(** ** The cyclic redundancy check, bit by bit *)

(** The reversed generator polynomial of CRC-32, one turn of the shift
    register, the register after a byte (its eight bits enter from the
    low end), and the check of a block: the register starts with all ones
    and is complemented at the end. *)
Definition crc_polynomial : Z := 0xEDB88320.

Definition crc_shift (c : Z) : Z :=
  Z.lxor (Z.shiftr c 1) (if Z.odd c then crc_polynomial else 0).

Definition crc_byte (c : Z) (b : byte) : Z :=
  Nat.iter 8 crc_shift (Z.lxor c (byte.unsigned b)).

(** Four turns of the register. *)
Definition crc_shift4 (c : Z) : Z := Nat.iter 4 crc_shift c.

Definition crc32_bitwise (bs : list byte) : Z :=
  Z.lxor (fold_left crc_byte bs 0xFFFFFFFF) 0xFFFFFFFF.

(** The test [IP::search_option] makes on an option. *)
Definition option_matches (cl : IP.OptionClass) (n : IP.Option_) (o : IP.IPOption)
  : bool :=
  (IP.op_class o =? wrap 8 (IP.OptionClass_value cl))
  && (IP.number o =? wrap 8 (IP.Option_value n)).

(** A 24-byte header whose options are a security option of length 4,
    that is with two bytes of data. *)
Definition sec_option_buffer : buffer :=
  bytes_of [70; 0; 0; 24; 0; 1; 0; 0; 128; 0; 0; 0; 2; 0; 0; 0; 1; 0; 0; 0;
            130; 4; 7; 9].

(** The units a caller builds: a constructed header, any setter of a field
    of the fixed header applied to it, options set on it. *)
Inductive built {PDU : Type} (host_le : bool) : IP.IP PDU -> Prop :=
| built_new (ip_dst ip_src : Z) (child : option PDU) :
    built host_le (IP.IP_new host_le ip_dst ip_src child)
| built_set_ip (this : IP.IP PDU) (h : IP.iphdr) :
    built host_le this -> built host_le (IP.set_ip this h)
| built_set_option (this this' : IP.IP PDU) (copied : Z) (cl : IP.OptionClass)
    (n : IP.Option_) (data : buffer) (data_size : Z) :
    built host_le this ->
    IP.set_option this copied cl n data data_size = Ok this' ->
    built host_le this'.

(** The padded size [set_option] computes from the size of the options. *)
Definition padded_size (os : Z) : Z :=
  if Z.land os 3 =? 0 then os else wrap 32 (os - Z.land os 3 + 4).

(** The header a host sees in [bs], with another total length. *)
Definition with_tot_len (h : IP.iphdr) (t : Z) : IP.iphdr :=
  {| IP.ihl := IP.ihl h; IP.version := IP.version h; IP.tos := IP.tos h;
     IP.tot_len := t; IP.id := IP.id h; IP.frag_off := IP.frag_off h;
     IP.ttl := IP.ttl h; IP.protocol := IP.protocol h; IP.check := IP.check h;
     IP.saddr := IP.saddr h; IP.daddr := IP.daddr h |}.

(** A stand-in for [matches_response] of a nested unit. *)
Definition no_nested_match (inner : list byte) (buf : buffer) (off n : Z)
  : outcome bool := Ok false.

(** The discriminant of an EAPOL frame: the byte after the envelope. *)
Definition wire_eapol_type (buf : buffer) : Z := byte_at buf 4.

(** A 99-byte frame of the WPA discriminant. *)
Definition wpa_frame : buffer :=
  bytes_of [1; 3; 0; 95; 254] ++ repeat Byte.x00 94.

(** The byte arrays of an [rc4hdr] have their declared sizes. *)
Definition rc4hdr_wf (h : RC4EAPOL.rc4hdr) : Prop :=
  length (RC4EAPOL.key_iv h) = 16%nat /\ length (RC4EAPOL.key_sign h) = 16%nat.

(** The length [EAPOL::write_serialization] leaves in the envelope of a
    unit whose frame has [sz] bytes. *)
Definition serialized_length (h : EAPOL.eapolhdr) (sz : Z) : Z :=
  if EAPOL.length h =? 0 then wrap 16 (sz - 4) else EAPOL.length h.

(** The protocol [IP::write_serialization] takes from the flag of the
    nested unit. *)
Definition protocol_of_flag (f : Z) : Z :=
  if f =? IP.IPPROTO_IP then IP.IPPROTO_IPIP else f.

(** * Properties *)

(** ** Outcomes *)

Lemma bind_Ok {A B : Type} (c : outcome A) (k : A -> outcome B) (b : B) :
  bind c k = Ok b -> exists a, c = Ok a /\ k a = Ok b.
Proof. destruct c; simpl; intros H; try discriminate. eauto. Qed.

(** ** Buffers *)

Lemma size_nonneg (buf : buffer) : 0 <= size buf.
Proof. unfold size. lia. Qed.

Lemma size_app (a b : buffer) : size (a ++ b) = size a + size b.
Proof. unfold size. rewrite length_app. lia. Qed.

Lemma in_range_true (buf : buffer) (off n : Z) :
  0 <= off -> 0 <= n -> off + n <= size buf -> in_range buf off n = true.
Proof.
  intros. unfold in_range.
  rewrite !andb_true_iff, !Z.leb_le. auto.
Qed.

Lemma in_range_inv (buf : buffer) (off n : Z) :
  in_range buf off n = true -> 0 <= off /\ 0 <= n /\ off + n <= size buf.
Proof.
  unfold in_range. rewrite !andb_true_iff, !Z.leb_le. tauto.
Qed.

Lemma slice_length (buf : buffer) (off n : Z) :
  0 <= off -> 0 <= n -> off + n <= size buf -> size (slice buf off n) = n.
Proof.
  intros. unfold slice, size in *.
  rewrite length_firstn, length_skipn. lia.
Qed.

Lemma slice_nil (buf : buffer) (off : Z) : slice buf off 0 = [].
Proof. reflexivity. Qed.

Lemma slice_cons (buf : buffer) (off n : Z) :
  0 <= off -> 0 < n -> off < size buf ->
  slice buf off n = nth (Z.to_nat off) buf Byte.x00 :: slice buf (off + 1) (n - 1).
Proof.
  intros Hoff Hn Hlt. unfold slice, size in *.
  replace (Z.to_nat n) with (S (Z.to_nat (n - 1))) by lia.
  replace (Z.to_nat (off + 1)) with (S (Z.to_nat off)) by lia.
  assert (Hk : (Z.to_nat off < length buf)%nat) by lia.
  revert Hk. generalize (Z.to_nat off). clear.
  induction buf as [|b buf IH]; intros k Hk; simpl in Hk; [lia|].
  destruct k as [|k]; [reflexivity|].
  simpl skipn at 1. rewrite IH by lia. reflexivity.
Qed.

Lemma slice_app (buf : buffer) (off n m : Z) :
  0 <= off -> 0 <= n -> 0 <= m ->
  slice buf off (n + m) = slice buf off n ++ slice buf (off + n) m.
Proof.
  intros. unfold slice.
  replace (Z.to_nat (n + m)) with (Z.to_nat n + Z.to_nat m)%nat by lia.
  replace (Z.to_nat (off + n)) with (Z.to_nat n + Z.to_nat off)%nat by lia.
  rewrite <- skipn_skipn.
  generalize (skipn (Z.to_nat off) buf) as l.
  generalize (Z.to_nat m) as b. generalize (Z.to_nat n) as a.
  intros a b. induction a as [|a IH]; intros l; [reflexivity|].
  destruct l as [|x l]; simpl.
  - destruct b; reflexivity.
  - f_equal. apply IH.
Qed.

Lemma slice_all (buf : buffer) : slice buf 0 (size buf) = buf.
Proof.
  unfold slice, size. rewrite Nat2Z.id. simpl. apply firstn_all.
Qed.

Lemma slice_app_l (a b : buffer) (n : Z) :
  n = size a -> slice (a ++ b) 0 n = a.
Proof.
  intros ->. unfold slice, size. rewrite Nat2Z.id. simpl.
  rewrite firstn_app, Nat.sub_diag, firstn_all. simpl. apply app_nil_r.
Qed.

Lemma slice_app_r (a b : buffer) (off n : Z) :
  0 <= off -> slice (a ++ b) (size a + off) n = slice b off n.
Proof.
  intros. unfold slice, size.
  rewrite Z2Nat.inj_add, Nat2Z.id by lia.
  rewrite Nat.add_comm, <- skipn_skipn, skipn_app, skipn_all, Nat.sub_diag.
  reflexivity.
Qed.

Lemma read8_ok (buf : buffer) (off : Z) :
  0 <= off < size buf ->
  read8 buf off = Ok (byte.unsigned (nth (Z.to_nat off) buf Byte.x00)).
Proof.
  intros. unfold read8. rewrite in_range_true by lia. reflexivity.
Qed.

Lemma read_bytes_ok (buf : buffer) (off n : Z) :
  0 <= off -> 0 <= n -> off + n <= size buf ->
  read_bytes buf off n = Ok (slice buf off n).
Proof.
  intros. unfold read_bytes. rewrite in_range_true by lia. reflexivity.
Qed.

Lemma write_bytes_ok (buf : buffer) (off : Z) (data : list byte) :
  0 <= off -> off + size data <= size buf ->
  write_bytes buf off data = Ok (splice buf off data).
Proof.
  intros. unfold write_bytes.
  rewrite in_range_true by (pose proof (size_nonneg data); lia). reflexivity.
Qed.

Lemma memset0_ok (buf : buffer) (off n : Z) :
  0 <= off -> 0 <= n -> off + n <= size buf ->
  memset0 buf off n = Ok (splice buf off (repeat Byte.x00 (Z.to_nat n))).
Proof.
  intros. unfold memset0. rewrite in_range_true by lia. reflexivity.
Qed.

Lemma size_repeat (b : byte) (n : Z) : 0 <= n -> size (repeat b (Z.to_nat n)) = n.
Proof. intros. unfold size. rewrite repeat_length. lia. Qed.

(** Buffers byte by byte. *)

Lemma nth_slice (buf : buffer) (off n : Z) (i : nat) :
  0 <= off -> (i < Z.to_nat n)%nat ->
  nth i (slice buf off n) Byte.x00 = nth (Z.to_nat off + i) buf Byte.x00.
Proof.
  intros Hoff Hi. unfold slice. rewrite nth_firstn.
  apply Nat.ltb_lt in Hi. rewrite Hi. apply nth_skipn.
Qed.

Lemma length_slice (buf : buffer) (off n : Z) :
  0 <= off -> 0 <= n -> off + n <= size buf ->
  length (slice buf off n) = Z.to_nat n.
Proof.
  intros. pose proof (slice_length buf off n) as Hl. unfold size in *. lia.
Qed.

Lemma length_splice (buf : buffer) (off : Z) (data : list byte) :
  0 <= off -> off + size data <= size buf ->
  length (splice buf off data) = length buf.
Proof.
  unfold splice, size. intros.
  rewrite !length_app, length_firstn, length_skipn. lia.
Qed.

Lemma size_splice (buf : buffer) (off : Z) (data : list byte) :
  0 <= off -> off + size data <= size buf ->
  size (splice buf off data) = size buf.
Proof. intros. unfold size. rewrite length_splice by assumption. reflexivity. Qed.

Lemma nth_splice (buf : buffer) (off : Z) (data : list byte) (i : nat) :
  0 <= off -> off + size data <= size buf ->
  nth i (splice buf off data) Byte.x00 =
    if (i <? Z.to_nat off)%nat then nth i buf Byte.x00
    else if (i <? Z.to_nat off + length data)%nat
         then nth (i - Z.to_nat off) data Byte.x00
         else nth i buf Byte.x00.
Proof.
  unfold splice, size. intros Hoff Hfit.
  assert (Hlen : length (firstn (Z.to_nat off) buf) = Z.to_nat off)
    by (rewrite length_firstn; lia).
  destruct (i <? Z.to_nat off)%nat eqn:H1.
  - apply Nat.ltb_lt in H1.
    rewrite app_nth1 by lia. rewrite nth_firstn.
    apply Nat.ltb_lt in H1. rewrite H1. reflexivity.
  - apply Nat.ltb_ge in H1.
    rewrite app_nth2 by lia. rewrite Hlen.
    destruct (i <? Z.to_nat off + length data)%nat eqn:H2.
    + apply Nat.ltb_lt in H2. rewrite app_nth1 by lia. reflexivity.
    + apply Nat.ltb_ge in H2. rewrite app_nth2 by lia.
      rewrite nth_skipn. f_equal. lia.
Qed.

Lemma slice_splice_same (buf : buffer) (off : Z) (data : list byte) :
  0 <= off -> off + size data <= size buf ->
  slice (splice buf off data) off (size data) = data.
Proof.
  intros Hoff Hfit. pose proof (size_nonneg data) as Hd.
  apply nth_ext with (d := Byte.x00) (d' := Byte.x00).
  - rewrite length_slice; rewrite ?size_splice; unfold size in *; lia.
  - intros i Hi.
    rewrite length_slice in Hi by (rewrite ?size_splice; lia).
    rewrite nth_slice by lia. rewrite nth_splice by lia.
    unfold size in *.
    destruct (Nat.ltb_spec (Z.to_nat off + i) (Z.to_nat off)); [lia|].
    destruct (Nat.ltb_spec (Z.to_nat off + i) (Z.to_nat off + length data)); [|lia].
    f_equal. lia.
Qed.

Lemma slice_splice_other (buf : buffer) (off : Z) (data : list byte) (off' n : Z) :
  0 <= off -> off + size data <= size buf ->
  0 <= off' -> 0 <= n -> off' + n <= size buf ->
  off' + n <= off \/ off + size data <= off' ->
  slice (splice buf off data) off' n = slice buf off' n.
Proof.
  intros Hoff Hfit Hoff' Hn Hfit' Hdisj. pose proof (size_nonneg data) as Hd.
  apply nth_ext with (d := Byte.x00) (d' := Byte.x00).
  - rewrite !length_slice; rewrite ?size_splice; lia.
  - intros i Hi.
    rewrite length_slice in Hi by (rewrite ?size_splice; lia).
    rewrite !nth_slice by lia. rewrite nth_splice by lia.
    unfold size in *.
    destruct (Nat.ltb_spec (Z.to_nat off' + i) (Z.to_nat off)); [reflexivity|].
    destruct (Nat.ltb_spec (Z.to_nat off' + i) (Z.to_nat off + length data));
      [lia | reflexivity].
Qed.

Lemma slice_slice (buf : buffer) (off m i n : Z) :
  0 <= off -> 0 <= i -> 0 <= n -> i + n <= m -> off + m <= size buf ->
  slice (slice buf off m) i n = slice buf (off + i) n.
Proof.
  intros Hoff Hi Hn Hfit Hm.
  apply nth_ext with (d := Byte.x00) (d' := Byte.x00).
  - rewrite !length_slice; rewrite ?slice_length; lia.
  - intros j Hj.
    rewrite length_slice in Hj by (rewrite ?slice_length; lia).
    rewrite !nth_slice by lia. f_equal. lia.
Qed.

Lemma slice_full (l : list byte) (n : Z) : n = size l -> slice l 0 n = l.
Proof. intros ->. apply slice_all. Qed.

Lemma splice_splice_adjacent (buf : buffer) (p : Z) (a b : list byte) :
  0 <= p -> p + size a + size b <= size buf ->
  splice (splice buf p a) (p + size a) b = splice buf p (a ++ b).
Proof.
  intros Hp Hfit.
  pose proof (size_nonneg a) as Ha. pose proof (size_nonneg b) as Hb.
  assert (Hab : size (a ++ b) = size a + size b) by apply size_app.
  assert (Hs1 : size (splice buf p a) = size buf) by (apply size_splice; lia).
  apply nth_ext with (d := Byte.x00) (d' := Byte.x00).
  - rewrite !length_splice; rewrite ?Hs1; lia.
  - intros i _.
    rewrite (nth_splice (splice buf p a)) by lia.
    rewrite (nth_splice buf p a) by lia.
    rewrite (nth_splice buf p (a ++ b)) by lia.
    rewrite length_app. unfold size in *.
    destruct (Nat.ltb_spec i (Z.to_nat (p + Z.of_nat (length a))));
      destruct (Nat.ltb_spec i (Z.to_nat p));
      destruct (Nat.ltb_spec i (Z.to_nat p + length a));
      destruct (Nat.ltb_spec i (Z.to_nat (p + Z.of_nat (length a)) + length b));
      destruct (Nat.ltb_spec i (Z.to_nat p + (length a + length b)));
      try lia; try reflexivity.
    + rewrite app_nth1 by lia. reflexivity.
    + rewrite app_nth2 by lia. f_equal. lia.
Qed.

Lemma splice_whole (buf : buffer) (data : list byte) :
  size data = size buf -> splice buf 0 data = data.
Proof.
  intros Hsz. unfold splice, size in *. simpl.
  rewrite skipn_all2 by lia. apply app_nil_r.
Qed.

Lemma splice_app_mid (pre old post new : list byte) :
  size old = size new ->
  splice (pre ++ old ++ post) (size pre) new = pre ++ new ++ post.
Proof.
  intros Hsz. unfold splice, size in *. rewrite Nat2Z.id.
  rewrite firstn_app, Nat.sub_diag, firstn_all. simpl. rewrite app_nil_r.
  f_equal. f_equal.
  rewrite skipn_app, skipn_all2 by lia. simpl.
  replace (length pre + length new - length pre)%nat with (length old) by lia.
  rewrite skipn_app, skipn_all, Nat.sub_diag. reflexivity.
Qed.

(** ** Byte order *)

Lemma to_mem_length (le : bool) (n : nat) (v : Z) :
  length (Endian.to_mem le n v) = n.
Proof.
  unfold Endian.to_mem, Endian.be_bytes.
  destruct le; rewrite ?length_rev; apply length_le_split.
Qed.

Lemma be_value_be_bytes (n : nat) (v : Z) :
  Endian.be_value (Endian.be_bytes n v) = v mod 2 ^ (Z.of_nat n * 8).
Proof.
  unfold Endian.be_value, Endian.be_bytes.
  rewrite rev_involutive. apply le_combine_split.
Qed.

Lemma be_bytes_be_value (bs : list byte) :
  Endian.be_bytes (length bs) (Endian.be_value bs) = bs.
Proof.
  unfold Endian.be_value, Endian.be_bytes.
  rewrite <- (length_rev bs), split_le_combine. apply rev_involutive.
Qed.

Lemma of_mem_to_mem (le : bool) (n : nat) (v : Z) :
  Endian.of_mem le (Endian.to_mem le n v) = v mod 2 ^ (Z.of_nat n * 8).
Proof.
  unfold Endian.of_mem, Endian.to_mem. destruct le.
  - apply le_combine_split.
  - apply be_value_be_bytes.
Qed.

Lemma to_mem_of_mem (le : bool) (bs : list byte) :
  Endian.to_mem le (length bs) (Endian.of_mem le bs) = bs.
Proof.
  unfold Endian.of_mem, Endian.to_mem. destruct le.
  - apply split_le_combine.
  - apply be_bytes_be_value.
Qed.

(** A field set through [host_to_be] lies in memory in big-endian order,
    whatever the host. *)
Lemma to_mem_host_to_be (le : bool) (n : nat) (v : Z) :
  Endian.to_mem le n (Endian.host_to_be le n v) = Endian.be_bytes n v.
Proof.
  unfold Endian.to_mem, Endian.host_to_be, Endian.change_endian, Endian.be_bytes.
  destruct le.
  - apply split_le_combine'. rewrite length_rev. apply length_le_split.
  - unfold wrap. rewrite <- le_split_mod. reflexivity.
Qed.

(** A field read through [be_to_host] is the big-endian value of its bytes
    in memory, whatever the host. *)
Lemma be_to_host_of_mem (le : bool) (bs : list byte) :
  Endian.be_to_host le (length bs) (Endian.of_mem le bs) = Endian.be_value bs.
Proof.
  unfold Endian.be_to_host, Endian.host_to_be, Endian.of_mem,
    Endian.change_endian, Endian.be_value.
  destruct le.
  - rewrite split_le_combine. reflexivity.
  - unfold wrap. apply Z.mod_small.
    pose proof (le_combine_bound (rev bs)) as Hb.
    rewrite length_rev in Hb.
    replace (Z.of_nat (length bs) * 8) with (8 * Z.of_nat (length bs)) by lia.
    exact Hb.
Qed.

Lemma host_to_be_range (le : bool) (n : nat) (v : Z) :
  0 <= Endian.host_to_be le n v < 2 ^ (Z.of_nat n * 8).
Proof.
  unfold Endian.host_to_be, Endian.change_endian, wrap. destruct le.
  - pose proof (le_combine_bound (rev (le_split n v))) as Hb.
    rewrite length_rev, length_le_split in Hb.
    replace (Z.of_nat n * 8) with (8 * Z.of_nat n) by lia. exact Hb.
  - apply Z.mod_pos_bound. apply Z.pow_pos_nonneg; lia.
Qed.

Lemma host_to_be_involutive (le : bool) (n : nat) (v : Z) :
  0 <= v < 2 ^ (Z.of_nat n * 8) ->
  Endian.host_to_be le n (Endian.host_to_be le n v) = v.
Proof.
  intros Hv.
  unfold Endian.host_to_be, Endian.change_endian, wrap. destruct le.
  - rewrite split_le_combine' by (rewrite length_rev; apply length_le_split).
    rewrite rev_involutive, le_combine_split. apply Z.mod_small. exact Hv.
  - rewrite Z.mod_mod by (apply Z.pow_nonzero; lia).
    apply Z.mod_small. exact Hv.
Qed.

Lemma be_value_2 (b0 b1 : byte) :
  Endian.be_value [b0; b1] = Z.lor (Z.shiftl (byte.unsigned b0) 8) (byte.unsigned b1).
Proof.
  unfold Endian.be_value. cbn [rev app].
  change (le_combine [b1; b0])
    with (Z.lor (byte.unsigned b1)
            (Z.shiftl (Z.lor (byte.unsigned b0) (Z.shiftl 0 8)) 8)).
  rewrite Z.shiftl_0_l, Z.lor_0_r. apply Z.lor_comm.
Qed.

(** ** The checksum primitive *)

Lemma wrap_range (bits v : Z) : 0 <= bits -> 0 <= wrap bits v < 2 ^ bits.
Proof. intros. unfold wrap. apply Z.mod_pos_bound. apply Z.pow_pos_nonneg; lia. Qed.

Lemma wrap_small (bits v : Z) : 0 <= v < 2 ^ bits -> wrap bits v = v.
Proof. intros. unfold wrap. apply Z.mod_small. assumption. Qed.

Lemma wrap_add_l (bits a b : Z) : wrap bits (wrap bits a + b) = wrap bits (a + b).
Proof. unfold wrap. apply Zplus_mod_idemp_l. Qed.

Lemma slice_two (buf : buffer) (off : Z) :
  0 <= off -> off + 2 <= size buf ->
  slice buf off 2 =
    [nth (Z.to_nat off) buf Byte.x00; nth (Z.to_nat (off + 1)) buf Byte.x00].
Proof.
  intros. rewrite slice_cons by lia.
  replace (2 - 1) with 1 by lia.
  rewrite slice_cons by lia. reflexivity.
Qed.

Lemma read16_ok (le : bool) (buf : buffer) (off : Z) :
  0 <= off -> off + 2 <= size buf ->
  Utils.read16 le buf off = Ok (Endian.of_mem le (slice buf off 2)).
Proof.
  intros. unfold Utils.read16. rewrite read_bytes_ok by lia. reflexivity.
Qed.

Lemma do_checksum_loop_spec (le : bool) (buf : buffer) :
  forall (k fuel : nat) (ptr last acc : Z),
    0 <= ptr -> ptr + 2 * Z.of_nat k <= size buf ->
    2 * Z.of_nat k - 1 <= last - ptr <= 2 * Z.of_nat k ->
    (k <= fuel)%nat ->
    0 <= acc < 2 ^ 32 ->
    Utils.do_checksum_loop le fuel buf ptr last acc
    = Ok (wrap 32 (acc + sum_words (be_words (slice buf ptr (2 * Z.of_nat k))))).
Proof.
  induction k as [|k IH]; intros fuel ptr last acc Hptr Hsz Hlast Hfuel Hacc.
  - assert (Hlt : (ptr <? last) = false) by (apply Z.ltb_ge; lia).
    destruct fuel; simpl; rewrite Hlt; simpl; rewrite Z.add_0_r;
      rewrite wrap_small by assumption; reflexivity.
  - destruct fuel as [|fuel]; [lia|].
    assert (Hlt : (ptr <? last) = true) by (apply Z.ltb_lt; lia).
    simpl Utils.do_checksum_loop. rewrite Hlt.
    rewrite read16_ok by lia. cbn [bind].
    rewrite IH; try lia; [| apply wrap_range; lia].
    f_equal.
    replace (2 * Z.of_nat (S k)) with (2 + 2 * Z.of_nat k) by lia.
    rewrite slice_app by lia.
    rewrite slice_two by lia. cbn [app be_words sum_words fold_right].
    rewrite <- be_value_2.
    change 2%nat with (length [nth (Z.to_nat ptr) buf Byte.x00;
                               nth (Z.to_nat (ptr + 1)) buf Byte.x00]) at 1.
    change (Endian.host_to_be le) with (Endian.be_to_host le).
    rewrite be_to_host_of_mem.
    rewrite wrap_add_l. f_equal. unfold sum_words. lia.
Qed.

Lemma be_words_app_even (a b : list byte) :
  Nat.Even (length a) -> be_words (a ++ b) = be_words a ++ be_words b.
Proof.
  intros [k Hk]. revert a Hk.
  induction k as [|k IH]; intros a Hk.
  - destruct a; [reflexivity | simpl in Hk; lia].
  - destruct a as [|x [|y a]]; simpl in Hk; try lia.
    cbn [app be_words]. f_equal. apply IH. lia.
Qed.

Lemma sum_words_app (a b : list Z) : sum_words (a ++ b) = sum_words a + sum_words b.
Proof.
  unfold sum_words. induction a as [|x a IH]; simpl; [reflexivity | lia].
Qed.

(** C7. For every half-open byte range [start, end) of a buffer,
    [do_checksum] returns the 32-bit accumulator of the big-endian 16-bit
    words of the range, an odd-length range contributing its last byte as
    the high byte of a last word ([be_words]); the sum is neither folded
    nor complemented ([spec_checksum] is the plain sum modulo 2^32). The
    result does not depend on the byte order of the host. *)
Theorem do_checksum_is_be_word_sum :
  forall (host_le : bool) (buf : buffer) (start end_ : Z),
    0 <= start -> start <= end_ -> end_ <= size buf ->
    Utils.do_checksum host_le buf start end_
    = Ok (spec_checksum (slice buf start (end_ - start))).
Proof.
  intros le buf start end_ Hs Hse He.
  unfold Utils.do_checksum, spec_checksum.
  replace (Z.land (end_ - start) 1) with ((end_ - start) mod 2)
    by (symmetry; apply (Z.land_ones (end_ - start) 1); lia).
  pose proof (Z.mod_pos_bound (end_ - start) 2 ltac:(lia)) as Hm.
  pose proof (Z.div_mod (end_ - start) 2 ltac:(lia)) as Hd.
  set (k := Z.to_nat ((end_ - start) / 2)).
  assert (Hk : Z.of_nat k = (end_ - start) / 2)
    by (unfold k; rewrite Z2Nat.id; [reflexivity | apply Z.div_pos; lia]).
  clearbody k.
  destruct ((end_ - start) mod 2 =? 1) eqn:Hodd.
  - apply Z.eqb_eq in Hodd.
    rewrite read8_ok by lia. cbn [bind].
    rewrite (do_checksum_loop_spec le buf k) by lia.
    cbn [bind]. f_equal.
    assert (Hsl : slice buf start (end_ - start)
                  = slice buf start (2 * Z.of_nat k)
                    ++ slice buf (start + 2 * Z.of_nat k) 1)
      by (rewrite <- slice_app by lia; f_equal; lia).
    rewrite Hsl.
    rewrite be_words_app_even, sum_words_app.
    + rewrite (slice_cons buf (start + 2 * Z.of_nat k) 1) by lia.
      replace (1 - 1) with 0 by lia. rewrite slice_nil.
      replace (start + 2 * Z.of_nat k) with (end_ - 1) by lia.
      cbn [be_words sum_words fold_right].
      rewrite wrap_add_l.
      rewrite (wrap_small 16).
      * f_equal. simpl. lia.
      * pose proof (byte.unsigned_range (nth (Z.to_nat (end_ - 1)) buf Byte.x00)).
        rewrite Z.shiftl_mul_pow2 by lia. lia.
    + exists k.
      assert (Hl := slice_length buf start (2 * Z.of_nat k) ltac:(lia) ltac:(lia) ltac:(lia)).
      unfold size in Hl. lia.
  - apply Z.eqb_neq in Hodd. cbn [bind].
    rewrite (do_checksum_loop_spec le buf k) by lia.
    cbn [bind]. rewrite Z.add_0_r.
    rewrite wrap_small by (apply wrap_range; lia).
    replace (end_ - start) with (2 * Z.of_nat k) by lia.
    reflexivity.
Qed.


(** The sum is not folded: four bytes [ff] give [0x1fffe]. *)
Example do_checksum_unfolded :
  Utils.do_checksum true [Byte.xff; Byte.xff; Byte.xff; Byte.xff] 0 4 = Ok 131070.
Proof. reflexivity. Qed.

Lemma do_checksum_is_be_word_sum_witness :
  Utils.do_checksum true [Byte.x01; Byte.x02; Byte.x03] 0 3
  = Ok (spec_checksum (slice [Byte.x01; Byte.x02; Byte.x03] 0 (3 - 0))).
Proof.
  apply (do_checksum_is_be_word_sum true [Byte.x01; Byte.x02; Byte.x03] 0 3);
    unfold size; simpl; lia.
Defined.

(** ** Decoding the fixed IP header *)

Lemma byte_at_slice (buf : buffer) (n : Z) (i : nat) :
  Z.of_nat i < n -> byte_at (slice buf 0 n) i = byte_at buf i.
Proof.
  intros Hi. unfold byte_at, slice. simpl skipn.
  f_equal.
  assert (Hlt : (i < Z.to_nat n)%nat) by lia.
  revert Hlt. generalize (Z.to_nat n). clear Hi n. revert i.
  induction buf as [|b buf IH]; intros i n Hlt.
  - rewrite firstn_nil. reflexivity.
  - destruct n as [|n]; [lia|]. destruct i as [|i]; [reflexivity|].
    simpl. apply IH. lia.
Qed.

Lemma ihl_of_mem (le : bool) (buf : buffer) :
  IP.ihl (IP.iphdr_of_mem le (slice buf 0 20)) = wire_ihl buf.
Proof.
  unfold IP.iphdr_of_mem, wire_ihl. cbn [IP.ihl].
  rewrite byte_at_slice by lia. reflexivity.
Qed.

Lemma wire_ihl_range (buf : buffer) : 0 <= wire_ihl buf <= 15.
Proof.
  unfold wire_ihl.
  change (Z.land (byte_at buf 0) 15) with (Z.land (byte_at buf 0) (Z.ones 4)).
  rewrite Z.land_ones by lia.
  pose proof (Z.mod_pos_bound (byte_at buf 0) (2 ^ 4) eq_refl).
  change (2 ^ 4) with 16 in *. lia.
Qed.

(** What [read_header] does, case by case. *)
Lemma read_header_cases (le : bool) (buf : buffer) (total_sz : Z) :
  total_sz <= size buf ->
  IP.read_header le buf total_sz =
    if total_sz <? 20 then Throw IP.msg
    else if total_sz <? wire_ihl buf * 4 then Throw IP.msg
    else if wire_ihl buf * 4 <? 20 then Throw "Malformed head len field"
    else Ok (IP.iphdr_of_mem le (slice buf 0 20)).
Proof.
  intros Hsz. unfold IP.read_header.
  change IP.sizeof_iphdr with 20. change IP.sizeof_uint32_t with 4.
  destruct (total_sz <? 20) eqn:H20; [reflexivity|].
  apply Z.ltb_ge in H20.
  rewrite read_bytes_ok by lia. cbn [bind].
  rewrite (ihl_of_mem le buf). reflexivity.
Qed.

(** C5. The decoding constructor throws when the buffer is shorter than
    the 20 bytes of the fixed header, when the header length in words times
    four exceeds the size of the buffer, and when it is less than 20; no unit
    is returned then. In every other case the checks on the fixed header
    pass and the header read is the one in the first 20 bytes. *)
Theorem IP_decode_fixed_header_checks :
  forall (host_le : bool) (PDU : Type)
         (TCP UDP ICMP RawPDU : buffer -> Z -> Z -> outcome PDU)
         (buf : buffer) (total_sz : Z),
    total_sz <= size buf ->
    (total_sz < 20 ->
       IP.IP_of_buffer host_le TCP UDP ICMP RawPDU buf total_sz = Throw IP.msg) /\
    (20 <= total_sz -> total_sz < wire_ihl buf * 4 ->
       IP.IP_of_buffer host_le TCP UDP ICMP RawPDU buf total_sz = Throw IP.msg) /\
    (20 <= total_sz -> wire_ihl buf * 4 < 20 ->
       IP.IP_of_buffer host_le TCP UDP ICMP RawPDU buf total_sz
       = Throw "Malformed head len field") /\
    (20 <= total_sz -> 20 <= wire_ihl buf * 4 <= total_sz ->
       IP.read_header host_le buf total_sz
       = Ok (IP.iphdr_of_mem host_le (slice buf 0 20))).
Proof.
  intros le PDU TCP UDP ICMP RawPDU buf total_sz Hsz.
  unfold IP.IP_of_buffer, IP.IP_header_of_buffer.
  rewrite (read_header_cases le buf total_sz Hsz).
  repeat split.
  - intros H. apply Z.ltb_lt in H. rewrite H. reflexivity.
  - intros H1 H2. apply Z.ltb_ge in H1. apply Z.ltb_lt in H2.
    rewrite H1, H2. reflexivity.
  - intros H1 H2.
    assert (H3 : (total_sz <? wire_ihl buf * 4) = false) by (apply Z.ltb_ge; lia).
    apply Z.ltb_ge in H1. apply Z.ltb_lt in H2.
    rewrite H1, H3, H2. reflexivity.
  - intros H1 [H2 H3].
    apply Z.ltb_ge in H1. apply Z.ltb_ge in H2. apply Z.ltb_ge in H3.
    rewrite H1, H3, H2. reflexivity.
Qed.

Lemma IP_decode_fixed_header_checks_witness :
  IP.IP_of_buffer true payload_unit payload_unit payload_unit payload_unit
    short_ihl_buffer 20 = Throw "Malformed head len field".
Proof.
  refine (proj1 (proj2 (proj2
            (IP_decode_fixed_header_checks true (list byte) payload_unit
               payload_unit payload_unit payload_unit short_ihl_buffer 20 _)))
            _ _).
  - vm_compute. discriminate.
  - lia.
  - vm_compute. reflexivity.
Defined.

(** ** Decoding the IP options *)

Lemma wire_byte_range (buf : buffer) (p : Z) : 0 <= wire_byte buf p < 256.
Proof. unfold wire_byte, byte_at. apply byte.unsigned_range. Qed.

Lemma read8_wire (buf : buffer) (p : Z) :
  0 <= p < size buf -> read8 buf p = Ok (wire_byte buf p).
Proof. intros. rewrite read8_ok by lia. reflexivity. Qed.

(** What the [case] of the multi-byte options does, case by case. *)
Lemma read_option_data_cases (buf : buffer) (p boundary : Z) :
  0 <= p -> p <= boundary -> boundary <= size buf ->
  IP.read_option_data buf p boundary =
    if p =? boundary then Throw IP.msg
    else if wire_byte buf p =? 0 then Throw IP.msg
    else if boundary - p <? wire_byte buf p - 1 then Throw IP.msg
    else Ok (slice buf p (wire_byte buf p - 1), p + (wire_byte buf p - 1)).
Proof.
  intros Hp Hpb Hb. unfold IP.read_option_data.
  destruct (p =? boundary) eqn:Heq; [reflexivity|].
  apply Z.eqb_neq in Heq.
  rewrite read8_wire by lia. cbn [bind].
  pose proof (wire_byte_range buf p) as Hr.
  destruct (wire_byte buf p =? 0) eqn:Hz; [reflexivity|].
  apply Z.eqb_neq in Hz.
  rewrite (wrap_small 8) by (change (2 ^ 8) with 256; lia).
  destruct (wire_byte buf p - 1 >? 0) eqn:Hd.
  - destruct (boundary - p <? wire_byte buf p - 1) eqn:Hlt; [reflexivity|].
    apply Z.ltb_ge in Hlt.
    rewrite read_bytes_ok by lia. cbn [bind].
    rewrite slice_length by lia. reflexivity.
  - assert (Hone : wire_byte buf p - 1 = 0) by lia.
    rewrite Hone.
    assert (Hlt : (boundary - p <? 0) = false) by (apply Z.ltb_ge; lia).
    rewrite Hlt. cbn [bind]. rewrite slice_nil. reflexivity.
Qed.







(** ** Decoding the EAPOL variants *)

(** C9. Whatever the buffer, a unit the decoding constructor of [RSNEAPOL]
    returns has the envelope [EAPOL(0x03, RSN)] installs: version 1,
    packet type 3, the RSN discriminant and length 0; the first bytes of
    the buffer play no part. The constructor does return a unit for every
    buffer of at least 99 bytes. *)
Theorem RSN_decode_installs_fixed_envelope :
  forall (host_le : bool) (buf : buffer) (total_sz : Z),
    (forall r : RSNEAPOL.RSNEAPOL,
        RSNEAPOL.RSNEAPOL_of_buffer host_le buf total_sz = Ok r ->
        EAPOL.version (EAPOL._header (RSNEAPOL.eapol r)) = 1 /\
        EAPOL.packet_type (EAPOL._header (RSNEAPOL.eapol r)) = 3 /\
        EAPOL.type (EAPOL._header (RSNEAPOL.eapol r))
          = EAPOL.EAPOLTYPE_value EAPOL.RSN /\
        EAPOL.length (EAPOL._header (RSNEAPOL.eapol r)) = 0) /\
    (99 <= total_sz -> total_sz <= size buf -> total_sz < 2 ^ 32 ->
     exists r, RSNEAPOL.RSNEAPOL_of_buffer host_le buf total_sz = Ok r).
Proof.
  intros le buf total_sz. split.
  - intros r. unfold RSNEAPOL.RSNEAPOL_of_buffer.
    destruct (wrap 32 (total_sz - EAPOL.sizeof_eapolhdr) <? RSNEAPOL.sizeof_rsnhdr);
      [discriminate|].
    destruct (read_bytes buf EAPOL.sizeof_eapolhdr RSNEAPOL.sizeof_rsnhdr)
      as [hdr| | | |]; cbn [bind]; try discriminate.
    match goal with
    | |- context [if ?c then _ else _] => destruct c
    end.
    + match goal with
      | |- context [read_bytes ?b ?o ?n] => destruct (read_bytes b o n)
      end; cbn [bind]; try discriminate.
      intros H. injection H as <-. cbn. repeat split; reflexivity.
    + intros H. injection H as <-. cbn. repeat split; reflexivity.
  - intros Hlo Hhi Hmax. unfold RSNEAPOL.RSNEAPOL_of_buffer.
    change EAPOL.sizeof_eapolhdr with 5. change RSNEAPOL.sizeof_rsnhdr with 94.
    rewrite (wrap_small 32 (total_sz - 5)) by lia.
    assert (H1 : (total_sz - 5 <? 94) = false) by (apply Z.ltb_ge; lia).
    rewrite H1. rewrite read_bytes_ok by lia. cbn [bind].
    rewrite (wrap_small 32 (total_sz - 5 - 94)) by lia.
    match goal with
    | |- context [if ?c then _ else _] => destruct c
    end; [| eexists; reflexivity].
    rewrite read_bytes_ok by lia. cbn [bind]. eexists; reflexivity.
Qed.

Lemma RSN_decode_installs_fixed_envelope_witness :
  exists r, RSNEAPOL.RSNEAPOL_of_buffer true foreign_envelope_frame 99 = Ok r /\
            EAPOL.version (EAPOL._header (RSNEAPOL.eapol r)) = 1 /\
            EAPOL.packet_type (EAPOL._header (RSNEAPOL.eapol r)) = 3.
Proof.
  destruct (RSN_decode_installs_fixed_envelope true foreign_envelope_frame 99)
    as [Hfix Hex].
  destruct Hex as [r Hr].
  - lia.
  - vm_compute. discriminate.
  - reflexivity.
  - exists r. split; [exact Hr|].
    destruct (Hfix r Hr) as (Hv & Hp & _). split; assumption.
Defined.

Lemma slice_size_2 (buf : buffer) (off : Z) :
  0 <= off -> off + 2 <= size buf -> length (slice buf off 2) = 2%nat.
Proof. intros. rewrite length_slice by lia. reflexivity. Qed.

Lemma RC4_get_key_length_of_mem (le : bool) (buf : buffer) (e : EAPOL.EAPOL)
  (k : list byte) :
  48 <= size buf ->
  RC4EAPOL.get_key_length le
    {| RC4EAPOL.eapol := e;
       RC4EAPOL._header := RC4EAPOL.rc4hdr_of_mem le (slice buf 5 43);
       RC4EAPOL._key := k |}
  = wire_rc4_key_length buf.
Proof.
  intros Hsz. unfold RC4EAPOL.get_key_length, wire_rc4_key_length.
  cbn [RC4EAPOL._header RC4EAPOL.rc4hdr_of_mem RC4EAPOL.key_length].
  rewrite slice_slice by lia. replace (5 + 0) with 5 by lia.
  rewrite <- (be_to_host_of_mem le (slice buf 5 2)).
  rewrite slice_size_2 by lia. reflexivity.
Qed.

(** C3, as the code has it. For every buffer of at least 48 bytes (envelope
    and fixed body) the decoding constructor of [RC4EAPOL] returns a unit.
    If the size that remains after the fixed body equals the declared key
    length, the key of the unit is the remaining bytes, and it is non-empty
    when the declared key length is not 0; if the two differ, the key is
    empty and nothing is thrown. *)
Theorem RC4_decode_key :
  forall (host_le : bool) (buf : buffer) (total_sz : Z),
    48 <= total_sz -> total_sz <= size buf -> total_sz < 2 ^ 32 ->
    exists r,
      RC4EAPOL.RC4EAPOL_of_buffer host_le buf total_sz = Ok r /\
      RC4EAPOL.get_key_length host_le r = wire_rc4_key_length buf /\
      (total_sz - 48 = wire_rc4_key_length buf ->
         RC4EAPOL._key r = slice buf 48 (total_sz - 48) /\
         (wire_rc4_key_length buf <> 0 -> RC4EAPOL._key r <> [])) /\
      (total_sz - 48 <> wire_rc4_key_length buf -> RC4EAPOL._key r = []).
Proof.
  intros le buf total_sz Hlo Hhi Hmax.
  unfold RC4EAPOL.RC4EAPOL_of_buffer, EAPOL.EAPOL_of_buffer.
  change EAPOL.sizeof_eapolhdr with 5. change RC4EAPOL.sizeof_rc4hdr with 43.
  assert (H0 : (total_sz <? 5) = false) by (apply Z.ltb_ge; lia).
  rewrite H0. rewrite read_bytes_ok by lia. cbn [bind].
  rewrite (wrap_small 32 (total_sz - 5)) by lia.
  assert (H1 : (total_sz - 5 <? 43) = false) by (apply Z.ltb_ge; lia).
  rewrite H1. rewrite read_bytes_ok by lia. cbn [bind].
  rewrite (wrap_small 32 (total_sz - 5 - 43)) by lia.
  rewrite RC4_get_key_length_of_mem by lia.
  replace (total_sz - 5 - 43) with (total_sz - 48) by lia.
  replace (5 + 43) with 48 by lia.
  destruct (total_sz - 48 =? wire_rc4_key_length buf) eqn:Heq.
  - apply Z.eqb_eq in Heq.
    rewrite read_bytes_ok by lia. cbn [bind].
    eexists. split; [reflexivity|].
    unfold RC4EAPOL.key. cbn [RC4EAPOL._key].
    split; [| split].
    + cbn [RC4EAPOL.eapol RC4EAPOL._header].
      apply RC4_get_key_length_of_mem; lia.
    + intros _. split; [reflexivity|].
      intros Hnz Hnil.
      assert (Hlen := slice_length buf 48 (total_sz - 48)
                        ltac:(lia) ltac:(lia) ltac:(lia)).
      rewrite Hnil in Hlen. unfold size in Hlen. simpl in Hlen. lia.
    + intros Hne. contradiction.
  - apply Z.eqb_neq in Heq.
    eexists. split; [reflexivity|].
    split; [| split].
    + apply RC4_get_key_length_of_mem; lia.
    + intros Hq. contradiction.
    + intros _. reflexivity.
Qed.

Lemma RC4_decode_key_witness :
  exists r,
    RC4EAPOL.RC4EAPOL_of_buffer true keyed_rc4_frame 51 = Ok r /\
    RC4EAPOL._key r = bytes_of [10; 11; 12].
Proof.
  destruct (RC4_decode_key true keyed_rc4_frame 51) as (r & Hr & _ & Heq & _).
  - lia.
  - vm_compute. discriminate.
  - reflexivity.
  - exists r. split; [exact Hr|].
    destruct Heq as [Hk _]; [reflexivity|]. exact Hk.
Defined.

(** C3 as stated fails where the declared key length is 0 and nothing
    remains after the fixed body: the two are equal and the key is empty. *)
Lemma RC4_decode_key_counterexample :
  exists r,
    RC4EAPOL.RC4EAPOL_of_buffer true (repeat Byte.x00 48) 48 = Ok r /\
    48 - (EAPOL.sizeof_eapolhdr + RC4EAPOL.sizeof_rc4hdr)
      = RC4EAPOL.get_key_length true r /\
    RC4EAPOL._key r = [].
Proof. eexists. split; [reflexivity|]. split; reflexivity. Qed.

(** ** Serializing the EAPOL variants *)

Lemma slice_in_splice (buf : buffer) (off : Z) (data : list byte) (i n : Z) :
  0 <= off -> off + size data <= size buf ->
  0 <= i -> 0 <= n -> i + n <= size data ->
  slice (splice buf off data) (off + i) n = slice data i n.
Proof.
  intros Hoff Hfit Hi Hn Hin.
  apply nth_ext with (d := Byte.x00) (d' := Byte.x00).
  - rewrite !length_slice; rewrite ?size_splice; lia.
  - intros j Hj.
    rewrite length_slice in Hj by (rewrite ?size_splice; lia).
    rewrite !nth_slice by lia. rewrite nth_splice by lia.
    unfold size in *.
    destruct (Nat.ltb_spec (Z.to_nat (off + i) + j) (Z.to_nat off)); [lia|].
    destruct (Nat.ltb_spec (Z.to_nat (off + i) + j) (Z.to_nat off + length data));
      [| lia].
    f_equal. lia.
Qed.

Lemma size_to_mem (le : bool) (n : nat) (v : Z) :
  size (Endian.to_mem le n v) = Z.of_nat n.
Proof. unfold size. rewrite to_mem_length. reflexivity. Qed.

Lemma rsnhdr_to_mem_size (le : bool) (h : RSNEAPOL.rsnhdr) :
  rsnhdr_wf h -> size (RSNEAPOL.rsnhdr_to_mem le h) = 94.
Proof.
  intros (Hn & Hi & Hm). unfold RSNEAPOL.rsnhdr_to_mem, size.
  rewrite !length_app, !to_mem_length, Hn, Hi, Hm. reflexivity.
Qed.

Lemma rsnhdr_key_length_at (le : bool) (h : RSNEAPOL.rsnhdr) :
  slice (RSNEAPOL.rsnhdr_to_mem le h) 2 2 = Endian.to_mem le 2 (RSNEAPOL.key_length h).
Proof.
  unfold RSNEAPOL.rsnhdr_to_mem.
  match goal with
  | |- slice ([?a; ?b] ++ ?x ++ ?y) 2 2 = _ =>
      change (slice ([a; b] ++ x ++ y) 2 2) with (slice (x ++ y) 0 2)
  end.
  apply slice_app_l. rewrite size_to_mem. reflexivity.
Qed.

Lemma rsnhdr_wpa_length_at (le : bool) (h : RSNEAPOL.rsnhdr) :
  rsnhdr_wf h ->
  slice (RSNEAPOL.rsnhdr_to_mem le h) 92 2 = Endian.to_mem le 2 (RSNEAPOL.wpa_length h).
Proof.
  intros (Hn & Hi & Hm). unfold RSNEAPOL.rsnhdr_to_mem.
  rewrite !app_assoc.
  match goal with
  | |- slice (?p ++ ?w) 92 2 = _ =>
      assert (Hp : size p = 92)
        by (unfold size; rewrite !length_app, !to_mem_length, Hn, Hi, Hm;
            reflexivity);
      replace 92 with (size p + 0) by lia;
      rewrite slice_app_r by lia
  end.
  apply slice_full. rewrite size_to_mem. reflexivity.
Qed.

Lemma be_value_to_mem_host_to_be (le : bool) (v : Z) :
  0 <= v < 2 ^ 16 ->
  Endian.be_value (Endian.to_mem le 2 (Endian.host_to_be le 2 v)) = v.
Proof.
  intros Hv. rewrite to_mem_host_to_be, be_value_be_bytes.
  apply Z.mod_small. exact Hv.
Qed.

Lemma rsnhdr_wf_set_key_t (h : RSNEAPOL.rsnhdr) (v : Z) :
  rsnhdr_wf h -> rsnhdr_wf (RSNEAPOL.set_key_t h v).
Proof. intros H. exact H. Qed.

Lemma size_nonempty (l : list byte) : l <> [] -> 0 < size l.
Proof. destruct l; [congruence|]. unfold size. simpl. lia. Qed.

(** [write_body] of a unit holding a raw key. *)
Lemma RSN_write_body_raw_key (le : bool) (this : RSNEAPOL.RSNEAPOL)
  (buf : buffer) (off total_sz : Z) :
  RSNEAPOL.key_t (RSNEAPOL._header this) = 0 ->
  RSNEAPOL._key this <> [] ->
  size (RSNEAPOL._key this) < 2 ^ 16 ->
  rsnhdr_wf (RSNEAPOL._header this) ->
  0 <= off -> off + 94 + size (RSNEAPOL._key this) <= size buf ->
  94 + size (RSNEAPOL._key this) <= total_sz ->
  exists h',
    RSNEAPOL.write_body le this buf off total_sz
    = Ok ({| RSNEAPOL.eapol := RSNEAPOL.eapol this; RSNEAPOL._header := h';
             RSNEAPOL._key := RSNEAPOL._key this |},
          splice (splice buf off (RSNEAPOL.rsnhdr_to_mem le h')) (off + 94)
            (RSNEAPOL._key this)) /\
    rsnhdr_wf h' /\
    RSNEAPOL.key_length h' = Endian.host_to_be le 2 32 /\
    RSNEAPOL.wpa_length h'
      = Endian.host_to_be le 2 (size (RSNEAPOL._key this)).
Proof.
  intros Hkt Hne Hmax Hwf Hoff Hfit Htot.
  pose proof (size_nonempty _ Hne) as Hpos.
  unfold RSNEAPOL.write_body, RSNEAPOL.header_size.
  change EAPOL.sizeof_eapolhdr with 5. change RSNEAPOL.sizeof_rsnhdr with 94.
  rewrite Hkt. cbn [Z.eqb negb andb].
  assert (Hsz0 : (size (RSNEAPOL._key this) =? 0) = false)
    by (apply Z.eqb_neq; lia).
  rewrite Hsz0. cbn [negb].
  rewrite (wrap_small 32 (5 + 94 + size (RSNEAPOL._key this) + 0))
    by (change (2 ^ 32) with 4294967296; change (2 ^ 16) with 65536 in Hmax; lia).
  rewrite (wrap_small 32 (5 + 94 + size (RSNEAPOL._key this) + 0 - 5))
    by (change (2 ^ 32) with 4294967296; change (2 ^ 16) with 65536 in Hmax; lia).
  assert (Hge : (total_sz >=? 5 + 94 + size (RSNEAPOL._key this) + 0 - 5) = true)
    by (apply Z.geb_le; lia).
  rewrite Hge. cbn [negb].
  cbn [RSNEAPOL.set_wpa_length RSNEAPOL.set_header RSNEAPOL._header
       RSNEAPOL._key RSNEAPOL.set_key_length_field RSNEAPOL.set_wpa_length_field
       RSNEAPOL.key_t RSNEAPOL.eapol].
  rewrite Hkt. cbn [Z.eqb negb andb].
  rewrite (wrap_small 16 (size (RSNEAPOL._key this))) by lia.
  match goal with
  | |- context [RSNEAPOL.rsnhdr_to_mem le ?h] => set (h' := h)
  end.
  assert (Hwf' : rsnhdr_wf h') by exact Hwf.
  pose proof (rsnhdr_to_mem_size le h' Hwf') as Hsz.
  exists h'.
  rewrite write_bytes_ok by lia. cbn [bind].
  rewrite write_bytes_ok by (rewrite ?size_splice; lia). cbn [bind].
  split; [| split; [exact Hwf' | split; reflexivity]].
  unfold RSNEAPOL.set_wpa_length, RSNEAPOL.set_header.
  cbn [RSNEAPOL._header RSNEAPOL._key RSNEAPOL.eapol].
  rewrite (wrap_small 16 (size (RSNEAPOL._key this))) by lia.
  reflexivity.
Qed.

(** [write_body] of a unit holding a serialized information element. *)
Lemma RSN_write_body_information (le : bool) (this : RSNEAPOL.RSNEAPOL)
  (buf : buffer) (off total_sz : Z) :
  RSNEAPOL.key_t (RSNEAPOL._header this) = 1 ->
  RSNEAPOL._key this <> [] ->
  size (RSNEAPOL._key this) < 2 ^ 8 ->
  rsnhdr_wf (RSNEAPOL._header this) ->
  0 <= off -> off + 96 + size (RSNEAPOL._key this) <= size buf ->
  96 + size (RSNEAPOL._key this) <= total_sz ->
  exists h',
    RSNEAPOL.write_body le this buf off total_sz
    = Ok ({| RSNEAPOL.eapol := RSNEAPOL.eapol this; RSNEAPOL._header := h';
             RSNEAPOL._key := RSNEAPOL._key this |},
          splice
            (splice
               (splice (splice buf off (RSNEAPOL.rsnhdr_to_mem le h')) (off + 94)
                  [byte.of_Z Dot11_RSN])
               (off + 94 + 1) [byte.of_Z (size (RSNEAPOL._key this))])
            (off + 94 + 2) (RSNEAPOL._key this)) /\
    rsnhdr_wf h' /\
    RSNEAPOL.key_length h' = 0 /\
    RSNEAPOL.wpa_length h'
      = Endian.host_to_be le 2 (size (RSNEAPOL._key this) + 2).
Proof.
  intros Hkt Hne Hmax Hwf Hoff Hfit Htot.
  pose proof (size_nonempty _ Hne) as Hpos.
  change (2 ^ 8) with 256 in Hmax.
  unfold RSNEAPOL.write_body, RSNEAPOL.header_size.
  change EAPOL.sizeof_eapolhdr with 5. change RSNEAPOL.sizeof_rsnhdr with 94.
  rewrite Hkt. cbn [Z.eqb negb andb].
  assert (Hsz0 : (size (RSNEAPOL._key this) =? 0) = false)
    by (apply Z.eqb_neq; lia).
  rewrite Hsz0. cbn [negb].
  rewrite (wrap_small 32 (5 + 94 + size (RSNEAPOL._key this) + 2))
    by (change (2 ^ 32) with 4294967296; lia).
  rewrite (wrap_small 32 (5 + 94 + size (RSNEAPOL._key this) + 2 - 5))
    by (change (2 ^ 32) with 4294967296; lia).
  assert (Hge : (total_sz >=? 5 + 94 + size (RSNEAPOL._key this) + 2 - 5) = true)
    by (apply Z.geb_le; lia).
  rewrite Hge. cbn [negb].
  unfold RSNEAPOL.set_wpa_length, RSNEAPOL.set_header.
  cbn [RSNEAPOL._header RSNEAPOL._key RSNEAPOL.set_key_length_field
       RSNEAPOL.set_wpa_length_field RSNEAPOL.key_t RSNEAPOL.eapol].
  rewrite Hkt. cbn [Z.eqb negb andb]. rewrite ?Hsz0. cbn [negb].
  rewrite (wrap_small 16 (size (RSNEAPOL._key this) + 2))
    by (change (2 ^ 16) with 65536; lia).
  match goal with
  | |- context [RSNEAPOL.rsnhdr_to_mem le ?h] => set (h' := h)
  end.
  assert (Hwf' : rsnhdr_wf h') by exact Hwf.
  pose proof (rsnhdr_to_mem_size le h' Hwf') as Hsz.
  exists h'.
  rewrite write_bytes_ok by lia. cbn [bind].
  rewrite write_bytes_ok
    by (rewrite ?size_splice; change (size [byte.of_Z Dot11_RSN]) with 1; lia).
  cbn [bind].
  rewrite write_bytes_ok
    by (repeat (rewrite size_splice);
        change (size [byte.of_Z Dot11_RSN]) with 1;
        change (size [byte.of_Z (size (RSNEAPOL._key this))]) with 1; lia).
  cbn [bind].
  rewrite write_bytes_ok
    by (repeat (rewrite size_splice);
        change (size [byte.of_Z Dot11_RSN]) with 1;
        change (size [byte.of_Z (size (RSNEAPOL._key this))]) with 1; lia).
  cbn [bind].
  split; [reflexivity | split; [exact Hwf' | split; reflexivity]].
Qed.

Lemma eapolhdr_to_mem_size (le : bool) (h : EAPOL.eapolhdr) :
  size (EAPOL.eapolhdr_to_mem le h) = 5.
Proof.
  unfold EAPOL.eapolhdr_to_mem, size.
  rewrite !length_app, !to_mem_length. reflexivity.
Qed.

(** [EAPOL::write_serialization] of an RSN unit: the envelope, then the
    body written by [write_body]. *)
Lemma RSN_write_serialization_eq (le : bool) (this : RSNEAPOL.RSNEAPOL)
  (buf : buffer) (total_sz : Z) :
  RSNEAPOL.header_size this <= total_sz -> 5 <= total_sz ->
  total_sz <= size buf -> total_sz < 2 ^ 32 ->
  exists e1,
    EAPOL.write_serialization le (H := RSNEAPOL.RSNEAPOL_Variant le) this buf total_sz
    = RSNEAPOL.write_body le
        {| RSNEAPOL.eapol := e1; RSNEAPOL._header := RSNEAPOL._header this;
           RSNEAPOL._key := RSNEAPOL._key this |}
        (splice buf 0 (EAPOL.eapolhdr_to_mem le (EAPOL._header e1))) 5
        (total_sz - 5).
Proof.
  intros Hhs Hlo Hhi Hmax.
  unfold EAPOL.write_serialization.
  cbn [EAPOL.header_size EAPOL.base EAPOL.set_base EAPOL.write_body
       RSNEAPOL.RSNEAPOL_Variant].
  assert (Hge : (total_sz >=? RSNEAPOL.header_size this) = true)
    by (apply Z.geb_le; lia).
  rewrite Hge. cbn [negb].
  change EAPOL.sizeof_eapolhdr with 5.
  rewrite (wrap_small 32 (total_sz - 5)) by lia.
  destruct (EAPOL.length (EAPOL._header (RSNEAPOL.eapol this)) =? 0).
  - cbn [RSNEAPOL.eapol RSNEAPOL._header RSNEAPOL._key].
    eexists.
    rewrite write_bytes_ok by (rewrite ?eapolhdr_to_mem_size; lia).
    cbn [bind]. reflexivity.
  - exists (RSNEAPOL.eapol this).
    rewrite write_bytes_ok by (rewrite ?eapolhdr_to_mem_size; lia).
    cbn [bind]. destruct this. reflexivity.
Qed.

Lemma RSN_header_size_key (this0 : RSNEAPOL.RSNEAPOL) (data : list byte) :
  size data < 2 ^ 16 ->
  RSNEAPOL.header_size (RSNEAPOL.key this0 data) = 99 + size data.
Proof.
  intros Hmax. pose proof (size_nonneg data).
  unfold RSNEAPOL.header_size, RSNEAPOL.key.
  cbn [RSNEAPOL._header RSNEAPOL._key RSNEAPOL.set_key_t RSNEAPOL.key_t
       Z.eqb negb andb].
  change EAPOL.sizeof_eapolhdr with 5. change RSNEAPOL.sizeof_rsnhdr with 94.
  rewrite wrap_small
    by (change (2 ^ 32) with 4294967296; change (2 ^ 16) with 65536 in Hmax; lia).
  lia.
Qed.

Lemma RSN_header_size_information (this0 : RSNEAPOL.RSNEAPOL) (data : list byte) :
  data <> [] -> size data < 2 ^ 8 ->
  RSNEAPOL.header_size (RSNEAPOL.rsn_information this0 data) = 101 + size data.
Proof.
  intros Hne Hmax. pose proof (size_nonempty _ Hne).
  unfold RSNEAPOL.header_size, RSNEAPOL.rsn_information.
  cbn [RSNEAPOL._header RSNEAPOL._key RSNEAPOL.set_key_t RSNEAPOL.key_t
       Z.eqb negb andb].
  assert (Hsz0 : (size data =? 0) = false) by (apply Z.eqb_neq; lia).
  rewrite Hsz0. cbn [negb].
  change EAPOL.sizeof_eapolhdr with 5. change RSNEAPOL.sizeof_rsnhdr with 94.
  rewrite wrap_small
    by (change (2 ^ 32) with 4294967296; change (2 ^ 8) with 256 in Hmax; lia).
  lia.
Qed.

(** C4, as the code has it. Take an RSN unit whose byte arrays have their
    declared sizes, a non-empty block of bytes, and a buffer that is large
    enough.
    (a) After [key(data)], for a block of fewer than 2^16 bytes, the frame
    written has key length 32 and WPA length [size data], and the bytes of
    the key follow the fixed body directly, at offset 99: there is no
    two-byte prefix.
    (b) After [rsn_information], for a serialized element of fewer than 2^8
    bytes, the frame written has key length 0 and WPA length
    [size data + 2], the two bytes at offset 99 are the element tag
    [Dot11_RSN] and [size data], and the element follows at offset 101. *)
Theorem RSN_serialize_trailing_block :
  forall (host_le : bool) (this0 : RSNEAPOL.RSNEAPOL) (data : list byte)
         (buf : buffer) (total_sz : Z),
    rsnhdr_wf (RSNEAPOL._header this0) ->
    data <> [] ->
    total_sz <= size buf -> total_sz < 2 ^ 32 ->
    (size data < 2 ^ 16 -> 99 + size data <= total_sz ->
     exists this' buf',
       EAPOL.write_serialization host_le (H := RSNEAPOL.RSNEAPOL_Variant host_le)
         (RSNEAPOL.key this0 data) buf total_sz = Ok (this', buf') /\
       wire_rsn_key_length buf' = 32 /\
       wire_rsn_wpa_length buf' = size data /\
       slice buf' 99 (size data) = data) /\
    (size data < 2 ^ 8 -> 101 + size data <= total_sz ->
     exists this' buf',
       EAPOL.write_serialization host_le (H := RSNEAPOL.RSNEAPOL_Variant host_le)
         (RSNEAPOL.rsn_information this0 data) buf total_sz = Ok (this', buf') /\
       wire_rsn_key_length buf' = 0 /\
       wire_rsn_wpa_length buf' = size data + 2 /\
       slice buf' 99 2 = [byte.of_Z Dot11_RSN; byte.of_Z (size data)] /\
       byte.unsigned (byte.of_Z (size data)) = size data /\
       slice buf' 101 (size data) = data).
Proof.
  intros le this0 data buf total_sz Hwf Hne Hhi Hmax.
  pose proof (size_nonempty _ Hne) as Hpos.
  split.
  - intros Hd Htot.
    assert (Hd' : size data < 65536) by exact Hd.
    destruct (RSN_write_serialization_eq le (RSNEAPOL.key this0 data) buf total_sz)
      as [e1 Heq]; try lia.
    { rewrite RSN_header_size_key by assumption. lia. }
    rewrite Heq. clear Heq.
    cbn [RSNEAPOL.key RSNEAPOL._header RSNEAPOL._key].
    set (b1 := splice buf 0 (EAPOL.eapolhdr_to_mem le (EAPOL._header e1))).
    assert (Hb1 : size b1 = size buf)
      by (unfold b1; apply size_splice; rewrite ?eapolhdr_to_mem_size; lia).
    destruct (RSN_write_body_raw_key le
                {| RSNEAPOL.eapol := e1;
                   RSNEAPOL._header := RSNEAPOL.set_key_t (RSNEAPOL._header this0) 0;
                   RSNEAPOL._key := data |} b1 5 (total_sz - 5))
      as (h' & Hw & Hwf' & Hkl & Hwpa);
      cbn [RSNEAPOL._header RSNEAPOL._key]; try assumption; try lia.
    { reflexivity. }
    cbn [RSNEAPOL._header RSNEAPOL._key RSNEAPOL.eapol] in Hw, Hwpa.
    rewrite Hw. clear Hw.
    pose proof (rsnhdr_to_mem_size le h' Hwf') as Hsz.
    eexists _, _. split; [reflexivity|].
    set (b2 := splice b1 5 (RSNEAPOL.rsnhdr_to_mem le h')).
    assert (Hb2 : size b2 = size buf)
      by (unfold b2; rewrite size_splice; lia).
    unfold wire_rsn_key_length, wire_rsn_wpa_length.
    rewrite !(slice_splice_other b2 (5 + 94) data) by lia.
    change 7 with (5 + 2). change 97 with (5 + 92).
    unfold b2. rewrite !slice_in_splice by lia.
    rewrite rsnhdr_key_length_at, rsnhdr_wpa_length_at by assumption.
    rewrite Hkl, Hwpa. rewrite !be_value_to_mem_host_to_be by lia.
    split; [reflexivity | split; [reflexivity|]].
    change 99 with (5 + 94).
    apply slice_splice_same; rewrite ?size_splice; lia.
  - intros Hd Htot.
    assert (Hd' : size data < 256) by exact Hd.
    destruct (RSN_write_serialization_eq le (RSNEAPOL.rsn_information this0 data)
                buf total_sz) as [e1 Heq]; try lia.
    { rewrite RSN_header_size_information by assumption. lia. }
    rewrite Heq. clear Heq.
    cbn [RSNEAPOL.rsn_information RSNEAPOL._header RSNEAPOL._key].
    set (b1 := splice buf 0 (EAPOL.eapolhdr_to_mem le (EAPOL._header e1))).
    assert (Hb1 : size b1 = size buf)
      by (unfold b1; apply size_splice; rewrite ?eapolhdr_to_mem_size; lia).
    destruct (RSN_write_body_information le
                {| RSNEAPOL.eapol := e1;
                   RSNEAPOL._header := RSNEAPOL.set_key_t (RSNEAPOL._header this0) 1;
                   RSNEAPOL._key := data |} b1 5 (total_sz - 5))
      as (h' & Hw & Hwf' & Hkl & Hwpa);
      cbn [RSNEAPOL._header RSNEAPOL._key]; try assumption; try lia.
    { reflexivity. }
    cbn [RSNEAPOL._header RSNEAPOL._key RSNEAPOL.eapol] in Hw, Hwpa.
    rewrite Hw. clear Hw.
    pose proof (rsnhdr_to_mem_size le h' Hwf') as Hsz.
    eexists _, _. split; [reflexivity|].
    set (b2 := splice b1 5 (RSNEAPOL.rsnhdr_to_mem le h')).
    assert (Hb2 : size b2 = size buf)
      by (unfold b2; rewrite size_splice; lia).
    set (b3 := splice b2 (5 + 94) [byte.of_Z Dot11_RSN]).
    assert (Hb3 : size b3 = size buf)
      by (unfold b3; rewrite size_splice;
          change (size [byte.of_Z Dot11_RSN]) with 1; lia).
    set (b4 := splice b3 (5 + 94 + 1) [byte.of_Z (size data)]).
    assert (Hb4 : size b4 = size buf)
      by (unfold b4; rewrite size_splice;
          change (size [byte.of_Z (size data)]) with 1; lia).
    assert (Hbody : forall i n, 0 <= i -> 0 <= n -> i + n <= 94 ->
              slice (splice b4 (5 + 94 + 2) data) (5 + i) n
              = slice (RSNEAPOL.rsnhdr_to_mem le h') i n).
    { intros i n Hi Hn Hin.
      rewrite slice_splice_other by lia.
      unfold b4. rewrite slice_splice_other
        by (change (size [byte.of_Z (size data)]) with 1; lia).
      unfold b3. rewrite slice_splice_other
        by (change (size [byte.of_Z Dot11_RSN]) with 1; lia).
      unfold b2. apply slice_in_splice; lia. }
    unfold wire_rsn_key_length, wire_rsn_wpa_length.
    change 7 with (5 + 2). change 97 with (5 + 92).
    rewrite !Hbody by lia.
    rewrite rsnhdr_key_length_at, rsnhdr_wpa_length_at by assumption.
    rewrite Hkl, Hwpa.
    rewrite be_value_to_mem_host_to_be by (change (2 ^ 16) with 65536; lia).
    split; [| split; [reflexivity | split; [| split]]].
    + unfold Endian.be_value, Endian.to_mem, Endian.be_bytes.
      destruct le; reflexivity.
    + rewrite slice_splice_other by lia.
      change (slice b4 99 2) with (slice b4 (5 + 94) (1 + 1)).
      rewrite slice_app by lia.
      unfold b4 at 1. rewrite slice_splice_other
        by (change (size [byte.of_Z (size data)]) with 1; lia).
      pose proof (slice_splice_same b2 (5 + 94) [byte.of_Z Dot11_RSN]) as Ht.
      change (size [byte.of_Z Dot11_RSN]) with 1 in Ht.
      fold b3 in Ht. rewrite Ht by lia.
      pose proof (slice_splice_same b3 (5 + 94 + 1) [byte.of_Z (size data)]) as Hs.
      change (size [byte.of_Z (size data)]) with 1 in Hs.
      fold b4 in Hs. rewrite Hs by lia.
      reflexivity.
    + rewrite byte.unsigned_of_Z. unfold byte.wrap. apply Z.mod_small.
      change (2 ^ 8) with 256. lia.
    + change 101 with (5 + 94 + 2).
      apply slice_splice_same; lia.
Qed.

Lemma RSN_serialize_trailing_block_witness :
  (exists this' buf',
      EAPOL.write_serialization true (H := RSNEAPOL.RSNEAPOL_Variant true)
        (RSNEAPOL.key RSNEAPOL.RSNEAPOL_new (bytes_of [1; 2; 3]))
        (repeat Byte.xff 102) 102 = Ok (this', buf') /\
      wire_rsn_key_length buf' = 32 /\
      wire_rsn_wpa_length buf' = size (bytes_of [1; 2; 3]) /\
      slice buf' 99 (size (bytes_of [1; 2; 3])) = bytes_of [1; 2; 3]) /\
  (exists this' buf',
      EAPOL.write_serialization true (H := RSNEAPOL.RSNEAPOL_Variant true)
        (RSNEAPOL.rsn_information RSNEAPOL.RSNEAPOL_new (bytes_of [1; 2; 3]))
        (repeat Byte.xff 104) 104 = Ok (this', buf') /\
      wire_rsn_key_length buf' = 0 /\
      wire_rsn_wpa_length buf' = size (bytes_of [1; 2; 3]) + 2 /\
      slice buf' 99 2 = [byte.of_Z Dot11_RSN; byte.of_Z (size (bytes_of [1; 2; 3]))] /\
      byte.unsigned (byte.of_Z (size (bytes_of [1; 2; 3]))) = size (bytes_of [1; 2; 3]) /\
      slice buf' 101 (size (bytes_of [1; 2; 3])) = bytes_of [1; 2; 3]).
Proof.
  split.
  - apply (RSN_serialize_trailing_block true RSNEAPOL.RSNEAPOL_new
             (bytes_of [1; 2; 3]) (repeat Byte.xff 102) 102).
    + repeat split.
    + discriminate.
    + vm_compute. discriminate.
    + reflexivity.
    + reflexivity.
    + vm_compute. discriminate.
  - apply (RSN_serialize_trailing_block true RSNEAPOL.RSNEAPOL_new
             (bytes_of [1; 2; 3]) (repeat Byte.xff 104) 104).
    + repeat split.
    + discriminate.
    + vm_compute. discriminate.
    + reflexivity.
    + reflexivity.
    + vm_compute. discriminate.
Defined.

(** C4 as stated fails for large blocks. An information element of 256
    bytes is written with the length byte 0, and a raw key of 65536 bytes
    with the WPA length 0: the length byte has 8 bits and the WPA length 16. *)
Lemma RSN_serialize_trailing_block_counterexample :
  serialized_prefix
    (RSNEAPOL.rsn_information RSNEAPOL.RSNEAPOL_new
       (repeat Byte.x01 (Z.to_nat 256)))
  = Ok [byte.of_Z Dot11_RSN; Byte.x00] /\
  serialized_wpa_length
    (RSNEAPOL.key RSNEAPOL.RSNEAPOL_new (repeat Byte.x01 (Z.to_nat 65536)))
  = Ok 0.
Proof. split; vm_compute; reflexivity. Qed.

(** ** The envelope on the wire *)

Lemma write_bytes_inv (buf : buffer) (off : Z) (data : list byte) (buf' : buffer) :
  write_bytes buf off data = Ok buf' ->
  buf' = splice buf off data /\ 0 <= off /\ off + size data <= size buf.
Proof.
  unfold write_bytes. destruct (in_range buf off (size data)) eqn:Hr;
    [| discriminate].
  apply in_range_inv in Hr. intros H. injection H as <-.
  split; [reflexivity | lia].
Qed.

(** A write at or after [n] leaves the first [n] bytes as they are. *)
Lemma write_bytes_prefix (buf : buffer) (off : Z) (data : list byte)
  (buf' : buffer) (n : Z) :
  write_bytes buf off data = Ok buf' ->
  0 <= n -> n <= off ->
  slice buf' 0 n = slice buf 0 n /\ size buf' = size buf.
Proof.
  intros H Hn Hle. apply write_bytes_inv in H as (-> & Hoff & Hfit).
  pose proof (size_nonneg data).
  split; [apply slice_splice_other; lia | apply size_splice; lia].
Qed.

(** [RSNEAPOL::write_body] leaves the base-class part of the unit and the
    bytes before the body as they are. *)
Lemma RSN_write_body_frame (le : bool) (this this' : RSNEAPOL.RSNEAPOL)
  (buf buf' : buffer) (off total_sz : Z) :
  0 <= off ->
  RSNEAPOL.write_body le this buf off total_sz = Ok (this', buf') ->
  RSNEAPOL.eapol this' = RSNEAPOL.eapol this /\
  slice buf' 0 off = slice buf 0 off.
Proof.
  intros Hoff. unfold RSNEAPOL.write_body.
  destruct (negb (total_sz >=? _)); [discriminate|].
  match goal with
  | |- context [RSNEAPOL.rsnhdr_to_mem le (RSNEAPOL._header ?t)] => set (this1 := t)
  end.
  assert (He : RSNEAPOL.eapol this1 = RSNEAPOL.eapol this).
  { unfold this1.
    destruct (negb (size (RSNEAPOL._key this) =? 0)); [| reflexivity].
    destruct (RSNEAPOL.key_t (RSNEAPOL._header this) =? 0); reflexivity. }
  clearbody this1.
  change RSNEAPOL.sizeof_rsnhdr with 94.
  intros H.
  apply bind_Ok in H as (b1 & H1 & H).
  apply (write_bytes_prefix _ _ _ _ off) in H1 as (Hp1 & Hs1); try lia.
  apply bind_Ok in H as ([b2 p2] & H2 & H).
  assert (Hb2 : slice b2 0 off = slice buf 0 off /\ off + 94 <= p2).
  { destruct (negb (RSNEAPOL.key_t (RSNEAPOL._header this1) =? 0)
              && negb (size (RSNEAPOL._key this1) =? 0)).
    - apply bind_Ok in H2 as (c1 & Hc1 & H2).
      apply (write_bytes_prefix _ _ _ _ off) in Hc1 as (Hq1 & Ht1); try lia.
      apply bind_Ok in H2 as (c2 & Hc2 & H2).
      apply (write_bytes_prefix _ _ _ _ off) in Hc2 as (Hq2 & Ht2); try lia.
      injection H2 as <- <-. split; [congruence | lia].
    - injection H2 as <- <-. split; [assumption | lia]. }
  destruct Hb2 as (Hp2 & Hle2).
  apply bind_Ok in H as (b3 & H3 & H).
  apply (write_bytes_prefix _ _ _ _ off) in H3 as (Hp3 & Hs3); try lia.
  injection H as <- <-. split; [assumption | congruence].
Qed.

(** The first five bytes of the frame of an RSN unit are the envelope as it
    lies in memory: version, packet type, the length in the byte order of
    the host, type. *)
Lemma RSN_envelope_in_memory_order (le : bool) (this this' : RSNEAPOL.RSNEAPOL)
  (buf buf' : buffer) (total_sz : Z) :
  EAPOL.write_serialization le (H := RSNEAPOL.RSNEAPOL_Variant le) this buf total_sz
  = Ok (this', buf') ->
  slice buf' 0 5
  = EAPOL.eapolhdr_to_mem le (EAPOL._header (RSNEAPOL.eapol this')).
Proof.
  unfold EAPOL.write_serialization.
  cbn [EAPOL.header_size EAPOL.base EAPOL.set_base EAPOL.write_body
       RSNEAPOL.RSNEAPOL_Variant].
  destruct (negb (total_sz >=? RSNEAPOL.header_size this)); [discriminate|].
  match goal with
  | |- context [EAPOL.eapolhdr_to_mem le (EAPOL._header (RSNEAPOL.eapol ?t))] =>
      set (this1 := t)
  end.
  clearbody this1. intros H.
  apply bind_Ok in H as (b1 & H1 & H).
  apply write_bytes_inv in H1 as (-> & _ & Hfit).
  rewrite eapolhdr_to_mem_size in Hfit.
  apply RSN_write_body_frame in H as (-> & Hpre);
    [| unfold EAPOL.sizeof_eapolhdr; lia].
  change EAPOL.sizeof_eapolhdr with 5 in Hpre. rewrite Hpre.
  pose proof (slice_splice_same buf 0
                (EAPOL.eapolhdr_to_mem le (EAPOL._header (RSNEAPOL.eapol this1))))
    as Hs.
  rewrite eapolhdr_to_mem_size in Hs. apply Hs; lia.
Qed.

(** C8 on a little-endian host. The unit [RSNEAPOL()] is serialized to a
    frame of 99 bytes; its body length, 95, is written low byte first:
    the first four bytes are 1, 3, 95, 0, where the big-endian bytes of 95
    are 0, 95. On a big-endian host the same unit gives 1, 3, 0, 95. *)
Theorem EAPOL_length_in_host_order :
  serialized_envelope true RSNEAPOL.RSNEAPOL_new = Ok (bytes_of [1; 3; 95; 0]) /\
  Endian.be_bytes 2 95 = bytes_of [0; 95] /\
  serialized_envelope false RSNEAPOL.RSNEAPOL_new = Ok (bytes_of [1; 3; 0; 95]).
Proof. repeat split. Qed.

(** ** Serializing the IP header *)

Lemma IPOption_write_ok (o : IP.IPOption) (buf : buffer) (p : Z) :
  0 <= p -> p + size (option_bytes o) <= size buf ->
  IP.IPOption_write o buf p
  = Ok (splice buf p (option_bytes o), p + size (option_bytes o)).
Proof.
  intros Hp Hfit. unfold IP.IPOption_write, option_bytes in *.
  assert (Hsz : size (IP.type_to_mem o :: IP.optional_data o)
                = 1 + size (IP.optional_data o))
    by (unfold size; simpl length; lia).
  pose proof (size_nonneg (IP.optional_data o)) as Hd.
  rewrite write_bytes_ok by (change (size [IP.type_to_mem o]) with 1; lia).
  cbn [bind].
  destruct (IP.optional_data o) as [|d ds] eqn:Hdata.
  - reflexivity.
  - rewrite write_bytes_ok
      by (rewrite ?size_splice; change (size [IP.type_to_mem o]) with 1; lia).
    cbn [bind]. f_equal. f_equal; [| lia].
    pose proof (splice_splice_adjacent buf p [IP.type_to_mem o] (d :: ds)) as Hadj.
    change (size [IP.type_to_mem o]) with 1 in Hadj.
    apply Hadj; lia.
Qed.

Lemma write_options_ok (opts : list IP.IPOption) :
  forall (buf : buffer) (p : Z),
    0 <= p -> p + size (options_bytes opts) <= size buf ->
    IP.write_options opts buf p
    = Ok (splice buf p (options_bytes opts), p + size (options_bytes opts)).
Proof.
  induction opts as [|o opts IH]; intros buf p Hp Hfit.
  - simpl. f_equal. f_equal; [| unfold size; simpl; lia].
    unfold splice. simpl. rewrite Nat.add_0_r. symmetry. apply firstn_skipn.
  - cbn [IP.write_options options_bytes flat_map] in *.
    fold (options_bytes opts) in *.
    rewrite size_app in Hfit.
    pose proof (size_nonneg (option_bytes o)).
    pose proof (size_nonneg (options_bytes opts)).
    rewrite IPOption_write_ok by lia. cbn [bind].
    rewrite IH by (rewrite ?size_splice; lia).
    f_equal. f_equal; [| rewrite size_app; lia].
    apply splice_splice_adjacent; lia.
Qed.

Lemma iphdr_to_mem_size (le : bool) (h : IP.iphdr) : size (IP.iphdr_to_mem le h) = 20.
Proof.
  unfold IP.iphdr_to_mem, size. rewrite !length_app, !to_mem_length. reflexivity.
Qed.

Lemma small_uint4_ok (v : Z) : 0 <= v <= 15 -> IP.small_uint4 v = Ok v.
Proof.
  intros Hv. unfold IP.small_uint4.
  rewrite wrap_small by (change (2 ^ 8) with 256; lia).
  assert (H : (v >? 15) = false) by (rewrite Z.gtb_ltb; apply Z.ltb_ge; lia).
  rewrite H. reflexivity.
Qed.

Lemma small_uint4_inv (v r : Z) : IP.small_uint4 v = Ok r -> 0 <= r <= 15.
Proof.
  unfold IP.small_uint4.
  pose proof (wrap_range 8 v ltac:(lia)) as Hw.
  destruct (wrap 8 v >? 15) eqn:Hgt; [discriminate|].
  intros H. injection H as <-.
  rewrite Z.gtb_ltb in Hgt. apply Z.ltb_ge in Hgt. lia.
Qed.

(** What [write_header] leaves of a unit. *)
Lemma write_header_frame (le : bool) {PDU : Type} (PDU_flag : PDU -> Z)
  (this this1 : IP.IP PDU) (buf buf1 : buffer) (total_sz : Z) :
  IP.write_header le PDU_flag this buf total_sz = Ok (this1, buf1) ->
  unchanged_by_serialization this this1 /\
  IP.tot_len (IP._ip this1) = Endian.host_to_be le 2 (wrap 16 total_sz) /\
  0 <= IP.ihl (IP._ip this1) <= 15 /\
  (IP.inner_pdu this = None ->
     IP.flag this1 = IP.flag this /\
     IP.protocol (IP._ip this1) = IP.protocol (IP._ip this)).
Proof.
  unfold IP.write_header.
  destruct (negb (total_sz >=? IP.header_size this)); [discriminate|].
  match goal with
  | |- context [IP.set_tot_len le ?t total_sz] => set (this0 := t)
  end.
  assert (H0 : unchanged_by_serialization this this0 /\
               (IP.inner_pdu this = None ->
                IP.flag this0 = IP.flag this /\
                IP.protocol (IP._ip this0) = IP.protocol (IP._ip this))).
  { unfold this0. destruct (IP.inner_pdu this) eqn:Hin.
    - split; [| discriminate].
      unfold unchanged_by_serialization. cbn. rewrite Hin.
      repeat split; reflexivity.
    - split; [| intros _; split; reflexivity].
      unfold unchanged_by_serialization. rewrite Hin.
      repeat split; reflexivity. }
  clearbody this0. destruct H0 as (Hframe & Hnone).
  intros H.
  apply bind_Ok in H as (hl & Hhl & H).
  apply small_uint4_inv in Hhl.
  apply bind_Ok in H as (b1 & _ & H).
  apply bind_Ok in H as ([b2 p2] & _ & H).
  apply bind_Ok in H as (b3 & _ & H).
  injection H as <- <-.
  unfold unchanged_by_serialization in *. cbn.
  repeat split; try tauto; try lia; apply Hnone; assumption.
Qed.

(** [write_header] on a unit with consistent options, into a buffer that
    is large enough: the header, the options and the zero padding are
    written, one after the other, from the start of the buffer. *)
Lemma write_header_ok (le : bool) {PDU : Type} (PDU_flag : PDU -> Z)
  (this : IP.IP PDU) (buf : buffer) (total_sz : Z) :
  options_wf this -> 0 <= IP._options_size this ->
  20 + IP._padded_options_size this <= total_sz -> total_sz <= size buf ->
  exists this1,
    IP.write_header le PDU_flag this buf total_sz
    = Ok (this1,
          splice buf 0
            (IP.iphdr_to_mem le (IP._ip this1)
             ++ options_bytes (IP._ip_options this)
             ++ repeat Byte.x00
                  (Z.to_nat (IP._padded_options_size this - IP._options_size this)))) /\
    IP.ihl (IP._ip this1) = (20 + IP._padded_options_size this) / 4.
Proof.
  intros (Hbytes & Hle & Hmod & Hmax) Hnn Htot Hbuf.
  unfold IP.write_header, IP.header_size.
  change IP.sizeof_iphdr with 20. change IP.sizeof_uint32_t with 4.
  rewrite (wrap_small 32 (20 + IP._padded_options_size this))
    by (change (2 ^ 32) with 4294967296; lia).
  assert (Hge : (total_sz >=? 20 + IP._padded_options_size this) = true)
    by (apply Z.geb_le; lia).
  rewrite Hge. cbn [negb].
  match goal with
  | |- context [IP.set_tot_len le ?t total_sz] => set (this0 := t)
  end.
  assert (H0 : IP._ip_options this0 = IP._ip_options this /\
               IP._options_size this0 = IP._options_size this /\
               IP._padded_options_size this0 = IP._padded_options_size this)
    by (unfold this0; destruct (IP.inner_pdu this); repeat split; reflexivity).
  clearbody this0. destruct H0 as (Ho & Hos & Hps).
  assert (Hhl : 0 <= (20 + IP._padded_options_size this) / 4 <= 15).
  { split; [apply Z.div_pos; lia|].
    apply Z.div_le_upper_bound; lia. }
  rewrite small_uint4_ok by assumption. cbn [bind].
  set (this1 := IP.set_head_len (IP.set_tot_len le this0 total_sz)
                  ((20 + IP._padded_options_size this) / 4)).
  assert (Ho1 : IP._ip_options this1 = IP._ip_options this) by exact Ho.
  assert (Hos1 : IP._options_size this1 = IP._options_size this) by exact Hos.
  assert (Hps1 : IP._padded_options_size this1 = IP._padded_options_size this)
    by exact Hps.
  rewrite Ho1, Hos1, Hps1.
  pose proof (iphdr_to_mem_size le (IP._ip this1)) as Hh.
  rewrite write_bytes_ok by lia. cbn [bind].
  rewrite write_options_ok by (rewrite ?size_splice; lia). cbn [bind].
  rewrite (wrap_small 32 (IP._padded_options_size this - IP._options_size this))
    by (change (2 ^ 32) with 4294967296; lia).
  rewrite memset0_ok by (repeat (rewrite size_splice); lia). cbn [bind].
  exists this1. split; [| reflexivity].
  f_equal. f_equal.
  pose proof (splice_splice_adjacent buf 0 (IP.iphdr_to_mem le (IP._ip this1))
                (options_bytes (IP._ip_options this))) as Ha1.
  rewrite Hh in Ha1. change (0 + 20) with 20 in Ha1. rewrite Ha1 by lia.
  pose proof (splice_splice_adjacent buf 0
                (IP.iphdr_to_mem le (IP._ip this1)
                 ++ options_bytes (IP._ip_options this))
                (repeat Byte.x00
                   (Z.to_nat (IP._padded_options_size this - IP._options_size this))))
    as Ha2.
  rewrite size_app, Hh, Hbytes in Ha2. rewrite size_repeat in Ha2 by lia.
  change (0 + (20 + IP._options_size this)) with (20 + IP._options_size this) in Ha2.
  rewrite Ha2 by lia.
  rewrite <- app_assoc. reflexivity.
Qed.

Lemma fold_carries_done (fuel : nat) (c : Z) :
  0 <= c < 2 ^ 16 -> IP.fold_carries fuel c = Ok c.
Proof.
  intros Hc.
  assert (H : Z.shiftr c 16 = 0)
    by (rewrite Z.shiftr_div_pow2 by lia; apply Z.div_small; exact Hc).
  destruct fuel; cbn [IP.fold_carries]; rewrite H; reflexivity.
Qed.

Lemma fold_carries_step (fuel : nat) (c : Z) :
  2 ^ 16 <= c ->
  IP.fold_carries (S fuel) c
  = IP.fold_carries fuel (wrap 32 (Z.land c 65535 + Z.shiftr c 16)).
Proof.
  intros Hc.
  assert (H : Z.shiftr c 16 <> 0).
  { rewrite Z.shiftr_div_pow2 by lia.
    change (2 ^ 16) with 65536 in *.
    pose proof (Z.div_le_mono 65536 c 65536 ltac:(lia) Hc) as Hd.
    rewrite Z.div_same in Hd by lia. lia. }
  apply Z.eqb_neq in H. cbn [IP.fold_carries]. rewrite H. reflexivity.
Qed.

Lemma fold_once_bound (c : Z) :
  0 <= c < 2 ^ 32 ->
  0 <= Z.land c 65535 + Z.shiftr c 16 <= 131070 /\
  (c <= 131070 -> 2 ^ 16 <= c -> Z.land c 65535 + Z.shiftr c 16 < 2 ^ 16).
Proof.
  intros Hc.
  change 65535 with (Z.ones 16).
  rewrite Z.land_ones, Z.shiftr_div_pow2 by lia.
  change (2 ^ 16) with 65536 in *. change (2 ^ 32) with 4294967296 in *.
  pose proof (Z.mod_pos_bound c 65536 ltac:(lia)).
  pose proof (Z.div_mod c 65536 ltac:(lia)).
  assert (0 <= c / 65536) by (apply Z.div_pos; lia).
  split; [| intros]; lia.
Qed.

(** The carry folding ends within the loop bound of the model. *)
Lemma fold_carries_ok (c : Z) :
  0 <= c < 2 ^ 32 ->
  exists f, IP.fold_carries 32 c = Ok f /\ 0 <= f < 2 ^ 16.
Proof.
  intros Hc.
  destruct (Z_lt_le_dec c (2 ^ 16)) as [Hs | Hb].
  - exists c. split; [apply fold_carries_done; lia | lia].
  - pose proof (fold_once_bound c Hc) as (Hb1 & _).
    set (c1 := Z.land c 65535 + Z.shiftr c 16) in *.
    change 32%nat with (S 31). rewrite fold_carries_step by assumption.
    fold c1. rewrite (wrap_small 32 c1) by (change (2 ^ 32) with 4294967296; lia).
    destruct (Z_lt_le_dec c1 (2 ^ 16)) as [Hs1 | Hb1'].
    + exists c1. split; [apply fold_carries_done; lia | lia].
    + pose proof (fold_once_bound c1
                    ltac:(change (2 ^ 32) with 4294967296; lia)) as (Hb2 & Hlt).
      specialize (Hlt ltac:(lia) Hb1').
      set (c2 := Z.land c1 65535 + Z.shiftr c1 16) in *.
      change 31%nat with (S 30). rewrite fold_carries_step by assumption.
      fold c2. rewrite (wrap_small 32 c2) by (change (2 ^ 32) with 4294967296; lia).
      exists c2. split; [apply fold_carries_done; lia | lia].
Qed.

Lemma do_checksum_ok (le : bool) (buf : buffer) (start end_ : Z) :
  0 <= start -> start <= end_ -> end_ <= size buf ->
  exists sum, Utils.do_checksum le buf start end_ = Ok sum /\ 0 <= sum < 2 ^ 32.
Proof.
  intros Hs Hse He. unfold Utils.do_checksum.
  replace (Z.land (end_ - start) 1) with ((end_ - start) mod 2)
    by (symmetry; apply (Z.land_ones (end_ - start) 1); lia).
  pose proof (Z.mod_pos_bound (end_ - start) 2 ltac:(lia)) as Hm.
  pose proof (Z.div_mod (end_ - start) 2 ltac:(lia)) as Hd.
  assert (Hk : Z.of_nat (Z.to_nat ((end_ - start) / 2)) = (end_ - start) / 2)
    by (rewrite Z2Nat.id; [reflexivity | apply Z.div_pos; lia]).
  destruct ((end_ - start) mod 2 =? 1) eqn:Hodd.
  - apply Z.eqb_eq in Hodd.
    rewrite read8_ok by lia. cbn [bind].
    rewrite (do_checksum_loop_spec le buf (Z.to_nat ((end_ - start) / 2))) by lia.
    cbn [bind]. eexists. split; [reflexivity | apply wrap_range; lia].
  - apply Z.eqb_neq in Hodd. cbn [bind].
    rewrite (do_checksum_loop_spec le buf (Z.to_nat ((end_ - start) / 2))) by lia.
    cbn [bind]. eexists. split; [reflexivity | apply wrap_range; lia].
Qed.

(** C10. Let a unit whose stored checksum is zero be serialized with a
    non-null parent.
    (a) Whenever that returns, the checksum of the unit is zero afterwards
    and every field other than total length, header length and protocol is
    as before, options and nested unit included (without nested unit the
    protocol and the flag of the base class are as before too); the buffer
    is the one [write_header] left, with the complement of the folded sum
    of its header bytes stored, in big-endian order, at offset 10.
    (b) It does return when the options of the unit are consistent and the
    buffer holds [total_sz] bytes, at least the size of the header. *)
Theorem IP_serialize_checksum_to_buffer_only :
  forall (host_le : bool) (PDU : Type) (PDU_flag : PDU -> Z)
         (this : IP.IP PDU) (buf : buffer) (total_sz : Z),
    IP.check (IP._ip this) = 0 ->
    (forall (this' : IP.IP PDU) (buf' : buffer),
        IP.write_serialization host_le PDU_flag this buf total_sz true
        = Ok (this', buf') ->
        unchanged_by_serialization this this' /\
        IP.check (IP._ip this') = 0 /\
        (IP.inner_pdu this = None ->
         IP.flag this' = IP.flag this /\
         IP.protocol (IP._ip this') = IP.protocol (IP._ip this)) /\
        exists this1 buf1 sum folded,
          IP.write_header host_le PDU_flag this buf total_sz = Ok (this1, buf1) /\
          Utils.do_checksum host_le buf1 0 (20 + IP._padded_options_size this)
          = Ok sum /\
          IP.fold_carries 32 sum = Ok folded /\
          buf' = splice buf1 10 (Endian.be_bytes 2 (wrap 16 (Z.lnot folded)))) /\
    (options_wf this -> 0 <= IP._options_size this ->
     20 + IP._padded_options_size this <= total_sz -> total_sz <= size buf ->
     exists this' buf',
       IP.write_serialization host_le PDU_flag this buf total_sz true
       = Ok (this', buf')).
Proof.
  intros le PDU PDU_flag this buf total_sz Hcheck. split.
  - intros this' buf' H. unfold IP.write_serialization in H.
    apply bind_Ok in H as ([this1 buf1] & Hhdr & H).
    pose proof (write_header_frame le PDU_flag this this1 buf buf1 total_sz Hhdr)
      as (Hframe & _ & _ & Hnone).
    pose proof Hframe as (_ & _ & _ & _ & _ & Hc1 & _ & _ & _ & _ & Hps & _).
    rewrite Hc1, Hcheck in H. cbn [andb Z.eqb] in H.
    apply bind_Ok in H as (sum & Hsum & H).
    apply bind_Ok in H as (folded & Hfold & H).
    apply bind_Ok in H as (b2 & Hw & H).
    injection H as <- <-.
    rewrite to_mem_host_to_be in Hw.
    apply write_bytes_inv in Hw as (-> & _ & _).
    change IP.sizeof_iphdr with 20 in Hsum. rewrite Hps in Hsum.
    split; [| split; [| split]].
    + unfold unchanged_by_serialization in *. cbn.
      rewrite Hcheck.
      repeat split; try tauto.
      unfold Endian.host_to_be, Endian.change_endian. destruct le; reflexivity.
    + cbn. unfold Endian.host_to_be, Endian.change_endian.
      destruct le; reflexivity.
    + exact Hnone.
    + exists this1, buf1, sum, folded. repeat split; assumption.
  - intros Hwf Hnn Htot Hbuf.
    destruct (write_header_ok le PDU_flag this buf total_sz Hwf Hnn Htot Hbuf)
      as (this1 & Hhdr & _).
    pose proof (write_header_frame le PDU_flag _ _ _ _ _ Hhdr) as (Hframe & _).
    pose proof Hframe as (_ & _ & _ & _ & _ & Hc1 & _ & _ & _ & _ & Hps & _).
    unfold IP.write_serialization. rewrite Hhdr. cbn [bind].
    rewrite Hc1, Hcheck. cbn [andb Z.eqb].
    change IP.sizeof_iphdr with 20. rewrite Hps.
    match goal with
    | |- context [Utils.do_checksum le ?b 0 ?e] =>
        set (b1 := b);
        assert (Hb1 : size b1 = size buf)
    end.
    { destruct Hwf as (Hbytes & Hle & _).
      unfold b1. apply size_splice; [lia|].
      rewrite !size_app, iphdr_to_mem_size, Hbytes, size_repeat by lia. lia. }
    destruct Hwf as (_ & Hle & _).
    destruct (do_checksum_ok le b1 0 (20 + IP._padded_options_size this))
      as (sum & Hsum & Hrange); try lia.
    rewrite Hsum. cbn [bind].
    destruct (fold_carries_ok sum Hrange) as (folded & Hfold & _).
    rewrite Hfold. cbn [bind].
    rewrite write_bytes_ok by (rewrite ?size_to_mem; lia).
    cbn [bind]. eexists _, _. reflexivity.
Qed.

Lemma IP_serialize_checksum_to_buffer_only_witness :
  exists this' buf',
    IP.write_serialization true (fun _ : list byte => 255)
      (IP.IP_new true 1 2 None) (repeat Byte.xff 20) 20 true = Ok (this', buf') /\
    IP.check (IP._ip this') = 0.
Proof.
  destruct (IP_serialize_checksum_to_buffer_only true (list byte) (fun _ => 255)
              (IP.IP_new true 1 2 None) (repeat Byte.xff 20) 20 eq_refl)
    as [Ha Hb].
  destruct Hb as (this' & buf' & H).
  - unfold options_wf. vm_compute. repeat split; discriminate.
  - vm_compute. discriminate.
  - vm_compute. discriminate.
  - vm_compute. discriminate.
  - exists this', buf'. split; [exact H|].
    destruct (Ha this' buf' H) as (_ & Hc & _). exact Hc.
Defined.

(** ** The round trip of an IP header *)

Lemma all_below_spec (n : nat) (f : Z -> bool) :
  all_below n f = true -> forall z, 0 <= z < Z.of_nat n -> f z = true.
Proof.
  induction n as [|n IH]; intros H z Hz; [lia|].
  simpl in H. apply andb_true_iff in H as [Hn Hrest].
  destruct (Z.eq_dec z (Z.of_nat n)) as [-> | Hne]; [exact Hn|].
  apply IH; [exact Hrest | lia].
Qed.

(** The first byte of the header holds the two nibbles. *)
Lemma version_ihl_byte (lo hi : Z) :
  0 <= lo < 16 -> 0 <= hi < 16 ->
  Z.land (byte.unsigned (byte.of_Z
            (Z.lor (Z.land lo 15) (Z.shiftl (Z.land hi 15) 4)))) 15 = lo /\
  Z.shiftr (byte.unsigned (byte.of_Z
              (Z.lor (Z.land lo 15) (Z.shiftl (Z.land hi 15) 4)))) 4 = hi.
Proof.
  intros Hlo Hhi.
  assert (Hall : all_below 16 (fun lo => all_below 16 (fun hi =>
            let b := byte.unsigned (byte.of_Z
                       (Z.lor (Z.land lo 15) (Z.shiftl (Z.land hi 15) 4))) in
            (Z.land b 15 =? lo) && (Z.shiftr b 4 =? hi))) = true)
    by (vm_compute; reflexivity).
  pose proof (all_below_spec 16 _ Hall lo Hlo) as H1.
  pose proof (all_below_spec 16 _ H1 hi Hhi) as H2.
  cbv zeta in H2. apply andb_true_iff in H2 as [Ha Hb].
  apply Z.eqb_eq in Ha. apply Z.eqb_eq in Hb. split; assumption.
Qed.

(** The type byte of an option holds its three bit-fields. *)
Lemma type_byte_fields (n c k : Z) :
  0 <= n < 32 -> 0 <= c < 4 -> 0 <= k < 2 ->
  let t := byte.unsigned (byte.of_Z
             (Z.lor (Z.land n 31)
                (Z.lor (Z.shiftl (Z.land c 3) 5) (Z.shiftl (Z.land k 1) 7)))) in
  Z.land t 31 = n /\ Z.land (Z.shiftr t 5) 3 = c /\ Z.shiftr t 7 = k.
Proof.
  intros Hn Hc Hk.
  assert (Hall : all_below 32 (fun n => all_below 4 (fun c => all_below 2 (fun k =>
            let t := byte.unsigned (byte.of_Z
                       (Z.lor (Z.land n 31)
                          (Z.lor (Z.shiftl (Z.land c 3) 5)
                                 (Z.shiftl (Z.land k 1) 7)))) in
            (Z.land t 31 =? n) && (Z.land (Z.shiftr t 5) 3 =? c)
            && (Z.shiftr t 7 =? k)))) = true)
    by (vm_compute; reflexivity).
  pose proof (all_below_spec 32 _ Hall n Hn) as H1.
  pose proof (all_below_spec 4 _ H1 c Hc) as H2.
  pose proof (all_below_spec 2 _ H2 k Hk) as H3.
  cbv zeta in H3. apply andb_true_iff in H3 as [H3 Hk'].
  apply andb_true_iff in H3 as [Hn' Hc'].
  apply Z.eqb_eq in Hn'. apply Z.eqb_eq in Hc'. apply Z.eqb_eq in Hk'.
  cbv zeta. repeat split; assumption.
Qed.

Lemma to_mem_2 (le : bool) (v : Z) :
  exists x y, Endian.to_mem le 2 v = [x; y].
Proof.
  pose proof (to_mem_length le 2 v) as H.
  destruct (Endian.to_mem le 2 v) as [|x [|y [|z l]]]; try discriminate.
  eauto.
Qed.

Lemma to_mem_4 (le : bool) (v : Z) :
  exists a b c d, Endian.to_mem le 4 v = [a; b; c; d].
Proof.
  pose proof (to_mem_length le 4 v) as H.
  destruct (Endian.to_mem le 4 v) as [|a [|b [|c [|d [|e l]]]]]; try discriminate.
  eauto 6.
Qed.

(** A header copied to memory and read back is the same header. *)
Lemma iphdr_of_mem_to_mem (le : bool) (h : IP.iphdr) :
  iphdr_wf h -> IP.iphdr_of_mem le (IP.iphdr_to_mem le h) = h.
Proof.
  intros (Hihl & Hver & Htos & Htl & Hid & Hfo & Httl & Hpr & Hck & Hsa & Hda).
  destruct (version_ihl_byte (IP.ihl h) (IP.version h) Hihl Hver) as (Hlo & Hhi).
  unfold IP.iphdr_to_mem.
  destruct (to_mem_2 le (IP.tot_len h)) as (t0 & t1 & Et).
  destruct (to_mem_2 le (IP.id h)) as (i0 & i1 & Ei).
  destruct (to_mem_2 le (IP.frag_off h)) as (f0 & f1 & Ef).
  destruct (to_mem_2 le (IP.check h)) as (c0 & c1 & Ec).
  destruct (to_mem_4 le (IP.saddr h)) as (s0 & s1 & s2 & s3 & Es).
  destruct (to_mem_4 le (IP.daddr h)) as (d0 & d1 & d2 & d3 & Ed).
  rewrite Et, Ei, Ef, Ec, Es, Ed.
  unfold IP.iphdr_of_mem, byte_at.
  cbn [app nth].
  match goal with
  | |- context [slice ?l 2 2] =>
      change (slice l 2 2) with [t0; t1];
      change (slice l 4 2) with [i0; i1];
      change (slice l 6 2) with [f0; f1];
      change (slice l 10 2) with [c0; c1];
      change (slice l 12 4) with [s0; s1; s2; s3];
      change (slice l 16 4) with [d0; d1; d2; d3]
  end.
  rewrite Hlo, Hhi.
  rewrite <- Et, <- Ei, <- Ef, <- Ec, <- Es, <- Ed.
  rewrite !of_mem_to_mem.
  rewrite !byte.unsigned_of_Z. unfold byte.wrap.
  change (2 ^ 8) with 256. change (2 ^ (Z.of_nat 2 * 8)) with 65536.
  change (2 ^ (Z.of_nat 4 * 8)) with 4294967296.
  rewrite !Z.mod_small by assumption.
  destruct h; reflexivity.
Qed.

Lemma read8_middle (pre post : list byte) (x : byte) :
  read8 (pre ++ x :: post) (size pre) = Ok (byte.unsigned x).
Proof.
  unfold read8.
  rewrite in_range_true
    by (rewrite ?size_app; unfold size; simpl length; lia).
  unfold size. rewrite Nat2Z.id, nth_middle. reflexivity.
Qed.

Lemma multibyte_number_nonzero (n : Z) : IP.is_multibyte n = true -> n <> 0.
Proof. intros H ->. vm_compute in H. discriminate H. Qed.

Lemma size_cons (x : byte) (l : list byte) : size (x :: l) = 1 + size l.
Proof. unfold size. cbn [length]. lia. Qed.

(** The body of the option loop at a readable option gives the option
    back and leaves the pointer after its bytes. *)
Lemma read_option_readable (o : IP.IPOption) (pre rest : list byte) :
  readable_option o ->
  byte.unsigned (IP.type_to_mem o) <> 0 /\
  IP.read_option (pre ++ option_bytes o ++ rest)
    (byte.unsigned (IP.type_to_mem o)) (size pre)
    (size (pre ++ option_bytes o ++ rest))
  = Ok (o, size pre + size (option_bytes o)).
Proof.
  intros (Hn & Hc & Hk & Hdata).
  destruct (type_byte_fields (IP.number o) (IP.op_class o) (IP.copied o) Hn Hc Hk)
    as (Hn' & Hc' & Hk').
  fold (IP.type_to_mem o) in Hn', Hc', Hk'.
  assert (Hback : IP.type_of_mem (byte.unsigned (IP.type_to_mem o))
                    (IP.optional_data o) = o).
  { unfold IP.type_of_mem. rewrite Hn', Hc', Hk'. destruct o; reflexivity. }
  unfold IP.read_option. rewrite Hn'.
  destruct (IP.is_multibyte (IP.number o)) eqn:Hmulti.
  - destruct (IP.optional_data o) as [|len data] eqn:Hod; [contradiction|].
    split.
    { intros Hz. rewrite Hz in Hn'. change (Z.land 0 31) with 0 in Hn'.
      apply (multibyte_number_nonzero _ Hmulti). symmetry. exact Hn'. }
    unfold option_bytes. rewrite Hod.
    set (t := IP.type_to_mem o).
    set (buf := pre ++ (t :: len :: data) ++ rest).
    assert (Hbuf : buf = (pre ++ [t]) ++ (len :: data) ++ rest)
      by (unfold buf; rewrite <- app_assoc; reflexivity).
    assert (Hpre : size pre + 1 = size (pre ++ [t]))
      by (rewrite size_app; reflexivity).
    assert (Hsz : size buf = size pre + 1 + size (len :: data) + size rest)
      by (unfold buf, size; rewrite !length_app; cbn [length app];
          rewrite ?length_app; lia).
    pose proof (size_nonneg pre) as Hp0. pose proof (size_nonneg rest) as Hr0.
    pose proof (size_nonneg data) as Hd0.
    pose proof (byte.unsigned_range len) as Hlen.
    rewrite size_cons in Hdata, Hsz.
    unfold IP.read_option_data.
    replace (size pre + 1 =? size buf) with false by (symmetry; apply Z.eqb_neq; lia).
    assert (Hr8 : read8 buf (size pre + 1) = Ok (byte.unsigned len)).
    { rewrite Hbuf, Hpre. cbn [app]. apply read8_middle. }
    rewrite Hr8. cbn [bind].
    replace (byte.unsigned len =? 0) with false by (symmetry; apply Z.eqb_neq; lia).
    rewrite wrap_small by (change (2 ^ 8) with 256; lia).
    replace (byte.unsigned len - 1 >? 0) with true
      by (symmetry; apply Z.gtb_lt; lia).
    replace (size buf - (size pre + 1) <? byte.unsigned len - 1) with false
      by (symmetry; apply Z.ltb_ge; lia).
    rewrite read_bytes_ok by lia.
    assert (Hsl : slice buf (size pre + 1) (byte.unsigned len - 1) = len :: data).
    { rewrite Hbuf, Hpre.
      replace (size (pre ++ [t])) with (size (pre ++ [t]) + 0) by lia.
      rewrite slice_app_r by lia. apply slice_app_l.
      rewrite size_cons. lia. }
    rewrite Hsl. cbn [bind]. fold t in Hback. rewrite Hback.
    f_equal. f_equal. rewrite !size_cons. lia.
  - destruct Hdata as (Hod & Hnz). split.
    { intros Hz. apply Hnz. apply byte.unsigned_inj. rewrite Hz. reflexivity. }
    cbn [bind]. rewrite <- Hod at 1. rewrite Hback.
    unfold option_bytes. rewrite Hod. reflexivity.
Qed.

Lemma options_bytes_cons (o : IP.IPOption) (opts : list IP.IPOption) :
  options_bytes (o :: opts) = option_bytes o ++ options_bytes opts.
Proof. reflexivity. Qed.

Lemma size_option_bytes (o : IP.IPOption) :
  size (option_bytes o) = size (IP.optional_data o) + 1.
Proof. unfold option_bytes. rewrite size_cons. lia. Qed.

Lemma length_le_options_bytes (opts : list IP.IPOption) :
  Z.of_nat (length opts) <= size (options_bytes opts).
Proof.
  induction opts as [|o opts IH]; [unfold size; simpl; lia|].
  rewrite options_bytes_cons, size_app, size_option_bytes.
  pose proof (size_nonneg (IP.optional_data o)). cbn [length]. lia.
Qed.

(** The option loop over readable options, followed by zero padding up to
    the end of the header, returns these options and counts their bytes. *)
Lemma read_options_readable (opts : list IP.IPOption) :
  Forall readable_option opts ->
  forall (pre : list byte) (k fuel : nat) (acc : list IP.IPOption) (osz : Z),
    (length opts <= fuel)%nat ->
    0 <= osz -> osz + size (options_bytes opts) < 2 ^ 32 ->
    IP.read_options fuel (pre ++ options_bytes opts ++ repeat Byte.x00 k)
      (size pre) (size (pre ++ options_bytes opts ++ repeat Byte.x00 k)) acc osz
    = Ok (acc ++ opts, osz + size (options_bytes opts)).
Proof.
  induction 1 as [|o opts Ho Hopts IH]; intros pre k fuel acc osz Hfuel Hosz Hmax.
  - cbn [options_bytes flat_map app length].
    change (size []) with 0.
    rewrite app_nil_r, Z.add_0_r.
    destruct k as [|k].
    + cbn [repeat]. rewrite app_nil_r.
      assert (Hlt : (size pre <? size pre) = false) by apply Z.ltb_irrefl.
      destruct fuel; cbn [IP.read_options]; rewrite Hlt; reflexivity.
    + cbn [repeat].
      assert (Hlt : (size pre <? size (pre ++ Byte.x00 :: repeat Byte.x00 k)) = true).
      { apply Z.ltb_lt. rewrite size_app. unfold size. simpl length. lia. }
      destruct fuel; cbn [IP.read_options]; rewrite Hlt; cbn [negb];
        rewrite read8_middle; reflexivity.
  - destruct fuel as [|fuel]; [simpl in Hfuel; lia|].
    rewrite options_bytes_cons in *. rewrite <- app_assoc.
    rewrite size_app in Hmax.
    pose proof (size_nonneg (options_bytes opts)) as Hopts0.
    pose proof (size_nonneg (IP.optional_data o)) as Hod0.
    pose proof (size_option_bytes o) as Hob.
    set (rest := options_bytes opts ++ repeat Byte.x00 k).
    destruct (read_option_readable o pre rest Ho) as (Hnz & Hread).
    set (buf := pre ++ option_bytes o ++ rest) in *.
    assert (Hlt : (size pre <? size buf) = true).
    { apply Z.ltb_lt. unfold buf. rewrite !size_app.
      pose proof (size_nonneg rest). lia. }
    assert (Hr8 : read8 buf (size pre) = Ok (byte.unsigned (IP.type_to_mem o)))
      by (unfold buf, option_bytes; cbn [app]; apply read8_middle).
    cbn [IP.read_options]. rewrite Hlt. cbn [negb].
    rewrite Hr8. cbn [bind].
    apply Z.eqb_neq in Hnz. rewrite Hnz.
    rewrite Hread. cbn [bind].
    rewrite (wrap_small 32 (osz + size (IP.optional_data o) + 1)) by lia.
    assert (Hbuf : buf = (pre ++ option_bytes o)
                         ++ options_bytes opts ++ repeat Byte.x00 k)
      by (unfold buf, rest; rewrite <- app_assoc; reflexivity).
    assert (Hpre : size pre + size (option_bytes o) = size (pre ++ option_bytes o))
      by (rewrite size_app; reflexivity).
    rewrite Hpre, Hbuf.
    rewrite IH; [| simpl in Hfuel; lia | lia | lia].
    rewrite <- app_assoc. cbn [app]. f_equal. f_equal.
    rewrite size_app. lia.
Qed.

(** Decoding the bytes of a header with readable options and zero
    padding. *)
Lemma IP_of_buffer_layout (le : bool) {PDU : Type}
  (TCP UDP ICMP RawPDU : buffer -> Z -> Z -> outcome PDU)
  (hdr : IP.iphdr) (opts : list IP.IPOption) (k : nat) :
  iphdr_wf hdr ->
  Forall readable_option opts ->
  IP.ihl hdr * 4 = 20 + size (options_bytes opts) + Z.of_nat k ->
  IP.IP_of_buffer le TCP UDP ICMP RawPDU
    (IP.iphdr_to_mem le hdr ++ options_bytes opts ++ repeat Byte.x00 k)
    (IP.ihl hdr * 4)
  = Ok {| IP.flag := IP.PROTO_IP; IP.inner_pdu := None; IP._ip := hdr;
          IP._ip_options := opts;
          IP._options_size := size (options_bytes opts);
          IP._padded_options_size := IP.ihl hdr * 4 - 20 |}.
Proof.
  intros Hwf Hopts Hihl.
  set (buf := IP.iphdr_to_mem le hdr ++ options_bytes opts ++ repeat Byte.x00 k).
  assert (Hsize : size buf = IP.ihl hdr * 4).
  { unfold buf. rewrite !size_app, iphdr_to_mem_size.
    unfold size at 2. rewrite repeat_length. lia. }
  assert (Hhdr : slice buf 0 20 = IP.iphdr_to_mem le hdr)
    by (unfold buf; apply slice_app_l; rewrite iphdr_to_mem_size; reflexivity).
  pose proof (length_le_options_bytes opts) as Hcount.
  unfold IP.IP_of_buffer, IP.IP_header_of_buffer, IP.read_header.
  change IP.sizeof_iphdr with 20. change IP.sizeof_uint32_t with 4.
  assert (H1 : (IP.ihl hdr * 4 <? 20) = false) by (apply Z.ltb_ge; lia).
  rewrite H1. rewrite read_bytes_ok by lia. cbn [bind].
  rewrite Hhdr, iphdr_of_mem_to_mem by assumption.
  rewrite Z.ltb_irrefl, H1. cbn [bind].
  pose proof (read_options_readable opts Hopts (IP.iphdr_to_mem le hdr) k
                (Z.to_nat (IP.ihl hdr * 4 - 20)) [] 0) as Hread.
  fold buf in Hread. rewrite iphdr_to_mem_size, Hsize in Hread.
  rewrite Hread; [| lia | lia | destruct Hwf as (Hi & _); lia].
  cbn [bind app IP.head_len IP._ip IP.protocol].
  unfold IP.read_inner. rewrite Z.sub_diag. cbn [Z.eqb bind].
  reflexivity.
Qed.

Lemma wire_check_of_header (le : bool) (hdr : IP.iphdr) (rest : list byte) :
  iphdr_wf hdr ->
  wire_check le (IP.iphdr_to_mem le hdr ++ rest) = IP.check hdr.
Proof.
  intros Hwf. unfold wire_check.
  pose proof (iphdr_to_mem_size le hdr) as Hsz.
  replace (slice (IP.iphdr_to_mem le hdr ++ rest) 10 2)
    with (slice (slice (IP.iphdr_to_mem le hdr ++ rest) 0 20) 10 2)
    by (apply slice_slice; rewrite ?size_app; pose proof (size_nonneg rest); lia).
  rewrite slice_app_l by (symmetry; exact Hsz).
  change (Endian.of_mem le (slice (IP.iphdr_to_mem le hdr) 10 2))
    with (IP.check (IP.iphdr_of_mem le (IP.iphdr_to_mem le hdr))).
  rewrite iphdr_of_mem_to_mem by assumption. reflexivity.
Qed.

(** Storing two bytes at offset 10 of a serialized header changes its
    checksum field and nothing else. *)
Lemma splice_check (le : bool) {PDU : Type} (h : IP.IP PDU) (c : Z)
  (rest : list byte) :
  splice (IP.iphdr_to_mem le (IP._ip h) ++ rest) 10 (Endian.to_mem le 2 c)
  = IP.iphdr_to_mem le (IP._ip (with_check h c)) ++ rest.
Proof.
  unfold IP.iphdr_to_mem, with_check, IP.set_ip.
  cbn [IP._ip IP.ihl IP.version IP.tos IP.tot_len IP.id IP.frag_off IP.ttl
       IP.protocol IP.check IP.saddr IP.daddr].
  set (ip := IP._ip h).
  set (b01 := [byte.of_Z (Z.lor (Z.land (IP.ihl ip) 15)
                            (Z.shiftl (Z.land (IP.version ip) 15) 4));
               byte.of_Z (IP.tos ip)]).
  set (pre := b01 ++ Endian.to_mem le 2 (IP.tot_len ip)
              ++ Endian.to_mem le 2 (IP.id ip)
              ++ Endian.to_mem le 2 (IP.frag_off ip)
              ++ [byte.of_Z (IP.ttl ip); byte.of_Z (IP.protocol ip)]).
  set (post := Endian.to_mem le 4 (IP.saddr ip)
               ++ Endian.to_mem le 4 (IP.daddr ip) ++ rest).
  assert (Hpre : size pre = 10)
    by (unfold pre, b01, size; rewrite !length_app, !to_mem_length; reflexivity).
  assert (Hl : forall x,
             (b01 ++ Endian.to_mem le 2 (IP.tot_len ip)
              ++ Endian.to_mem le 2 (IP.id ip)
              ++ Endian.to_mem le 2 (IP.frag_off ip)
              ++ [byte.of_Z (IP.ttl ip); byte.of_Z (IP.protocol ip)]
              ++ Endian.to_mem le 2 x
              ++ Endian.to_mem le 4 (IP.saddr ip)
              ++ Endian.to_mem le 4 (IP.daddr ip)) ++ rest
             = pre ++ Endian.to_mem le 2 x ++ post)
    by (intros x; unfold pre, post; repeat rewrite <- app_assoc; reflexivity).
  rewrite !Hl. rewrite <- Hpre.
  apply splice_app_mid. rewrite !size_to_mem. reflexivity.
Qed.

Lemma host_to_be_2_wrap_0 (le : bool) : Endian.host_to_be le 2 (wrap 16 0) = 0.
Proof. destruct le; reflexivity. Qed.

Lemma with_check_same {PDU : Type} (h : IP.IP PDU) :
  with_check h (IP.check (IP._ip h)) = h.
Proof. destruct h as [f i ip o s p]. destruct ip. reflexivity. Qed.

Lemma with_check_set_check (le : bool) {PDU : Type} (h : IP.IP PDU) (c : Z) :
  with_check (IP.set_check le h 0) c = with_check h c.
Proof. reflexivity. Qed.

Lemma iphdr_wf_with_check {PDU : Type} (h : IP.IP PDU) (c : Z) :
  iphdr_wf (IP._ip h) -> 0 <= c < 65536 ->
  iphdr_wf (IP._ip (with_check h c)).
Proof.
  unfold iphdr_wf, with_check, IP.set_ip. cbn. intros H Hc.
  repeat split; try tauto; lia.
Qed.

(** The constructor gives a header that qualifies for the round trip, and
    so does every [set_noop_option] that keeps the options within the 40
    bytes a header has room for. *)
Lemma IP_new_round_trip_header (le : bool) {PDU : Type} (ip_dst ip_src : Z) :
  round_trip_header (IP.IP_new le ip_dst ip_src (@None PDU)).
Proof.
  unfold round_trip_header, iphdr_wf, options_wf. cbn.
  pose proof (host_to_be_range le 2 (wrap 16 1)) as Hid.
  change (2 ^ (Z.of_nat 2 * 8)) with 65536 in Hid.
  pose proof (wrap_range 32 ip_src ltac:(lia)) as Hs.
  pose proof (wrap_range 32 ip_dst ltac:(lia)) as Hd.
  change (2 ^ 32) with 4294967296 in *.
  change (wrap 8 IP.DEFAULT_TTL) with 128.
  repeat split; try lia; try reflexivity; try apply Hid; try apply Hs;
    try apply Hd.
  constructor.
Qed.

Lemma set_noop_option_round_trip_header {PDU : Type} (h : IP.IP PDU) :
  round_trip_header h -> IP._options_size h + 1 <= 40 ->
  exists h', IP.set_noop_option h = Ok h' /\ round_trip_header h'.
Proof.
  intros (Hwf & Hflag & Hinner & (Hbytes & Hle & Hmod & Hmax) & Hsimple) Hroom.
  pose proof (size_nonneg (options_bytes (IP._ip_options h))) as Hnn.
  rewrite Hbytes in Hnn.
  unfold IP.set_noop_option, IP.set_option. cbn [Z.eqb negb bind].
  eexists. split; [reflexivity|].
  set (n := wrap 32 (IP._options_size h + (1 + 0))).
  assert (Hn : n = IP._options_size h + 1)
    by (unfold n; rewrite wrap_small;
        [lia | change (2 ^ 32) with 4294967296; lia]).
  assert (Hpad : wrap 8 (Z.land n 3) = n mod 4).
  { change 3 with (Z.ones 2). rewrite Z.land_ones by lia. change (2 ^ 2) with 4.
    pose proof (Z.mod_pos_bound n 4 ltac:(lia)).
    apply wrap_small. change (2 ^ 8) with 256. lia. }
  unfold round_trip_header, options_wf.
  cbn [IP._ip IP.flag IP.inner_pdu IP._ip_options IP._options_size
       IP._padded_options_size].
  rewrite Hpad.
  pose proof (Z.mod_pos_bound n 4 ltac:(lia)) as Hm.
  pose proof (Z.div_mod n 4 ltac:(lia)) as Hdm.
  split; [exact Hwf|]. split; [exact Hflag|]. split; [exact Hinner|].
  split.
  - split; [| split; [| split]].
    + unfold options_bytes. rewrite flat_map_app. fold (options_bytes (IP._ip_options h)).
      rewrite size_app, Hbytes, Hn. reflexivity.
    + destruct (n mod 4 =? 0) eqn:Hz; cbn [negb].
      * lia.
      * apply Z.eqb_neq in Hz.
        rewrite wrap_small by (change (2 ^ 32) with 4294967296; lia). lia.
    + destruct (n mod 4 =? 0) eqn:Hz; cbn [negb].
      * apply Z.eqb_eq in Hz. exact Hz.
      * rewrite wrap_small by (change (2 ^ 32) with 4294967296; lia).
        replace (n - n mod 4 + 4) with ((n / 4 + 1) * 4) by lia.
        apply Z.mod_mul. lia.
    + destruct (n mod 4 =? 0) eqn:Hz; cbn [negb].
      * lia.
      * apply Z.eqb_neq in Hz.
        rewrite wrap_small by (change (2 ^ 32) with 4294967296; lia).
        lia.
  - apply Forall_app. split; [exact Hsimple|].
    constructor; [| constructor].
    unfold readable_option. vm_compute. repeat split; discriminate.
Qed.

(** No option with data that [set_option] builds is readable: the length
    byte it stores counts the bytes of the data, where the decoder takes
    the length byte for the length of the whole option. *)
Lemma set_option_data_not_readable {PDU : Type} (this this' : IP.IP PDU)
  (copied : Z) (cls : IP.OptionClass) (num : IP.Option_) (data : buffer)
  (data_size : Z) :
  data_size <> 0 ->
  IP.set_option this copied cls num data data_size = Ok this' ->
  exists o,
    IP._ip_options this' = IP._ip_options this ++ [o] /\
    IP.optional_data o = byte.of_Z data_size :: slice data 0 data_size /\
    ~ readable_option o.
Proof.
  intros Hnz H. unfold IP.set_option in H.
  apply Z.eqb_neq in Hnz. rewrite Hnz in H. cbn [negb] in H.
  unfold read_bytes in H.
  destruct (in_range data 0 data_size) eqn:Hr; [| discriminate H].
  apply in_range_inv in Hr. cbn [bind] in H.
  assert (E : this' = _) by (symmetry; injection H as E; exact E).
  clear H. subst this'. cbn [IP._ip_options].
  eexists. split; [reflexivity|]. split; [reflexivity|].
  intros (_ & _ & _ & Hdata). cbn [IP.number IP.optional_data] in Hdata.
  destruct (IP.is_multibyte (Z.land (IP.Option_value num) 31)).
  - rewrite size_cons, slice_length in Hdata by lia.
    rewrite byte.unsigned_of_Z in Hdata. unfold byte.wrap in Hdata.
    change (2 ^ 8) with 256 in Hdata.
    pose proof (Z.mod_le data_size 256 ltac:(lia) ltac:(lia)). lia.
  - destruct Hdata as (Hd & _). discriminate Hd.
Qed.

(** C1, as the code has it. Take a validly constructed header without
    nested unit whose options are all options that the decoder reads back
    ([round_trip_header]): single-byte options, and options with a data
    block that starts with the length of the whole option. Serialize it
    into a buffer of exactly its size. Serialization returns the unit
    [h'], which is [h] with total length and header length recomputed, and
    decoding the bytes written yields [h'] in every field, the checksum
    field being the one on the wire. When serialization does not compute
    the checksum (null parent, or a checksum set by the caller) that is
    [h'] itself. *)
Theorem IP_round_trip_readable_options :
  forall (host_le : bool) (PDU : Type) (PDU_flag : PDU -> Z)
         (TCP UDP ICMP RawPDU : buffer -> Z -> Z -> outcome PDU)
         (h : IP.IP PDU) (buf : buffer) (parent : bool),
    round_trip_header h ->
    size buf = IP.header_size h ->
    exists h' buf',
      IP.write_serialization host_le PDU_flag h buf (IP.header_size h) parent
      = Ok (h', buf') /\
      unchanged_by_serialization h h' /\
      IP.IP_of_buffer host_le TCP UDP ICMP RawPDU buf' (IP.header_size h)
      = Ok (with_check h' (wire_check host_le buf')) /\
      (parent = false \/ IP.check (IP._ip h) <> 0 ->
       IP.IP_of_buffer host_le TCP UDP ICMP RawPDU buf' (IP.header_size h) = Ok h').
Proof.
  intros le PDU PDU_flag TCP UDP ICMP RawPDU h buf parent
    (Hwf & Hflag & Hinner & Howf & Hreadable) Hsize.
  pose proof Howf as (Hbytes & Hle & Hmod & Hmax).
  assert (Hosz : 0 <= IP._options_size h)
    by (rewrite <- Hbytes; apply size_nonneg).
  assert (Hhs : IP.header_size h = 20 + IP._padded_options_size h).
  { unfold IP.header_size. change IP.sizeof_iphdr with 20.
    apply wrap_small. change (2 ^ 32) with 4294967296. lia. }
  rewrite Hhs in *.
  destruct (write_header_ok le PDU_flag h buf (20 + IP._padded_options_size h))
    as (this1 & Hhdr & Hihl); try assumption; try lia.
  pose proof (write_header_frame le PDU_flag _ _ _ _ _ Hhdr)
    as (Hframe & Htl & Hihlr & Hnone).
  specialize (Hnone Hinner). destruct Hnone as (Hflag1 & Hproto1).
  pose proof Hframe as (Hv & Htos & Hid & Hfo & Httl & Hck & Hsa & Hda
                        & Hopts & Hos & Hps & Hin).
  set (k := Z.to_nat (IP._padded_options_size h - IP._options_size h)) in *.
  set (rest := options_bytes (IP._ip_options h) ++ repeat Byte.x00 k) in *.
  assert (Hrest : size rest = IP._padded_options_size h).
  { unfold rest. rewrite size_app, Hbytes. unfold size at 1, k.
    rewrite repeat_length. lia. }
  rewrite splice_whole in Hhdr
    by (rewrite size_app, iphdr_to_mem_size, Hrest; lia).
  assert (Hihl4 : IP.ihl (IP._ip this1) * 4 = 20 + IP._padded_options_size h).
  { rewrite Hihl.
    pose proof (Z.div_mod (20 + IP._padded_options_size h) 4 ltac:(lia)) as Hd.
    replace ((20 + IP._padded_options_size h) mod 4) with 0 in Hd; [lia|].
    rewrite Z.add_mod, Hmod by lia. reflexivity. }
  assert (Hwf1 : iphdr_wf (IP._ip this1)).
  { destruct Hwf as (H1 & H2 & H3 & H4 & H5 & H6 & H7 & H8 & H9 & H10 & H11).
    pose proof (host_to_be_range le 2 (wrap 16 (20 + IP._padded_options_size h)))
      as Hr.
    change (2 ^ (Z.of_nat 2 * 8)) with 65536 in Hr.
    unfold iphdr_wf.
    rewrite Hv, Htos, Hid, Hfo, Httl, Hck, Hsa, Hda, Hproto1, Htl.
    repeat split; try tauto; lia. }
  assert (Hk : IP.ihl (IP._ip this1) * 4
               = 20 + size (options_bytes (IP._ip_options h)) + Z.of_nat k)
    by (unfold k; lia).
  assert (Hrec : forall c,
             {| IP.flag := IP.PROTO_IP; IP.inner_pdu := None;
                IP._ip := IP._ip (with_check this1 c);
                IP._ip_options := IP._ip_options h;
                IP._options_size := size (options_bytes (IP._ip_options h));
                IP._padded_options_size := IP.ihl (IP._ip this1) * 4 - 20 |}
             = with_check this1 c).
  { intros c. replace (IP.ihl (IP._ip this1) * 4 - 20)
      with (IP._padded_options_size this1) by lia.
    rewrite Hbytes, <- Hos.
    rewrite <- Hflag, <- Hflag1, <- Hinner, <- Hin, <- Hopts.
    destruct this1. reflexivity. }
  assert (Hdec : forall c, 0 <= c < 65536 ->
             IP.IP_of_buffer le TCP UDP ICMP RawPDU
               (IP.iphdr_to_mem le (IP._ip (with_check this1 c)) ++ rest)
               (20 + IP._padded_options_size h)
             = Ok (with_check this1 c)).
  { intros c Hc. rewrite <- Hihl4, <- Hrec.
    change (IP.ihl (IP._ip this1)) with (IP.ihl (IP._ip (with_check this1 c))).
    apply IP_of_buffer_layout.
    - apply iphdr_wf_with_check; assumption.
    - assumption.
    - exact Hk. }
  unfold IP.write_serialization. rewrite Hhdr. cbn [bind].
  destruct (parent && (IP.check (IP._ip this1) =? 0)) eqn:Hc.
  - apply andb_true_iff in Hc as [Hp Hz]. apply Z.eqb_eq in Hz.
    change IP.sizeof_iphdr with 20. rewrite Hps.
    set (L := IP.iphdr_to_mem le (IP._ip this1) ++ rest) in *.
    assert (HL : size L = 20 + IP._padded_options_size h)
      by (unfold L; rewrite size_app, iphdr_to_mem_size, Hrest; lia).
    destruct (do_checksum_ok le L 0 (20 + IP._padded_options_size h))
      as (sum & Hsum & Hrange); try lia.
    rewrite Hsum. cbn [bind].
    destruct (fold_carries_ok sum Hrange) as (folded & Hfold & _).
    rewrite Hfold. cbn [bind].
    set (c := Endian.host_to_be le 2 (wrap 16 (Z.lnot folded))).
    assert (Hcr : 0 <= c < 65536) by (apply (host_to_be_range le 2)).
    rewrite write_bytes_ok by (rewrite ?size_to_mem; lia).
    cbn [bind].
    unfold L. rewrite splice_check.
    eexists _, _. split; [reflexivity|].
    split; [| split].
    + unfold unchanged_by_serialization in *. cbn.
      rewrite host_to_be_2_wrap_0, <- Hck, Hz.
      repeat split; assumption.
    + rewrite wire_check_of_header by (apply iphdr_wf_with_check; assumption).
      change (IP.check (IP._ip (with_check this1 c))) with c.
      rewrite with_check_set_check. apply Hdec. exact Hcr.
    + intros [Hpf | Hnz]; [congruence|]. rewrite <- Hck in Hnz. contradiction.
  - exists this1, (IP.iphdr_to_mem le (IP._ip this1) ++ rest).
    split; [reflexivity|]. split; [exact Hframe|].
    rewrite wire_check_of_header by assumption.
    rewrite with_check_same.
    assert (Hd : IP.IP_of_buffer le TCP UDP ICMP RawPDU
                   (IP.iphdr_to_mem le (IP._ip this1) ++ rest)
                   (20 + IP._padded_options_size h) = Ok this1).
    { pose proof (Hdec (IP.check (IP._ip this1))) as Hd.
      rewrite with_check_same in Hd. apply Hd.
      destruct Hwf1 as (_ & _ & _ & _ & _ & _ & _ & _ & H9 & _). exact H9. }
    split; [exact Hd | intros _; exact Hd].
Qed.

(** So does the constructed header with a no-operation option. *)
Lemma noop_header_round_trip : round_trip_header noop_header.
Proof.
  unfold round_trip_header, iphdr_wf, options_wf. vm_compute.
  repeat split; try discriminate.
  constructor; [| constructor].
  unfold readable_option. vm_compute. repeat split; discriminate.
Qed.

(** The header decoded from a buffer with a no-operation option and a
    security option of length 5 qualifies for the round trip. *)
Lemma decoded_sec_header_round_trip : round_trip_header decoded_sec_header.
Proof.
  unfold round_trip_header, iphdr_wf, options_wf. vm_compute.
  repeat split; try discriminate.
  constructor; [| constructor; [| constructor]];
    unfold readable_option; vm_compute; repeat split; discriminate.
Qed.

Lemma IP_round_trip_readable_options_witness :
  exists h' buf',
    IP.write_serialization true (fun _ : list byte => 255) decoded_sec_header
      (repeat Byte.xff 28) (IP.header_size decoded_sec_header) false
    = Ok (h', buf') /\
    IP.IP_of_buffer true payload_unit payload_unit payload_unit payload_unit
      buf' (IP.header_size decoded_sec_header) = Ok h' /\
    map IP.optional_data (IP._ip_options h')
    = [[]; bytes_of [5; 21; 23; 148]].
Proof.
  destruct (IP_round_trip_readable_options true (list byte) (fun _ => 255)
              payload_unit payload_unit payload_unit payload_unit
              decoded_sec_header (repeat Byte.xff 28) false)
    as (h' & buf' & Hser & Hframe & _ & Hdec).
  - exact decoded_sec_header_round_trip.
  - reflexivity.
  - exists h', buf'. split; [exact Hser|]. split.
    + apply Hdec. left. reflexivity.
    + destruct Hframe as (_ & _ & _ & _ & _ & _ & _ & _ & Hopts & _).
      rewrite Hopts. reflexivity.
Defined.

(** C1 as stated fails for a header with the end-of-list option: the
    decoder stops at the marker, so the decoded header has no option and
    an option size of 0 where the serialized one has one option and 1. *)
Lemma IP_round_trip_counterexample :
  exists h' d,
    round_trip eol_header = Ok (h', d) /\
    length (IP._ip_options h') = 1%nat /\ IP._ip_options d = [] /\
    IP._options_size h' = 1 /\ IP._options_size d = 0.
Proof.
  eexists _, _. split; [vm_compute; reflexivity|].
  repeat split.
Qed.

(** It fails for the options with data that [set_option] builds too,
    none of which is readable: [set_option] writes the number of data
    bytes where the decoder expects the length of the whole option. For
    the security option with three data bytes the decoder throws. *)
Example IP_round_trip_data_option :
  round_trip sec_header = Throw IP.msg.
Proof. vm_compute. reflexivity. Qed.

(** ** Cloning a packet *)

(** The bound [clone_packet] computes is the smaller of the physical size
    and four times the declared total length. *)
Lemma clone_bound_wire (le : bool) (buf : buffer) (total_sz : Z) :
  20 <= size buf ->
  IP.clone_bound le (IP.iphdr_of_mem le (slice buf 0 20)) total_sz
  = Z.min total_sz (wire_tot_len buf * 4).
Proof.
  intros Hsz. unfold IP.clone_bound, wire_tot_len.
  cbn [IP.iphdr_of_mem IP.tot_len].
  rewrite slice_slice by lia. change (0 + 2) with 2.
  assert (Hlen : length (slice buf 2 2) = 2%nat) by (apply slice_size_2; lia).
  rewrite <- Hlen at 1. rewrite be_to_host_of_mem.
  change IP.sizeof_uint32_t with 4.
  pose proof (le_combine_bound (rev (slice buf 2 2))) as Hb.
  rewrite length_rev, Hlen in Hb. change (2 ^ (8 * Z.of_nat 2)) with 65536 in Hb.
  unfold Endian.be_value.
  rewrite wrap_small by (change (2 ^ 32) with 4294967296; lia).
  reflexivity.
Qed.

(** C6 at a capture with padding. The header declares 20 bytes, the buffer
    has 24. [clone_packet] bounds the decoding constructor by 24, the
    physical size, since it takes four times the declared length; so the
    constructor decodes the four bytes of padding as the next layer, and
    throws with a next-layer decoder that needs 8 bytes, where the
    constructor bounded by the declared 20 bytes returns a unit. *)
Theorem clone_packet_bound_is_physical_size :
  wire_tot_len padded_capture = 20 /\ size padded_capture = 24 /\
  IP.clone_bound true (IP.iphdr_of_mem true (slice padded_capture 0 20)) 24 = 24 /\
  throws (IP.clone_packet true payload_unit (sized_unit 8) payload_unit
            payload_unit clone_raw (IP.IP_new true 1 2 None) padded_capture 24)
    = true /\
  is_ok (IP.IP_of_buffer true payload_unit (sized_unit 8) payload_unit
           payload_unit padded_capture (wire_tot_len padded_capture)) = true.
Proof. repeat split; vm_compute; reflexivity. Qed.

(** ** Hexadecimal numerals *)

Lemma from_hex_digit_position (c : ascii) :
  from_hex_digit c = position_in c upper_hex_digits.
Proof.
  destruct c as [[] [] [] [] [] [] [] []]; vm_compute; reflexivity.
Qed.

Lemma position_in_hex_range (c : ascii) (d : Z) :
  position_in c upper_hex_digits = Some d -> 0 <= d < 16.
Proof.
  destruct c as [[] [] [] [] [] [] [] []]; vm_compute; intros H;
    try discriminate; injection H as <-; split; congruence.
Qed.

Lemma shift_in_digit (r d : Z) :
  0 <= d < 16 ->
  wrap 32 (Z.lor (Z.shiftl r 4) d) = wrap 32 (16 * r + d).
Proof.
  intros Hd. f_equal.
  rewrite Z.shiftl_mul_pow2 by lia.
  rewrite <- Z.lxor_lor, <- Z.add_nocarry_lxor; try lia.
  all: apply Z.bits_inj'; intros n Hn; rewrite Z.land_spec, Z.bits_0;
    destruct (Z.ltb_spec n 4).
  1,3: rewrite Z.mul_pow2_bits_low by lia; reflexivity.
  all: rewrite (Z.bits_above_log2 d n), andb_false_r; try reflexivity; try lia.
  all: destruct (Z.eq_dec d 0) as [->|]; [simpl; lia|];
       apply Z.log2_lt_pow2; try lia;
       apply Z.lt_le_trans with (2 ^ 4); [lia | apply Z.pow_le_mono_r; lia].
Qed.

Lemma from_hex_loop_value (str : list ascii) :
  forall r : Z,
    match hex_digits str with
    | Some ds =>
        Utils.from_hex_loop str (wrap 32 r)
        = (true, wrap 32 (fold_left (fun a d => 16 * a + d) ds r))
    | None => fst (Utils.from_hex_loop str (wrap 32 r)) = false
    end.
Proof.
  induction str as [|c rest IH]; intros r; [reflexivity|].
  cbn [hex_digits Utils.from_hex_loop].
  change (if (Z.of_N (N_of_ascii c) >=? 65) && (Z.of_N (N_of_ascii c) <=? 70)
          then Some (wrap 8 (Z.of_N (N_of_ascii c) - 65 + 10))
          else if (Z.of_N (N_of_ascii c) >=? 48) && (Z.of_N (N_of_ascii c) <=? 57)
               then Some (wrap 8 (Z.of_N (N_of_ascii c) - 48))
               else None)
    with (from_hex_digit c).
  rewrite from_hex_digit_position.
  destruct (position_in c upper_hex_digits) as [d|] eqn:Hd; [|reflexivity].
  apply position_in_hex_range in Hd.
  assert (Hstep : wrap 32 (Z.lor (Z.shiftl (wrap 32 r) 4) d) = wrap 32 (16 * r + d)).
  { rewrite shift_in_digit by exact Hd. unfold wrap.
    rewrite Z.add_mod, Z.mul_mod_idemp_r, <- Z.add_mod by lia. reflexivity. }
  rewrite Hstep. specialize (IH (16 * r + d)).
  destruct (hex_digits rest) as [ds|]; cbn [fold_left]; exact IH.
Qed.

Lemma hex_digits_range (str : list ascii) :
  forall ds, hex_digits str = Some ds ->
             length ds = length str /\ Forall (fun d => 0 <= d < 16) ds.
Proof.
  induction str as [|c rest IH]; intros ds H; cbn [hex_digits] in H.
  - injection H as <-. split; [reflexivity | constructor].
  - destruct (position_in c upper_hex_digits) as [d|] eqn:Hd; [|discriminate].
    destruct (hex_digits rest) as [ds'|]; [|discriminate].
    injection H as <-. destruct (IH ds' eq_refl) as [Hl Hf].
    split; [cbn [length]; congruence|].
    constructor; [exact (position_in_hex_range c d Hd) | exact Hf].
Qed.

Lemma hex_value_bound (ds : list Z) :
  Forall (fun d => 0 <= d < 16) ds ->
  forall r, 0 <= r ->
    0 <= fold_left (fun a d => 16 * a + d) ds r
      < (r + 1) * 16 ^ Z.of_nat (length ds).
Proof.
  induction 1 as [|d ds Hd _ IH]; intros r Hr.
  - cbn. lia.
  - cbn [fold_left length]. specialize (IH (16 * r + d) ltac:(lia)).
    rewrite Nat2Z.inj_succ, Z.pow_succ_r by lia.
    assert (0 < 16 ^ Z.of_nat (length ds)) by (apply Z.pow_pos_nonneg; lia).
    nia.
Qed.

Lemma length_chars (s : string) :
  length (list_ascii_of_string s) = String.length s.
Proof. induction s as [|c s IH]; cbn; congruence. Qed.

(** [from_hex] accepts exactly the numerals written with the digits
    0-9 and A-F (a lower-case digit is refused); for such a numeral it
    returns its value in base 16 modulo 2^32, which is the value itself for
    up to eight digits; the empty numeral is accepted with the value 0. *)
Theorem from_hex_reads_upper_case_numerals :
  forall s : string,
    match hex_digits (list_ascii_of_string s) with
    | Some ds =>
        Utils.from_hex s = (true, wrap 32 (hex_value ds)) /\
        ((String.length s <= 8)%nat -> Utils.from_hex s = (true, hex_value ds))
    | None => fst (Utils.from_hex s) = false
    end.
Proof.
  intros s. unfold Utils.from_hex, hex_value.
  pose proof (from_hex_loop_value (list_ascii_of_string s) 0) as H.
  change (wrap 32 0) with 0 in H.
  destruct (hex_digits (list_ascii_of_string s)) as [ds|] eqn:Hds; [|exact H].
  split; [exact H|]. intros Hlen. rewrite H. f_equal.
  destruct (hex_digits_range _ _ Hds) as [Hl Hf].
  pose proof (hex_value_bound ds Hf 0 ltac:(lia)) as Hb.
  apply wrap_small. split; [lia|].
  apply Z.lt_le_trans with ((0 + 1) * 16 ^ Z.of_nat (length ds)); [lia|].
  rewrite Hl, length_chars.
  change (2 ^ 32) with (16 ^ 8). rewrite Z.mul_1_l. apply Z.pow_le_mono_r; lia.
Qed.

Example from_hex_lower_case : Utils.from_hex "ff" = (false, 0).
Proof. reflexivity. Qed.

(** ** Radio channels *)

(** [channel_to_mhz] is 2407 + 5 * channel as long as that fits 16
    bits, that is up to channel 12625; beyond, the result wraps, and still
    no two 16-bit channels get the same result. *)
Theorem channel_to_mhz_spacing :
  forall a b : Z,
    0 <= a < 65536 -> 0 <= b < 65536 ->
    (a <= 12625 -> Utils.channel_to_mhz a = 2407 + 5 * a) /\
    (a <> b -> Utils.channel_to_mhz a <> Utils.channel_to_mhz b).
Proof.
  intros a b Ha Hb. unfold Utils.channel_to_mhz, wrap.
  change (2 ^ 16) with 65536.
  rewrite (Z.mod_small a), (Z.mod_small b) by lia.
  repeat split.
  - intros Hle. rewrite Z.mod_small by lia. lia.
  - intros Hab Heq.
    rewrite (Z.mod_eq (2407 + a * 5)), (Z.mod_eq (2407 + b * 5)) in Heq by lia.
    set (q1 := (2407 + a * 5) / 65536) in *.
    set (q2 := (2407 + b * 5) / 65536) in *.
    clearbody q1 q2. lia.
Qed.

Lemma channel_to_mhz_spacing_witness :
  Utils.channel_to_mhz 1 = 2412 /\
  Utils.channel_to_mhz 1 <> Utils.channel_to_mhz 13108.
Proof.
  destruct (channel_to_mhz_spacing 1 13108 ltac:(lia) ltac:(lia)) as (H1 & H3).
  split; [apply H1; lia | apply H3; lia].
Defined.

(** ** The checksum of the pseudo header *)

Lemma le_combine_2 (b0 b1 : byte) :
  le_combine [b0; b1] = Z.lor (Z.shiftl (byte.unsigned b1) 8) (byte.unsigned b0).
Proof.
  change (le_combine [b0; b1]) with (Endian.be_value [b1; b0]). apply be_value_2.
Qed.

Lemma be_bytes_4_of_mem (le : bool) (v : Z) (a b c d : byte) :
  Endian.to_mem le 4 v = [a; b; c; d] ->
  Endian.be_bytes 4 (wrap 32 v) = if le then [d; c; b; a] else [a; b; c; d].
Proof.
  unfold Endian.to_mem, Endian.be_bytes, wrap. intros H.
  change (2 ^ 32) with (2 ^ (Z.of_nat 4 * 8)). rewrite <- le_split_mod.
  destruct le.
  - rewrite H. reflexivity.
  - exact H.
Qed.

Lemma address_halves (le : bool) (v : Z) (a b c d : byte) :
  Endian.to_mem le 4 v = [a; b; c; d] ->
  let ptr := Endian.to_mem le 4 (Endian.host_to_be le 4 (wrap 32 v)) in
  Endian.of_mem le (slice ptr 0 2) + Endian.of_mem le (slice ptr 2 2)
  = sum_words (be_words [a; b; c; d]).
Proof.
  intros H ptr. subst ptr. rewrite to_mem_host_to_be.
  rewrite (be_bytes_4_of_mem le v a b c d H).
  destruct le; unfold Endian.of_mem; cbn [be_words sum_words fold_right].
  1: change (slice [d; c; b; a] 0 2) with [d; c];
     change (slice [d; c; b; a] 2 2) with [b; a].
  2: change (slice [a; b; c; d] 0 2) with [a; b];
     change (slice [a; b; c; d] 2 2) with [c; d].
  - rewrite !le_combine_2. lia.
  - rewrite !be_value_2. lia.
Qed.

(** On either kind of host, [pseudoheader_checksum] is the checksum
    [do_checksum] computes over the eight bytes of the two addresses as
    they lie in memory, plus the flag and the length, modulo 2^32. *)
Theorem pseudoheader_checksum_is_checksum_of_addresses :
  forall (host_le : bool) (source_ip dest_ip len flag : Z),
    exists c,
      Utils.do_checksum host_le
        (Endian.to_mem host_le 4 source_ip ++ Endian.to_mem host_le 4 dest_ip) 0 8
      = Ok c /\
      Utils.pseudoheader_checksum host_le source_ip dest_ip len flag
      = wrap 32 (c + flag + len).
Proof.
  intros le s d len flag.
  destruct (to_mem_4 le s) as (a0 & a1 & a2 & a3 & Hs).
  destruct (to_mem_4 le d) as (d0 & d1 & d2 & d3 & Hd).
  pose proof (address_halves le s _ _ _ _ Hs) as Hhs.
  pose proof (address_halves le d _ _ _ _ Hd) as Hhd.
  cbv zeta in Hhs, Hhd.
  unfold Utils.pseudoheader_checksum. rewrite Hhs, Hhd, Hs, Hd.
  unfold Utils.do_checksum.
  change (Z.land (8 - 0) 1 =? 1) with false. cbv iota. cbn [bind].
  rewrite (do_checksum_loop_spec le _ 4 (Z.to_nat (8 - 0)) 0 8 0);
    try (cbn; lia).
  cbn [bind].
  eexists. split; [reflexivity|].
  change (slice ([a0; a1; a2; a3] ++ [d0; d1; d2; d3]) 0 (2 * Z.of_nat 4))
    with ([a0; a1; a2; a3] ++ [d0; d1; d2; d3]).
  rewrite (be_words_app_even [a0; a1; a2; a3]) by (exists 2%nat; reflexivity).
  rewrite sum_words_app.
  set (x := sum_words (be_words [a0; a1; a2; a3])).
  set (y := sum_words (be_words [d0; d1; d2; d3])).
  clearbody x y. unfold wrap. change (2 ^ 32) with 4294967296.
  Z.div_mod_to_equations. lia.
Qed.

(** ** The cyclic redundancy check *)

Ltac bits n :=
  apply Z.bits_inj'; intros n ?;
  repeat first [rewrite Z.lxor_spec | rewrite Z.land_spec | rewrite Z.bits_0].

Lemma lxor_swap (a b c d : Z) :
  Z.lxor (Z.lxor a b) (Z.lxor c d) = Z.lxor (Z.lxor a c) (Z.lxor b d).
Proof.
  bits n. destruct (Z.testbit a n), (Z.testbit b n), (Z.testbit c n),
    (Z.testbit d n); reflexivity.
Qed.

Lemma crc_shift_lxor (a b : Z) :
  crc_shift (Z.lxor a b) = Z.lxor (crc_shift a) (crc_shift b).
Proof.
  unfold crc_shift. rewrite Z.shiftr_lxor, lxor_swap. f_equal.
  rewrite <- !Z.bit0_odd, Z.lxor_spec.
  destruct (Z.testbit a 0), (Z.testbit b 0); cbn [xorb];
    rewrite ?Z.lxor_nilpotent, ?Z.lxor_0_r, ?Z.lxor_0_l; reflexivity.
Qed.

Lemma crc_shift4_lxor (a b : Z) :
  crc_shift4 (Z.lxor a b) = Z.lxor (crc_shift4 a) (crc_shift4 b).
Proof. unfold crc_shift4. cbn [Nat.iter nat_rect]. rewrite !crc_shift_lxor. reflexivity. Qed.

Lemma crc_shift_shiftl (y k : Z) :
  0 < k -> crc_shift (Z.shiftl y k) = Z.shiftl y (k - 1).
Proof.
  intros Hk. unfold crc_shift.
  rewrite <- Z.bit0_odd, Z.shiftl_spec_low by lia.
  rewrite Z.lxor_0_r, Z.shiftr_shiftl_l by lia. reflexivity.
Qed.

Lemma crc_shift4_shiftl (y : Z) : crc_shift4 (Z.shiftl y 4) = y.
Proof.
  unfold crc_shift4. cbn [Nat.iter nat_rect]. rewrite !crc_shift_shiftl by lia.
  apply Z.shiftl_0_r.
Qed.

Lemma split_low_nibble (x : Z) :
  x = Z.lxor (Z.shiftl (Z.shiftr x 4) 4) (Z.land x 15).
Proof.
  bits n. change 15 with (Z.ones 4).
  destruct (Z.ltb_spec n 4).
  - rewrite Z.shiftl_spec_low, Z.ones_spec_low by lia.
    rewrite andb_true_r. reflexivity.
  - rewrite Z.shiftl_spec, Z.shiftr_spec, Z.ones_spec_high by lia.
    rewrite andb_false_r, xorb_false_r. f_equal. lia.
Qed.

Lemma crc_shift4_nibble (x : Z) :
  crc_shift4 x = Z.lxor (Z.shiftr x 4) (crc_shift4 (Z.land x 15)).
Proof.
  rewrite (split_low_nibble x) at 1.
  rewrite crc_shift4_lxor, crc_shift4_shiftl. reflexivity.
Qed.

Lemma crc_table_complemented (n : Z) :
  0 <= n < 16 ->
  Utils.crc_table_at n = Z.lxor (crc_shift4 (Z.lxor n 15)) 0xF0000000.
Proof.
  intros Hn.
  assert (H : all_below 16
                (fun n => Utils.crc_table_at n
                          =? Z.lxor (crc_shift4 (Z.lxor n 15)) 0xF0000000) = true)
    by (vm_compute; reflexivity).
  apply Z.eqb_eq. exact (all_below_spec 16 _ H n Hn).
Qed.

Lemma land_15_range (x : Z) : 0 <= Z.land x 15 < 16.
Proof.
  change 15 with (Z.ones 4). rewrite Z.land_ones by lia.
  apply Z.mod_pos_bound. reflexivity.
Qed.

Lemma nibble_index (k x : Z) :
  Z.lxor (Z.land (Z.lxor k x) 15) 15
  = Z.land (Z.lxor (Z.lxor k 0xFFFFFFFF) (Z.land x 15)) 15.
Proof.
  bits n. change 15 with (Z.ones 4). change 0xFFFFFFFF with (Z.ones 32).
  destruct (Z.ltb_spec n 4).
  - rewrite !Z.ones_spec_low by lia.
    destruct (Z.testbit k n), (Z.testbit x n); reflexivity.
  - rewrite !Z.ones_spec_high by lia. rewrite !andb_false_r. reflexivity.
Qed.

(** One nibble: the code works on the complement [k] of the register. *)
Lemma crc_nibble (k x : Z) :
  Z.lxor (Z.shiftr k 4) (Utils.crc_table_at (Z.land (Z.lxor k x) 15))
  = Z.lxor (crc_shift4 (Z.lxor (Z.lxor k 0xFFFFFFFF) (Z.land x 15))) 0xFFFFFFFF.
Proof.
  rewrite crc_table_complemented by apply land_15_range.
  rewrite nibble_index.
  rewrite (crc_shift4_nibble (Z.lxor (Z.lxor k 0xFFFFFFFF) (Z.land x 15))).
  rewrite !Z.shiftr_lxor.
  change (Z.shiftr 0xFFFFFFFF 4) with 0x0FFFFFFF.
  replace (Z.shiftr (Z.land x 15) 4) with 0.
  2:{ symmetry. apply Z.shiftr_eq_0; [apply land_15_range|].
      destruct (Z.eq_dec (Z.land x 15) 0) as [->|]; [reflexivity|].
      apply Z.log2_lt_pow2; pose proof (land_15_range x); lia. }
  set (t := crc_shift4 _). set (s := Z.shiftr k 4).
  bits n.
  change 0xF0000000 with (Z.shiftl 15 28).
  change 0x0FFFFFFF with (Z.ones 28). change 0xFFFFFFFF with (Z.ones 32).
  change 15 with (Z.ones 4).
  destruct (Z.ltb_spec n 28).
  - rewrite Z.shiftl_spec_low, !Z.ones_spec_low by lia.
    destruct (Z.testbit s n), (Z.testbit t n); reflexivity.
  - rewrite Z.shiftl_spec, (Z.ones_spec_high 28) by lia.
    destruct (Z.ltb_spec n 32).
    + rewrite !Z.ones_spec_low by lia.
      destruct (Z.testbit s n), (Z.testbit t n); reflexivity.
    + rewrite !Z.ones_spec_high by lia.
      destruct (Z.testbit s n), (Z.testbit t n); reflexivity.
Qed.

Lemma lxor_twice (a m : Z) : Z.lxor (Z.lxor a m) m = a.
Proof. rewrite Z.lxor_assoc, Z.lxor_nilpotent. apply Z.lxor_0_r. Qed.

Lemma crc32_step_complemented (c : Z) (b : byte) :
  Utils.crc32_step (Z.lxor c 0xFFFFFFFF) (byte.unsigned b)
  = Z.lxor (crc_byte c b) 0xFFFFFFFF.
Proof.
  unfold Utils.crc32_step.
  set (d := byte.unsigned b).
  assert (Hd : 0 <= d < 256) by apply byte.unsigned_range.
  set (k := Z.lxor c 0xFFFFFFFF).
  rewrite (crc_nibble k d).
  set (k1 := Z.lxor (crc_shift4 (Z.lxor (Z.lxor k 0xFFFFFFFF) (Z.land d 15)))
               0xFFFFFFFF).
  rewrite (crc_nibble k1 (Z.shiftr d 4)). f_equal.
  subst k1 k. rewrite !lxor_twice.
  change (crc_byte c b) with (crc_shift4 (crc_shift4 (Z.lxor c d))).
  f_equal.
  assert (Hsplit : Z.lxor c d
                   = Z.lxor (Z.lxor c (Z.land d 15)) (Z.shiftl (Z.shiftr d 4) 4)).
  { rewrite (split_low_nibble d) at 1.
    rewrite (Z.lxor_comm (Z.shiftl (Z.shiftr d 4) 4)), Z.lxor_assoc.
    reflexivity. }
  rewrite Hsplit, (crc_shift4_lxor (Z.lxor c (Z.land d 15))), crc_shift4_shiftl.
  f_equal.
  change 15 with (Z.ones 4). rewrite Z.land_ones by lia.
  rewrite Z.shiftr_div_pow2 by lia. apply Z.mod_small.
  change (2 ^ 4) with 16. split; [apply Z.div_pos; lia|].
  apply Z.div_lt_upper_bound; lia.
Qed.

Lemma crc32_loop_spec (data : buffer) (data_size : Z) :
  data_size <= size data ->
  forall (k fuel : nat) (i c : Z),
    0 <= i -> i + Z.of_nat k = data_size -> (k <= fuel)%nat ->
    Utils.crc32_loop fuel data i data_size (Z.lxor c 0xFFFFFFFF)
    = Ok (Z.lxor (fold_left crc_byte (slice data i (Z.of_nat k)) c) 0xFFFFFFFF).
Proof.
  intros Hsz. induction k as [|k IH]; intros fuel i c Hi Hk Hf.
  - destruct fuel; cbn [Utils.crc32_loop];
      replace (i <? data_size) with false by (symmetry; apply Z.ltb_ge; lia);
      reflexivity.
  - destruct fuel as [|fuel]; [lia|]. cbn [Utils.crc32_loop].
    replace (i <? data_size) with true by (symmetry; apply Z.ltb_lt; lia).
    rewrite read8_ok by lia. cbn [bind].
    rewrite crc32_step_complemented.
    rewrite IH by lia.
    rewrite (slice_cons data i (Z.of_nat (S k))) by lia.
    replace (Z.of_nat (S k) - 1) with (Z.of_nat k) by lia.
    reflexivity.
Qed.

(** [crc32] is the CRC-32 of the block: the shift register with the
    reversed polynomial [0xEDB88320], started with all ones, fed the bytes
    low bit first, and complemented at the end. It reads the [data_size]
    bytes and nothing else. *)
Theorem crc32_is_the_bitwise_check :
  forall (data : buffer) (data_size : Z),
    0 <= data_size -> data_size <= size data ->
    Utils.crc32 data data_size = Ok (crc32_bitwise (slice data 0 data_size)).
Proof.
  intros data n Hn Hsz. unfold Utils.crc32, crc32_bitwise.
  change 0 with (Z.lxor 0xFFFFFFFF 0xFFFFFFFF) at 2.
  rewrite (crc32_loop_spec data n Hsz (Z.to_nat n)) by lia.
  rewrite Z2Nat.id by lia. reflexivity.
Qed.

Lemma crc32_is_the_bitwise_check_witness :
  Utils.crc32 (bytes_of [49; 50; 51; 52; 53; 54; 55; 56; 57]) 9 = Ok 0xCBF43926.
Proof.
  rewrite (crc32_is_the_bitwise_check (bytes_of [49; 50; 51; 52; 53; 54; 55; 56; 57]) 9)
    by (vm_compute; congruence).
  vm_compute. reflexivity.
Defined.

(** ** Looking up the options of an IP header *)

Lemma search_option_from_app (l1 l2 : list IP.IPOption) (cl : IP.OptionClass)
  (n : IP.Option_) :
  IP.search_option_from (l1 ++ l2) cl n =
    match IP.search_option_from l1 cl n with
    | Some o => Some o
    | None => IP.search_option_from l2 cl n
    end.
Proof.
  induction l1 as [|o l1 IH]; [reflexivity|].
  cbn [app IP.search_option_from].
  destruct ((IP.op_class o =? _) && (IP.number o =? _)); [reflexivity | exact IH].
Qed.

Lemma Ok_inj {A : Type} (x y : A) : Ok x = Ok y -> x = y.
Proof. intros H. congruence. Qed.

Lemma land_3_range (x : Z) : 0 <= Z.land x 3 < 4.
Proof.
  change 3 with (Z.ones 2). rewrite Z.land_ones by lia.
  apply Z.mod_pos_bound. reflexivity.
Qed.

Lemma padded_size_cases (os : Z) :
  (if negb (wrap 8 (Z.land os 3) =? 0)
   then wrap 32 (os - wrap 8 (Z.land os 3) + 4) else os)
  = (if Z.land os 3 =? 0 then os else wrap 32 (os - Z.land os 3 + 4)).
Proof.
  pose proof (land_3_range os).
  rewrite (wrap_small 8) by (change (2 ^ 8) with 256; lia).
  destruct (Z.land os 3 =? 0); reflexivity.
Qed.

Lemma set_option_inv {PDU : Type} (this this' : IP.IP PDU) (copied : Z)
  (cl : IP.OptionClass) (n : IP.Option_) (data : buffer) (data_size : Z) :
  IP.set_option this copied cl n data data_size = Ok this' ->
  let block := if data_size =? 0 then []
               else byte.of_Z data_size :: slice data 0 data_size in
  let o := {| IP.number := Z.land (IP.Option_value n) 31;
              IP.op_class := Z.land (IP.OptionClass_value cl) 3;
              IP.copied := Z.land (wrap 8 copied) 1;
              IP.optional_data := block |} in
  IP._ip_options this' = IP._ip_options this ++ [o] /\
  IP._options_size this'
    = wrap 32 (IP._options_size this + size (option_bytes o)) /\
  IP._padded_options_size this'
    = (if Z.land (IP._options_size this') 3 =? 0 then IP._options_size this'
       else wrap 32 (IP._options_size this' - Z.land (IP._options_size this') 3 + 4)) /\
  IP._ip this' = IP._ip this /\ IP.inner_pdu this' = IP.inner_pdu this /\
  IP.flag this' = IP.flag this /\
  (data_size <> 0 -> 0 < data_size <= size data).
Proof.
  unfold IP.set_option. intros H.
  destruct (Z.eq_dec data_size 0) as [Hz|Hnz].
  1: subst data_size; change (0 =? 0) with true in *.
  2: replace (data_size =? 0) with false in *
       by (symmetry; apply Z.eqb_neq; exact Hnz).
  all: cbn [negb bind] in H.
  - apply Ok_inj in H. subst this'.
    cbn [IP._ip_options IP._options_size IP._padded_options_size IP._ip
         IP.inner_pdu IP.flag].
    repeat split; try lia; try apply padded_size_cases.
  - unfold read_bytes in H.
    destruct (in_range data 0 data_size) eqn:Hr; [|discriminate].
    apply in_range_inv in Hr. cbn [bind] in H.
    apply Ok_inj in H. subst this'.
    cbn [IP._ip_options IP._options_size IP._padded_options_size IP._ip
         IP.inner_pdu IP.flag].
    assert (Hsz : size (slice data 0 data_size) = data_size)
      by (apply slice_length; lia).
    repeat split; try lia; try apply padded_size_cases.
    unfold option_bytes. cbn [IP.optional_data].
    set (t := IP.type_to_mem _).
    replace (size (t :: byte.of_Z data_size :: slice data 0 data_size))
      with (2 + data_size)
      by (unfold size in *; cbn [length]; rewrite !Nat2Z.inj_succ; lia).
    unfold wrap. change (2 ^ 32) with 4294967296.
    Z.div_mod_to_equations. lia.
Qed.

Lemma option_matches_new (copied : Z) (cl : IP.OptionClass) (n : IP.Option_)
  (block : list byte) (cl' : IP.OptionClass) (n' : IP.Option_) :
  option_matches cl' n'
    {| IP.number := Z.land (IP.Option_value n) 31;
       IP.op_class := Z.land (IP.OptionClass_value cl) 3;
       IP.copied := copied; IP.optional_data := block |}
  = true <-> cl' = cl /\ n' = n.
Proof.
  unfold option_matches. cbn [IP.op_class IP.number].
  split.
  - destruct cl, cl', n, n'; vm_compute; intros H; try discriminate H;
      split; reflexivity.
  - intros [-> ->]. destruct cl, n; vm_compute; reflexivity.
Qed.

Lemma search_option_from_cons (o : IP.IPOption) (l : list IP.IPOption)
  (cl : IP.OptionClass) (n : IP.Option_) :
  IP.search_option_from (o :: l) cl n
  = if option_matches cl n o then Some o else IP.search_option_from l cl n.
Proof. reflexivity. Qed.

(** A lookup after [set_option]: an option set for a class and a number
    is the one [search_option] finds for them, unless the header held one
    for them already, which is found as before; the accessors of the
    option found give back the size (modulo 2^8) and the bytes it was set
    with, and a null pointer when it was set without data. *)
Theorem search_option_after_set_option :
  forall (PDU : Type) (this this' : IP.IP PDU) (copied : Z)
         (cl : IP.OptionClass) (n : IP.Option_) (data : buffer) (data_size : Z),
    IP.set_option this copied cl n data data_size = Ok this' ->
    (forall o, IP.search_option this cl n = Some o ->
               IP.search_option this' cl n = Some o) /\
    (IP.search_option this cl n = None ->
     exists o,
       IP.search_option this' cl n = Some o /\
       IP.copied o = Z.land (wrap 8 copied) 1 /\
       IP.IPOption_data_size o = wrap 8 data_size /\
       IP.IPOption_data_ptr o
       = if data_size =? 0 then None else Some (slice data 0 data_size)).
Proof.
  intros PDU this this' copied cl n data ds H.
  destruct (set_option_inv _ _ _ _ _ _ _ H) as (Hopts & _ & _ & _ & _ & _ & Hds).
  unfold IP.search_option. rewrite Hopts, search_option_from_app.
  split.
  - intros o Ho. rewrite Ho. reflexivity.
  - intros Hnone. rewrite Hnone. rewrite search_option_from_cons.
    rewrite (proj2 (option_matches_new _ cl n _ cl n)) by (split; reflexivity).
    eexists. split; [reflexivity|].
    cbn [IP.copied]. split; [reflexivity|].
    unfold IP.IPOption_data_size, IP.IPOption_data_ptr. cbn [IP.optional_data].
    destruct (Z.eqb_spec ds 0) as [->|Hnz]; [split; reflexivity|].
    split; [|reflexivity].
    specialize (Hds Hnz). f_equal.
    unfold size. cbn [length]. rewrite Nat2Z.inj_succ.
    fold (size (slice data 0 ds)). rewrite slice_length by lia. lia.
Qed.

Lemma search_option_after_set_option_witness :
  exists this' o,
    IP.set_sec_option plain_header (bytes_of [21; 23; 148]) 3 = Ok this' /\
    IP.search_option this' IP.CONTROL IP.SEC = Some o /\
    IP.IPOption_data_size o = 3 /\
    IP.IPOption_data_ptr o = Some (bytes_of [21; 23; 148]).
Proof.
  assert (H : IP.set_option plain_header 1 IP.CONTROL IP.SEC
                (bytes_of [21; 23; 148]) 3 = Ok sec_header)
    by (vm_compute; reflexivity).
  destruct (search_option_after_set_option _ _ _ _ _ _ _ _ H) as [_ Hnew].
  destruct (Hnew eq_refl) as (o & Ho & _ & Hsize & Hptr).
  exists sec_header, o. repeat split; assumption.
Defined.

(** [set_option] leaves the lookup for every other class or number as it
    was. *)
Theorem search_option_other_after_set_option :
  forall (PDU : Type) (this this' : IP.IP PDU) (copied : Z)
         (cl cl' : IP.OptionClass) (n n' : IP.Option_) (data : buffer)
         (data_size : Z),
    IP.set_option this copied cl n data data_size = Ok this' ->
    cl' <> cl \/ n' <> n ->
    IP.search_option this' cl' n' = IP.search_option this cl' n'.
Proof.
  intros PDU this this' copied cl cl' n n' data ds H Hne.
  destruct (set_option_inv _ _ _ _ _ _ _ H) as (Hopts & _).
  unfold IP.search_option. rewrite Hopts, search_option_from_app.
  destruct (IP.search_option_from (IP._ip_options this) cl' n'); [reflexivity|].
  rewrite search_option_from_cons.
  destruct (option_matches cl' n' _) eqn:Hm; [|reflexivity].
  apply option_matches_new in Hm. destruct Hm as [-> ->].
  destruct Hne as [Hne|Hne]; exfalso; apply Hne; reflexivity.
Qed.

Lemma search_option_other_after_set_option_witness :
  IP.search_option sec_header IP.CONTROL IP.NOOP
  = IP.search_option plain_header IP.CONTROL IP.NOOP.
Proof.
  apply (search_option_other_after_set_option _ plain_header sec_header 1
           IP.CONTROL IP.CONTROL IP.SEC IP.NOOP (bytes_of [21; 23; 148]) 3).
  - vm_compute. reflexivity.
  - right. discriminate.
Defined.

(** ** The accessors of a decoded option *)

(** The accessors of an option the decoder read from a buffer: when the
    length byte [L] of a multi-byte option is at least 2, the option
    reports [L - 2] bytes of data, those after the length byte, and the
    loop goes on after them; when it is 1, the option has no data block,
    both accessors are null, and the loop goes on at the length byte
    itself. *)
Theorem decoded_option_accessors :
  forall (buf : buffer) (p boundary : Z),
    0 <= p -> p + 1 < boundary -> boundary <= size buf ->
    IP.is_multibyte (Z.land (wire_byte buf p) 31) = true ->
    1 <= wire_byte buf (p + 1) ->
    wire_byte buf (p + 1) - 2 <= boundary - (p + 2) ->
    exists o,
      IP.read_option buf (wire_byte buf p) p boundary
      = Ok (o, p + wire_byte buf (p + 1)) /\
      IP.IPOption_data_size o = Z.max 0 (wire_byte buf (p + 1) - 2) /\
      IP.IPOption_data_ptr o
      = if wire_byte buf (p + 1) =? 1 then None
        else Some (slice buf (p + 2) (wire_byte buf (p + 1) - 2)).
Proof.
  intros buf p boundary Hp Hpb Hb Hmulti Hone Hfit.
  unfold IP.read_option. rewrite Hmulti.
  rewrite read_option_data_cases by lia.
  assert (H1 : (p + 1 =? boundary) = false) by (apply Z.eqb_neq; lia).
  assert (H2 : (wire_byte buf (p + 1) =? 0) = false) by (apply Z.eqb_neq; lia).
  assert (H3 : (boundary - (p + 1) <? wire_byte buf (p + 1) - 1) = false)
    by (apply Z.ltb_ge; lia).
  rewrite H1, H2, H3. cbn [bind].
  pose proof (wire_byte_range buf (p + 1)) as Hr.
  set (L := wire_byte buf (p + 1)) in *.
  eexists. split; [f_equal; f_equal; lia|].
  unfold IP.IPOption_data_size, IP.IPOption_data_ptr.
  cbn [IP.type_of_mem IP.optional_data].
  destruct (Z.eqb_spec L 1) as [HL|HL].
  - rewrite HL. change (1 - 1) with 0. rewrite slice_nil. split; reflexivity.
  - rewrite (slice_cons buf (p + 1) (L - 1)) by lia.
    split.
    + unfold size. cbn [length]. rewrite Nat2Z.inj_succ.
      fold (size (slice buf (p + 1 + 1) (L - 1 - 1))).
      rewrite slice_length by lia.
      rewrite wrap_small by (change (2 ^ 8) with 256; lia). lia.
    + do 2 f_equal; lia.
Qed.

Lemma decoded_option_accessors_witness :
  exists o,
    IP.read_option sec_option_buffer 130 20 24 = Ok (o, 24) /\
    IP.IPOption_data_size o = 2 /\
    IP.IPOption_data_ptr o = Some (bytes_of [7; 9]).
Proof.
  destruct (decoded_option_accessors sec_option_buffer 20 24) as (o & H1 & H2 & H3);
    try (vm_compute; congruence).
  exists o. repeat split; assumption.
Defined.

(** ** The bookkeeping of the options *)

Lemma options_bytes_app (l1 l2 : list IP.IPOption) :
  options_bytes (l1 ++ l2) = options_bytes l1 ++ options_bytes l2.
Proof. unfold options_bytes. apply flat_map_app. Qed.

Lemma built_invariant {PDU : Type} (le : bool) (this : IP.IP PDU) :
  built le this ->
  IP._options_size this = wrap 32 (size (options_bytes (IP._ip_options this))) /\
  IP._padded_options_size this = padded_size (IP._options_size this).
Proof.
  induction 1 as [dst src child | this h _ IH | this this' c cl n data ds _ IH Hset].
  - split; reflexivity.
  - exact IH.
  - destruct IH as [Hos _].
    destruct (set_option_inv _ _ _ _ _ _ _ Hset) as (Hopts & Hos' & Hpad & _).
    split; [|exact Hpad].
    rewrite Hos', Hopts, options_bytes_app, size_app, Hos.
    unfold options_bytes at 3. cbn [flat_map]. rewrite app_nil_r.
    apply wrap_add_l.
Qed.

Lemma padded_size_small (n : Z) :
  0 <= n <= 4294967292 ->
  padded_size n = 4 * ((n + 3) / 4).
Proof.
  intros Hn. unfold padded_size.
  change 3 with (Z.ones 2) at 1 2. rewrite Z.land_ones by lia.
  change (2 ^ 2) with 4.
  destruct (Z.eqb_spec (n mod 4) 0) as [H0|H0].
  - Z.div_mod_to_equations. lia.
  - rewrite wrap_small.
    + Z.div_mod_to_equations. lia.
    + change (2 ^ 32) with 4294967296. Z.div_mod_to_equations. lia.
Qed.

(** The bookkeeping [set_option] keeps: in a header built from the
    constructor by setters and [set_option] calls, [_options_size] counts
    the bytes of the options (modulo 2^32) and, as long as these are at
    most 40, the padded size is that count rounded up to a multiple of
    four, the header size is 20 more, and the header is one the serializer
    accepts. *)
Theorem built_header_bookkeeping :
  forall (host_le : bool) (PDU : Type) (this : IP.IP PDU),
    built host_le this ->
    let n := size (options_bytes (IP._ip_options this)) in
    IP._options_size this = wrap 32 n /\
    (n <= 40 ->
     IP._options_size this = n /\
     IP._padded_options_size this = 4 * ((n + 3) / 4) /\
     IP.header_size this = 20 + 4 * ((n + 3) / 4) /\
     options_wf this).
Proof.
  intros le PDU this Hb n.
  destruct (built_invariant le this Hb) as [Hos Hpad]. fold n in Hos.
  split; [exact Hos|]. intros Hn.
  pose proof (size_nonneg (options_bytes (IP._ip_options this))) as Hn0.
  fold n in Hn0.
  assert (Hos' : IP._options_size this = n).
  { rewrite Hos. apply wrap_small. change (2 ^ 32) with 4294967296. lia. }
  assert (Hpad' : IP._padded_options_size this = 4 * ((n + 3) / 4)).
  { rewrite Hpad, Hos'. apply padded_size_small. lia. }
  split; [exact Hos'|]. split; [exact Hpad'|].
  split.
  - unfold IP.header_size. rewrite Hpad'. change IP.sizeof_iphdr with 20.
    apply wrap_small. change (2 ^ 32) with 4294967296.
    Z.div_mod_to_equations. lia.
  - unfold options_wf. fold n. rewrite Hos', Hpad'.
    repeat split; try reflexivity; Z.div_mod_to_equations; lia.
Qed.

Lemma built_header_bookkeeping_witness :
  IP._options_size sec_header = 5 /\
  IP._padded_options_size sec_header = 8 /\
  IP.header_size sec_header = 28.
Proof.
  assert (Hb : built true sec_header).
  { apply (built_set_option true plain_header sec_header 1 IP.CONTROL IP.SEC
             (bytes_of [21; 23; 148]) 3).
    - apply built_new.
    - vm_compute. reflexivity. }
  destruct (built_header_bookkeeping true _ sec_header Hb) as [_ H].
  destruct H as (H1 & H2 & H3 & _); [vm_compute; congruence|].
  repeat split; assumption.
Defined.

(** ** The options a decoded IP header holds *)

Lemma type_byte_recombined (t : Z) (data : list byte) :
  0 <= t < 256 ->
  IP.type_to_mem (IP.type_of_mem t data) = byte.of_Z t.
Proof.
  intros Ht. unfold IP.type_to_mem, IP.type_of_mem.
  cbn [IP.number IP.op_class IP.copied]. f_equal.
  assert (H : all_below 256
                (fun t => Z.lor (Z.land (Z.land t 31) 31)
                            (Z.lor (Z.shiftl (Z.land (Z.land (Z.shiftr t 5) 3) 3) 5)
                                   (Z.shiftl (Z.land (Z.shiftr t 7) 1) 7)) =? t)
              = true) by (vm_compute; reflexivity).
  apply Z.eqb_eq. exact (all_below_spec 256 _ H t Ht).
Qed.

Lemma wire_byte_of_Z (buf : buffer) (p : Z) :
  byte.of_Z (wire_byte buf p) = nth (Z.to_nat p) buf Byte.x00.
Proof. unfold wire_byte, byte_at. apply byte.of_Z_unsigned. Qed.

Lemma read_option_bytes (buf : buffer) (p boundary p' : Z) (o : IP.IPOption) :
  0 <= p -> p < boundary -> boundary <= size buf ->
  IP.read_option buf (wire_byte buf p) p boundary = Ok (o, p') ->
  p < p' /\ p' <= boundary /\ option_bytes o = slice buf p (p' - p).
Proof.
  intros Hp Hpb Hb. unfold IP.read_option.
  pose proof (wire_byte_range buf p) as Ht.
  destruct (IP.is_multibyte (Z.land (wire_byte buf p) 31)).
  - rewrite read_option_data_cases by lia.
    pose proof (wire_byte_range buf (p + 1)) as Hr.
    destruct (p + 1 =? boundary); [discriminate|].
    destruct (wire_byte buf (p + 1) =? 0) eqn:Hz; [discriminate|].
    apply Z.eqb_neq in Hz.
    destruct (boundary - (p + 1) <? wire_byte buf (p + 1) - 1) eqn:Hlt;
      [discriminate|].
    apply Z.ltb_ge in Hlt. cbn [bind]. intros H.
    apply Ok_inj in H. injection H as <- <-.
    split; [lia|]. split; [lia|].
    unfold option_bytes. cbn [IP.optional_data].
    rewrite type_byte_recombined, wire_byte_of_Z by exact Ht.
    rewrite (slice_cons buf p) by lia. cbn [IP.type_of_mem IP.optional_data].
    do 2 f_equal. lia.
  - cbn [bind]. intros H. apply Ok_inj in H. injection H as <- <-.
    split; [lia|]. split; [lia|].
    unfold option_bytes.
    rewrite type_byte_recombined, wire_byte_of_Z by exact Ht.
    rewrite (slice_cons buf p) by lia. cbn [IP.type_of_mem IP.optional_data].
    replace (p + 1 - p - 1) with 0 by lia. rewrite slice_nil. reflexivity.
Qed.

Lemma read_options_bytes (buf : buffer) (boundary : Z) :
  boundary <= size buf ->
  forall (fuel : nat) (p : Z) (opts opts' : list IP.IPOption) (osz osz' : Z),
    0 <= p -> p <= boundary -> 0 <= osz < 2 ^ 32 ->
    IP.read_options fuel buf p boundary opts osz = Ok (opts', osz') ->
    exists new p',
      opts' = opts ++ new /\ p <= p' /\ p' <= boundary /\
      options_bytes new = slice buf p (p' - p) /\
      osz' = wrap 32 (osz + (p' - p)) /\
      (p' = boundary \/ wire_byte buf p' = 0).
Proof.
  intros Hb. induction fuel as [|fuel IH];
    intros p opts opts' osz osz' Hp Hpb Hosz H.
  - cbn [IP.read_options] in H.
    destruct (p <? boundary) eqn:Hlt; cbn [negb] in H.
    + apply Z.ltb_lt in Hlt. rewrite read8_wire in H by lia. cbn [bind] in H.
      destruct (wire_byte buf p =? 0) eqn:Hz; [|discriminate].
      apply Z.eqb_eq in Hz. apply Ok_inj in H. injection H as <- <-.
      exists [], p. rewrite app_nil_r, Z.sub_diag, slice_nil, Z.add_0_r.
      rewrite wrap_small by lia. repeat split; lia.
    + apply Z.ltb_ge in Hlt. apply Ok_inj in H. injection H as <- <-.
      exists [], p. rewrite app_nil_r, Z.sub_diag, slice_nil, Z.add_0_r.
      rewrite wrap_small by lia. repeat split; lia.
  - cbn [IP.read_options] in H.
    destruct (p <? boundary) eqn:Hlt; cbn [negb] in H.
    + apply Z.ltb_lt in Hlt. rewrite read8_wire in H by lia. cbn [bind] in H.
      destruct (wire_byte buf p =? 0) eqn:Hz.
      * apply Z.eqb_eq in Hz. apply Ok_inj in H. injection H as <- <-.
        exists [], p. rewrite app_nil_r, Z.sub_diag, slice_nil, Z.add_0_r.
        rewrite wrap_small by lia. repeat split; lia.
      * destruct (IP.read_option buf (wire_byte buf p) p boundary)
          as [[o p1]| | | |] eqn:Ho; try discriminate.
        cbn [bind] in H.
        destruct (read_option_bytes buf p boundary p1 o Hp Hlt Hb Ho)
          as (Hlt1 & Hle1 & Hbytes).
        apply IH in H; try lia.
        2:{ apply wrap_range. lia. }
        destruct H as (new & p' & Hopts & Hpp & Hpb' & Hnew & Hosz' & Hend).
        exists (o :: new), p'.
        split; [rewrite Hopts, <- app_assoc; reflexivity|].
        split; [lia|]. split; [lia|].
        split.
        { change (options_bytes (o :: new))
            with (option_bytes o ++ options_bytes new).
          rewrite Hbytes, Hnew.
          replace (p' - p) with ((p1 - p) + (p' - p1)) by lia.
          rewrite (slice_app buf p (p1 - p) (p' - p1)) by lia.
          do 2 f_equal. lia. }
        split; [|exact Hend].
        rewrite Hosz'. rewrite wrap_add_l. f_equal.
        assert (Hs : size (IP.optional_data o) + 1 = p1 - p).
        { assert (Hl : size (option_bytes o) = p1 - p)
            by (rewrite Hbytes; apply slice_length; lia).
          unfold option_bytes, size in Hl. cbn [length] in Hl.
          unfold size. lia. }
        lia.
    + apply Z.ltb_ge in Hlt. apply Ok_inj in H. injection H as <- <-.
      exists [], p. rewrite app_nil_r, Z.sub_diag, slice_nil, Z.add_0_r.
      rewrite wrap_small by lia. repeat split; lia.
Qed.

Lemma IP_of_buffer_inv (le : bool) {PDU : Type}
  (TCP UDP ICMP RawPDU : buffer -> Z -> Z -> outcome PDU)
  (buf : buffer) (total_sz : Z) (h : IP.IP PDU) :
  total_sz <= size buf ->
  IP.IP_of_buffer le TCP UDP ICMP RawPDU buf total_sz = Ok h ->
  20 <= wire_ihl buf * 4 /\ wire_ihl buf * 4 <= total_sz /\
  IP.flag h = IP.PROTO_IP /\
  IP._ip h = IP.iphdr_of_mem le (slice buf 0 20) /\
  IP._padded_options_size h = wire_ihl buf * 4 - 20 /\
  IP.read_options (Z.to_nat (wire_ihl buf * 4 - 20)) buf 20 (wire_ihl buf * 4) [] 0
  = Ok (IP._ip_options h, IP._options_size h) /\
  IP.read_inner TCP UDP ICMP RawPDU
    (IP.protocol (IP.iphdr_of_mem le (slice buf 0 20))) buf
    (wire_ihl buf * 4) (total_sz - wire_ihl buf * 4) = Ok (IP.inner_pdu h).
Proof.
  intros Hsz H. unfold IP.IP_of_buffer in H.
  apply bind_Ok in H. destruct H as (h0 & Hh0 & H).
  apply bind_Ok in H. destruct H as (inner & Hin & H).
  apply Ok_inj in H. subst h.
  unfold IP.IP_header_of_buffer in Hh0.
  rewrite (read_header_cases le buf total_sz Hsz) in Hh0.
  destruct (total_sz <? 20) eqn:H1; [discriminate|].
  destruct (total_sz <? wire_ihl buf * 4) eqn:H2; [discriminate|].
  destruct (wire_ihl buf * 4 <? 20) eqn:H3; [discriminate|].
  apply Z.ltb_ge in H1. apply Z.ltb_ge in H2. apply Z.ltb_ge in H3.
  cbn [bind] in Hh0. rewrite ihl_of_mem in Hh0.
  change IP.sizeof_uint32_t with 4 in *. change IP.sizeof_iphdr with 20 in *.
  apply bind_Ok in Hh0. destruct Hh0 as ([opts osz] & Hopts & Hh0).
  apply Ok_inj in Hh0. subst h0.
  unfold IP.head_len in Hin. cbn [IP._ip] in Hin. rewrite ihl_of_mem in Hin.
  cbn [IP.set_inner_pdu IP.flag IP._ip IP._padded_options_size IP._ip_options
       IP._options_size IP.inner_pdu].
  repeat split; try lia; assumption.
Qed.

(** The bookkeeping of a decoded header: the options are the bytes of the
    buffer from offset 20 on, [_options_size] of them, which ends at the
    end of the header or before a zero byte; the padded size is what the
    header length leaves after the fixed header; so the header size is the
    one the buffer declares, and the header is one the serializer
    accepts. *)
Theorem decoded_header_bookkeeping :
  forall (host_le : bool) (PDU : Type)
         (TCP UDP ICMP RawPDU : buffer -> Z -> Z -> outcome PDU)
         (buf : buffer) (total_sz : Z) (h : IP.IP PDU),
    total_sz <= size buf ->
    IP.IP_of_buffer host_le TCP UDP ICMP RawPDU buf total_sz = Ok h ->
    options_bytes (IP._ip_options h) = slice buf 20 (IP._options_size h) /\
    0 <= IP._options_size h <= IP._padded_options_size h /\
    (IP._options_size h = IP._padded_options_size h \/
     wire_byte buf (20 + IP._options_size h) = 0) /\
    IP._padded_options_size h = wire_ihl buf * 4 - 20 /\
    IP.header_size h = wire_ihl buf * 4 /\
    IP.header_size h <= total_sz /\
    options_wf h.
Proof.
  intros le PDU TCP UDP ICMP RawPDU buf total_sz h Hsz H.
  destruct (IP_of_buffer_inv le TCP UDP ICMP RawPDU buf total_sz h Hsz H)
    as (Hlo & Hhi & _ & _ & Hpad & Hopts & _).
  pose proof (wire_ihl_range buf) as Hihl.
  destruct (read_options_bytes buf (wire_ihl buf * 4) ltac:(lia) _ 20 [] _ 0 _
              ltac:(lia) ltac:(lia) ltac:(lia) Hopts)
    as (new & p' & Hnew & Hp1 & Hp2 & Hbytes & Hosz & Hend).
  cbn [app] in Hnew. subst new.
  assert (Hos : IP._options_size h = p' - 20).
  { rewrite Hosz. apply wrap_small. change (2 ^ 32) with 4294967296. lia. }
  assert (Hhs : IP.header_size h = wire_ihl buf * 4).
  { unfold IP.header_size. rewrite Hpad. change IP.sizeof_iphdr with 20.
    replace (20 + (wire_ihl buf * 4 - 20)) with (wire_ihl buf * 4) by lia.
    apply wrap_small. change (2 ^ 32) with 4294967296. lia. }
  rewrite Hos, Hpad, Hhs.
  split; [exact Hbytes|]. split; [lia|].
  split; [destruct Hend as [->|Hz]; [left; lia | right; rewrite <- Hz; f_equal; lia]|].
  split; [reflexivity|]. split; [reflexivity|]. split; [lia|].
  unfold options_wf. rewrite Hos, Hpad, Hbytes.
  rewrite slice_length by lia.
  repeat split; try lia.
  replace (wire_ihl buf * 4 - 20) with ((wire_ihl buf - 5) * 4) by lia.
  apply Z.mod_mul. lia.
Qed.

Lemma decoded_header_bookkeeping_witness :
  exists h,
    IP.IP_of_buffer true payload_unit payload_unit payload_unit payload_unit
      sec_option_buffer 24 = Ok h /\
    IP._options_size h = 4 /\ IP.header_size h = 24.
Proof.
  assert (H : IP.IP_of_buffer true payload_unit payload_unit payload_unit
                payload_unit sec_option_buffer 24
              = Ok (value_or (IP.IP_of_buffer true payload_unit payload_unit
                                payload_unit payload_unit sec_option_buffer 24)
                      plain_header))
    by (vm_compute; reflexivity).
  eexists. split; [exact H|].
  pose proof (decoded_header_bookkeeping true _ _ _ _ _ sec_option_buffer 24 _
                ltac:(vm_compute; congruence) H) as (_ & _ & _ & _ & Hhs & _).
  split; [vm_compute; reflexivity | exact Hhs].
Defined.

(** ** Serializing a decoded IP header *)

Lemma first_byte_recombined (b : byte) :
  byte.of_Z (Z.lor (Z.land (Z.land (byte.unsigned b) 15) 15)
               (Z.shiftl (Z.land (Z.shiftr (byte.unsigned b) 4) 15) 4)) = b.
Proof.
  assert (H : all_below 256
                (fun t => Z.lor (Z.land (Z.land t 15) 15)
                            (Z.shiftl (Z.land (Z.shiftr t 4) 15) 4) =? t) = true)
    by (vm_compute; reflexivity).
  rewrite (proj1 (Z.eqb_eq _ _)
             (all_below_spec 256 _ H (byte.unsigned b) (byte.unsigned_range b))).
  apply byte.of_Z_unsigned.
Qed.

Lemma to_mem_of_mem_2 (le : bool) (x y : byte) :
  Endian.to_mem le 2 (Endian.of_mem le [x; y]) = [x; y].
Proof. exact (to_mem_of_mem le [x; y]). Qed.

Lemma to_mem_of_mem_4 (le : bool) (a b c d : byte) :
  Endian.to_mem le 4 (Endian.of_mem le [a; b; c; d]) = [a; b; c; d].
Proof. exact (to_mem_of_mem le [a; b; c; d]). Qed.

Lemma iphdr_to_mem_with_tot_len (le : bool) (bs : list byte) (t : Z) :
  length bs = 20%nat ->
  IP.iphdr_to_mem le (with_tot_len (IP.iphdr_of_mem le bs) t)
  = splice bs 2 (Endian.to_mem le 2 t).
Proof.
  intros Hl.
  destruct bs as [|b0 bs]; [discriminate Hl|].
  destruct bs as [|b1 bs]; [discriminate Hl|].
  destruct bs as [|b2 bs]; [discriminate Hl|].
  destruct bs as [|b3 bs]; [discriminate Hl|].
  destruct bs as [|b4 bs]; [discriminate Hl|].
  destruct bs as [|b5 bs]; [discriminate Hl|].
  destruct bs as [|b6 bs]; [discriminate Hl|].
  destruct bs as [|b7 bs]; [discriminate Hl|].
  destruct bs as [|b8 bs]; [discriminate Hl|].
  destruct bs as [|b9 bs]; [discriminate Hl|].
  destruct bs as [|b10 bs]; [discriminate Hl|].
  destruct bs as [|b11 bs]; [discriminate Hl|].
  destruct bs as [|b12 bs]; [discriminate Hl|].
  destruct bs as [|b13 bs]; [discriminate Hl|].
  destruct bs as [|b14 bs]; [discriminate Hl|].
  destruct bs as [|b15 bs]; [discriminate Hl|].
  destruct bs as [|b16 bs]; [discriminate Hl|].
  destruct bs as [|b17 bs]; [discriminate Hl|].
  destruct bs as [|b18 bs]; [discriminate Hl|].
  destruct bs as [|b19 bs]; [discriminate Hl|].
  destruct bs; [|discriminate Hl]. clear Hl.
  destruct (to_mem_2 le t) as (t0 & t1 & Et).
  unfold IP.iphdr_to_mem, with_tot_len, IP.iphdr_of_mem, byte_at.
  cbn [IP.ihl IP.version IP.tos IP.tot_len IP.id IP.frag_off IP.ttl
       IP.protocol IP.check IP.saddr IP.daddr nth].
  match goal with
  | |- context [slice ?l 4 2] =>
      change (slice l 4 2) with [b4; b5];
      change (slice l 6 2) with [b6; b7];
      change (slice l 10 2) with [b10; b11];
      change (slice l 12 4) with [b12; b13; b14; b15];
      change (slice l 16 4) with [b16; b17; b18; b19]
  end.
  rewrite !to_mem_of_mem_2, !to_mem_of_mem_4, first_byte_recombined.
  rewrite !byte.of_Z_unsigned. rewrite Et. reflexivity.
Qed.

Lemma splice_app_l (a b : list byte) (off : Z) (d : list byte) :
  0 <= off -> off + size d <= size a ->
  splice (a ++ b) off d = splice a off d ++ b.
Proof.
  intros Hoff Hle. unfold splice, size in *.
  rewrite firstn_app, skipn_app.
  replace (Z.to_nat off - length a)%nat with 0%nat by lia.
  replace (Z.to_nat off + length d - length a)%nat with 0%nat by lia.
  cbn [firstn skipn]. rewrite app_nil_r, <- !app_assoc. reflexivity.
Qed.

Lemma write_header_fields (le : bool) {PDU : Type} (PDU_flag : PDU -> Z)
  (this this1 : IP.IP PDU) (buf buf1 : buffer) (total_sz : Z) :
  IP.write_header le PDU_flag this buf total_sz = Ok (this1, buf1) ->
  IP.inner_pdu this = None ->
  IP.ihl (IP._ip this1) = IP.ihl (IP._ip this) ->
  IP._ip this1
  = with_tot_len (IP._ip this) (Endian.host_to_be le 2 (wrap 16 total_sz)).
Proof.
  intros H Hin Hihl.
  destruct (write_header_frame le PDU_flag this this1 buf buf1 total_sz H)
    as (Hun & Htl & _ & Hpr).
  destruct (Hpr Hin) as [_ Hproto].
  destruct Hun as (Hv & Ht & Hi & Hf & Htt & Hc & Hs & Hd & _).
  unfold with_tot_len. rewrite <- Hihl, <- Hv, <- Ht, <- Hi, <- Hf, <- Htt,
    <- Hc, <- Hs, <- Hd, <- Hproto, <- Htl.
  destruct (IP._ip this1). reflexivity.
Qed.

(** Decoding a header and serializing it again, without parent, gives the
    header back: the bytes of the buffer up to the end of the options
    read, with the total length replaced by the size given, and zero
    bytes up to the end of the header. So a buffer that declares its own
    size and is padded with zero bytes comes back as it is. *)
Theorem reserialized_header_is_the_buffer :
  forall (host_le : bool) (PDU : Type) (PDU_flag : PDU -> Z)
         (TCP UDP ICMP RawPDU : buffer -> Z -> Z -> outcome PDU)
         (buf out : buffer) (total_sz : Z) (h : IP.IP PDU),
    total_sz = wire_ihl buf * 4 ->
    total_sz <= size buf -> total_sz <= size out ->
    IP.IP_of_buffer host_le TCP UDP ICMP RawPDU buf total_sz = Ok h ->
    exists h' out',
      IP.write_serialization host_le PDU_flag h out total_sz false
      = Ok (h', out') /\
      slice out' 0 total_sz
      = splice (slice buf 0 (20 + IP._options_size h)) 2
          (Endian.be_bytes 2 total_sz)
        ++ repeat Byte.x00 (Z.to_nat (total_sz - 20 - IP._options_size h)) /\
      (wire_tot_len buf = total_sz ->
       slice buf (20 + IP._options_size h) (total_sz - 20 - IP._options_size h)
       = repeat Byte.x00 (Z.to_nat (total_sz - 20 - IP._options_size h)) ->
       slice out' 0 total_sz = slice buf 0 total_sz).
Proof.
  intros le PDU PDU_flag TCP UDP ICMP RawPDU buf out total_sz h Htot Hsz Hout H.
  destruct (IP_of_buffer_inv le TCP UDP ICMP RawPDU buf total_sz h Hsz H)
    as (Hlo & Hhi & _ & Hip & Hpad & Hopts & Hinner).
  pose proof (wire_ihl_range buf) as Hihl.
  destruct (read_options_bytes buf (wire_ihl buf * 4) ltac:(lia) _ 20 [] _ 0 _
              ltac:(lia) ltac:(lia) ltac:(lia) Hopts)
    as (new & p' & Hnew & Hp1 & Hp2 & Hbytes & Hosz & _).
  cbn [app] in Hnew. subst new.
  assert (Hos : IP._options_size h = p' - 20).
  { rewrite Hosz. apply wrap_small. change (2 ^ 32) with 4294967296. lia. }
  rewrite <- Hos in Hbytes.
  assert (Hnone : IP.inner_pdu h = None).
  { unfold IP.read_inner in Hinner.
    replace (total_sz - wire_ihl buf * 4 =? 0) with true in Hinner
      by (symmetry; apply Z.eqb_eq; lia).
    apply Ok_inj in Hinner. symmetry. exact Hinner. }
  assert (Hwf : options_wf h).
  { unfold options_wf. rewrite Hbytes, Hpad, slice_length by lia.
    repeat split; try lia.
    replace (wire_ihl buf * 4 - 20) with ((wire_ihl buf - 5) * 4) by lia.
    apply Z.mod_mul. lia. }
  destruct (write_header_ok le PDU_flag h out total_sz Hwf ltac:(lia)
              ltac:(lia) Hout) as (h1 & Hwh & Hihl1).
  assert (Hihl1' : IP.ihl (IP._ip h1) = IP.ihl (IP._ip h)).
  { rewrite Hihl1, Hip, ihl_of_mem, Hpad.
    replace (20 + (wire_ihl buf * 4 - 20)) with (wire_ihl buf * 4) by lia.
    apply Z.div_mul. lia. }
  pose proof (write_header_fields le PDU_flag h h1 out _ total_sz Hwh Hnone Hihl1')
    as Hh1.
  unfold IP.write_serialization. rewrite Hwh. cbn [bind andb].
  eexists _, _. split; [reflexivity|].
  assert (Hdata :
    IP.iphdr_to_mem le (IP._ip h1) ++ options_bytes (IP._ip_options h)
      ++ repeat Byte.x00
           (Z.to_nat (IP._padded_options_size h - IP._options_size h))
    = splice (slice buf 0 (20 + IP._options_size h)) 2
        (Endian.be_bytes 2 total_sz)
      ++ repeat Byte.x00 (Z.to_nat (total_sz - 20 - IP._options_size h))).
  { rewrite Hh1, Hip, iphdr_to_mem_with_tot_len by (apply length_slice; lia).
    rewrite to_mem_host_to_be, Hbytes.
    rewrite (wrap_small 16) by (change (2 ^ 16) with 65536; lia).
    rewrite (slice_app buf 0 20 (IP._options_size h)) by lia.
    rewrite splice_app_l.
    2: lia.
    2:{ rewrite slice_length by lia.
        unfold size, Endian.be_bytes. rewrite length_rev, length_le_split. lia. }
    rewrite <- app_assoc. do 3 f_equal. lia. }
  rewrite Hdata.
  set (data := splice (slice buf 0 (20 + IP._options_size h)) 2
                 (Endian.be_bytes 2 total_sz)
               ++ repeat Byte.x00 (Z.to_nat (total_sz - 20 - IP._options_size h))).
  assert (Hsd : size data = total_sz).
  { unfold data. rewrite size_app, size_splice, slice_length, size_repeat; try lia.
    rewrite slice_length by lia.
    unfold size, Endian.be_bytes. rewrite length_rev, length_le_split. lia. }
  split.
  - rewrite <- Hsd at 1. apply (slice_splice_same out 0 data); lia.
  - intros Hdecl Hzero.
    rewrite <- Hsd at 1. rewrite (slice_splice_same out 0 data) by lia.
    unfold data. rewrite <- Hzero.
    replace (Endian.be_bytes 2 total_sz) with (slice buf 2 2).
    2:{ unfold wire_tot_len in Hdecl. rewrite <- Hdecl.
        pose proof (be_bytes_be_value (slice buf 2 2)) as E.
        rewrite length_slice in E by lia. symmetry. exact E. }
    replace (splice (slice buf 0 (20 + IP._options_size h)) 2 (slice buf 2 2))
      with (slice buf 0 (20 + IP._options_size h)).
    + replace (slice buf 0 total_sz)
        with (slice buf 0 ((20 + IP._options_size h)
                           + (total_sz - 20 - IP._options_size h)))
        by (f_equal; lia).
      rewrite (slice_app buf 0 (20 + IP._options_size h)
                 (total_sz - 20 - IP._options_size h)) by lia.
      reflexivity.
    + assert (E : slice buf 0 (20 + IP._options_size h)
                  = slice buf 0 2 ++ slice buf 2 2
                    ++ slice buf 4 (16 + IP._options_size h)).
      { replace (20 + IP._options_size h)
          with (2 + (2 + (16 + IP._options_size h))) by lia.
        rewrite (slice_app buf 0 2 (2 + (16 + IP._options_size h))) by lia.
        rewrite (slice_app buf (0 + 2) 2 (16 + IP._options_size h)) by lia.
        reflexivity. }
      rewrite E.
      pose proof (splice_app_mid (slice buf 0 2) (slice buf 2 2)
                    (slice buf 4 (16 + IP._options_size h)) (slice buf 2 2)
                    eq_refl) as E3.
      rewrite (slice_length buf 0 2) in E3 by lia.
      symmetry. exact E3.
Qed.

Lemma reserialized_header_is_the_buffer_witness :
  exists h h' out',
    IP.IP_of_buffer true payload_unit payload_unit payload_unit payload_unit
      sec_option_buffer 24 = Ok h /\
    IP.write_serialization true (fun _ : list byte => 255) h
      (repeat Byte.xff 24) 24 false = Ok (h', out') /\
    slice out' 0 24 = slice sec_option_buffer 0 24.
Proof.
  assert (H : IP.IP_of_buffer true payload_unit payload_unit payload_unit
                payload_unit sec_option_buffer 24
              = Ok (value_or (IP.IP_of_buffer true payload_unit payload_unit
                                payload_unit payload_unit sec_option_buffer 24)
                      plain_header))
    by (vm_compute; reflexivity).
  destruct (reserialized_header_is_the_buffer true (list byte)
              (fun _ : list byte => 255) payload_unit payload_unit payload_unit
              payload_unit sec_option_buffer (repeat Byte.xff 24) 24 _
              ltac:(vm_compute; reflexivity) ltac:(vm_compute; congruence)
              ltac:(vm_compute; congruence) H)
    as (h' & out' & Hw & _ & Hsame).
  eexists _, h', out'. split; [exact H|]. split; [exact Hw|].
  apply Hsame; vm_compute; reflexivity.
Defined.

(** ** A constructed IP header on the wire *)

Lemma write_header_bytes (le : bool) {PDU : Type} (PDU_flag : PDU -> Z)
  (this this1 : IP.IP PDU) (buf buf1 : buffer) (total_sz : Z) :
  IP.write_header le PDU_flag this buf total_sz = Ok (this1, buf1) ->
  IP.inner_pdu this = None ->
  IP.iphdr_to_mem le (IP._ip this1)
  = [byte.of_Z (Z.lor (Z.land (IP.ihl (IP._ip this1)) 15)
                  (Z.shiftl (Z.land (IP.version (IP._ip this)) 15) 4));
     byte.of_Z (IP.tos (IP._ip this))]
    ++ Endian.be_bytes 2 (wrap 16 total_sz)
    ++ Endian.to_mem le 2 (IP.id (IP._ip this))
    ++ Endian.to_mem le 2 (IP.frag_off (IP._ip this))
    ++ [byte.of_Z (IP.ttl (IP._ip this)); byte.of_Z (IP.protocol (IP._ip this))]
    ++ Endian.to_mem le 2 (IP.check (IP._ip this))
    ++ Endian.to_mem le 4 (IP.saddr (IP._ip this))
    ++ Endian.to_mem le 4 (IP.daddr (IP._ip this)).
Proof.
  intros H Hin.
  destruct (write_header_frame le PDU_flag this this1 buf buf1 total_sz H)
    as (Hun & Htl & _ & Hpr).
  destruct (Hpr Hin) as [_ Hproto].
  destruct Hun as (Hv & Ht & Hi & Hf & Htt & Hc & Hs & Hd & _).
  unfold IP.iphdr_to_mem.
  rewrite Hv, Ht, Hi, Hf, Htt, Hc, Hs, Hd, Hproto, Htl, to_mem_host_to_be.
  reflexivity.
Qed.

Lemma byte_of_Z_wrap (v : Z) : byte.of_Z (wrap 8 v) = byte.of_Z v.
Proof.
  apply byte.unsigned_inj. rewrite !byte.unsigned_of_Z. unfold byte.wrap, wrap.
  apply Z.mod_mod. discriminate.
Qed.

Lemma be_bytes_wrap (n : nat) (v : Z) :
  Endian.be_bytes n (wrap (Z.of_nat n * 8) v) = Endian.be_bytes n v.
Proof. unfold Endian.be_bytes, wrap. rewrite <- le_split_mod. reflexivity. Qed.

Lemma to_mem_wrap (le : bool) (n : nat) (v : Z) :
  Endian.to_mem le n (wrap (Z.of_nat n * 8) v) = Endian.to_mem le n v.
Proof.
  unfold Endian.to_mem, Endian.be_bytes, wrap. rewrite <- le_split_mod.
  reflexivity.
Qed.

Lemma be_bytes_2_wrap (v : Z) : Endian.be_bytes 2 (wrap 16 v) = Endian.be_bytes 2 v.
Proof. exact (be_bytes_wrap 2 v). Qed.

Lemma to_mem_4_wrap (le : bool) (v : Z) :
  Endian.to_mem le 4 (wrap 32 v) = Endian.to_mem le 4 v.
Proof. exact (to_mem_wrap le 4 v). Qed.

(** The bytes of a constructed header: on either kind of host, a header
    made by the constructor and the setters of the type of service, the
    time to live, the identification and the fragment offset is serialized
    as version 4 and a header length of 5 words, the type of service, the
    size given, the identification and the fragment offset in big-endian
    order, the time to live, a zero protocol and checksum, and the two
    addresses as they lie in memory. *)
Theorem constructed_header_on_the_wire :
  forall (host_le : bool) (PDU : Type) (PDU_flag : PDU -> Z)
         (dst src out : buffer) (new_tos new_ttl new_id new_frag_off total_sz : Z),
    length dst = 4%nat -> length src = 4%nat ->
    20 <= total_sz -> total_sz <= size out ->
    let h :=
      IP.set_frag_off host_le
        (IP.set_id host_le
           (IP.set_ttl
              (IP.set_tos
                 (IP.IP_new host_le (Endian.of_mem host_le dst)
                    (Endian.of_mem host_le src) (@None PDU))
                 new_tos)
              new_ttl)
           new_id)
        new_frag_off in
    exists h' out',
      IP.write_serialization host_le PDU_flag h out total_sz false
      = Ok (h', out') /\
      slice out' 0 20
      = [byte.of_Z 69; byte.of_Z new_tos]
        ++ Endian.be_bytes 2 total_sz
        ++ Endian.be_bytes 2 new_id
        ++ Endian.be_bytes 2 new_frag_off
        ++ [byte.of_Z new_ttl; Byte.x00; Byte.x00; Byte.x00]
        ++ src ++ dst.
Proof.
  intros le PDU PDU_flag dst src out new_tos new_ttl new_id new_frag total_sz
    Hdst Hsrc Hlo Hhi h.
  assert (Hwf : options_wf h) by (repeat split; cbn; lia).
  destruct (write_header_ok le PDU_flag h out total_sz Hwf ltac:(cbn; lia)
              ltac:(cbn; lia) Hhi) as (h1 & Hwh & Hihl).
  pose proof (write_header_bytes le PDU_flag h h1 out _ total_sz Hwh eq_refl)
    as Hbytes.
  unfold IP.write_serialization. rewrite Hwh. cbn [bind andb].
  eexists _, _. split; [reflexivity|].
  change (IP._options_size h) with 0. change (IP._padded_options_size h) with 0.
  change (IP._ip_options h) with (@nil IP.IPOption).
  change (options_bytes []) with (@nil byte). cbn [repeat Z.to_nat Z.sub app].
  rewrite app_nil_r.
  pose proof (iphdr_to_mem_size le (IP._ip h1)) as Hsz.
  rewrite <- Hsz at 1. rewrite slice_splice_same by lia.
  rewrite Hbytes, Hihl.
  change (IP._padded_options_size h) with 0.
  change (IP.version (IP._ip h)) with 4.
  change (IP.tos (IP._ip h)) with (wrap 8 new_tos).
  change (IP.ttl (IP._ip h)) with (wrap 8 new_ttl).
  change (IP.protocol (IP._ip h)) with 0.
  change (IP.check (IP._ip h)) with 0.
  change (IP.id (IP._ip h)) with (Endian.host_to_be le 2 (wrap 16 new_id)).
  change (IP.frag_off (IP._ip h))
    with (Endian.host_to_be le 2 (wrap 16 new_frag)).
  change (IP.saddr (IP._ip h)) with (wrap 32 (Endian.of_mem le src)).
  change (IP.daddr (IP._ip h)) with (wrap 32 (Endian.of_mem le dst)).
  rewrite !to_mem_host_to_be, !byte_of_Z_wrap.
  rewrite !be_bytes_2_wrap, !to_mem_4_wrap.
  rewrite <- Hsrc at 1. rewrite <- Hdst at 1. rewrite !to_mem_of_mem.
  assert (E0 : Endian.to_mem le 2 0 = [Byte.x00; Byte.x00])
    by (destruct le; reflexivity).
  rewrite E0. reflexivity.
Qed.

Lemma constructed_header_on_the_wire_witness :
  exists h' out',
    IP.write_serialization false (fun _ : list byte => 255)
      (IP.set_frag_off false
         (IP.set_id false
            (IP.set_ttl
               (IP.set_tos
                  (IP.IP_new false (Endian.of_mem false (bytes_of [10; 0; 0; 2]))
                     (Endian.of_mem false (bytes_of [10; 0; 0; 1])) None)
                  0)
               64)
            4660)
         0)
      (repeat Byte.xff 20) 20 false = Ok (h', out') /\
    slice out' 0 20
    = bytes_of [69; 0; 0; 20; 18; 52; 0; 0; 64; 0; 0; 0; 10; 0; 0; 1; 10; 0; 0; 2].
Proof.
  exact (constructed_header_on_the_wire false (list byte)
           (fun _ : list byte => 255) (bytes_of [10; 0; 0; 2])
           (bytes_of [10; 0; 0; 1]) (repeat Byte.xff 20) 0 64 4660 0 20
           eq_refl eq_refl ltac:(lia) ltac:(vm_compute; congruence)).
Defined.

(** ** The checksum a serialized IP header carries *)

Lemma fold_once_value (c : Z) :
  0 <= c ->
  (Z.land c 65535 + Z.shiftr c 16) mod 65535 = c mod 65535 /\
  (0 < c -> 0 < Z.land c 65535 + Z.shiftr c 16).
Proof.
  intros Hc.
  assert (E1 : Z.land c 65535 = c mod 65536)
    by (change 65535 with (Z.ones 16); apply Z.land_ones; lia).
  rewrite E1, Z.shiftr_div_pow2 by lia.
  change (2 ^ 16) with 65536.
  pose proof (Z.mod_pos_bound c 65536 ltac:(lia)).
  pose proof (Z.div_mod c 65536 ltac:(lia)) as Hd.
  assert (0 <= c / 65536) by (apply Z.div_pos; lia).
  split; [|lia].
  rewrite Hd at 3.
  replace (65536 * (c / 65536) + c mod 65536)
    with (c mod 65536 + c / 65536 + (c / 65536) * 65535) by lia.
  rewrite Z.mod_add by lia. reflexivity.
Qed.

Lemma fold_carries_value (c : Z) :
  0 <= c < 2 ^ 32 ->
  exists f, IP.fold_carries 32 c = Ok f /\ 0 <= f < 2 ^ 16 /\
            f mod 65535 = c mod 65535 /\ (0 < c -> 0 < f).
Proof.
  intros Hc.
  destruct (Z_lt_le_dec c (2 ^ 16)) as [Hs | Hb].
  - exists c. split; [apply fold_carries_done; lia|]. repeat split; lia.
  - pose proof (fold_once_bound c Hc) as (Hb1 & _).
    pose proof (fold_once_value c ltac:(lia)) as (Hm1 & Hp1).
    set (c1 := Z.land c 65535 + Z.shiftr c 16) in *.
    change 32%nat with (S 31). rewrite fold_carries_step by assumption.
    fold c1. rewrite (wrap_small 32 c1) by (change (2 ^ 32) with 4294967296; lia).
    destruct (Z_lt_le_dec c1 (2 ^ 16)) as [Hs1 | Hb1'].
    + exists c1. split; [apply fold_carries_done; lia|].
      change (2 ^ 16) with 65536 in *. repeat split; lia.
    + pose proof (fold_once_bound c1
                    ltac:(change (2 ^ 32) with 4294967296; lia)) as (Hb2 & Hlt).
      specialize (Hlt ltac:(lia) Hb1').
      pose proof (fold_once_value c1 ltac:(lia)) as (Hm2 & Hp2).
      set (c2 := Z.land c1 65535 + Z.shiftr c1 16) in *.
      change 31%nat with (S 30). rewrite fold_carries_step by assumption.
      fold c2. rewrite (wrap_small 32 c2) by (change (2 ^ 32) with 4294967296; lia).
      exists c2. split; [apply fold_carries_done; lia|].
      change (2 ^ 16) with 65536 in *. repeat split; lia.
Qed.

Lemma do_checksum_even (le : bool) (buf : buffer) (k : nat) :
  2 * Z.of_nat k <= size buf ->
  Utils.do_checksum le buf 0 (2 * Z.of_nat k)
  = Ok (wrap 32 (sum_words (be_words (slice buf 0 (2 * Z.of_nat k))))).
Proof.
  intros Hk. unfold Utils.do_checksum.
  replace (Z.land (2 * Z.of_nat k - 0) 1 =? 1) with false.
  2:{ symmetry. apply Z.eqb_neq.
      pose proof (Z.land_ones (2 * Z.of_nat k - 0) 1 ltac:(lia)) as E.
      change (Z.ones 1) with 1 in E. rewrite E.
      change (2 ^ 1) with 2. rewrite Z.sub_0_r, Z.mul_comm, Z.mod_mul; lia. }
  cbn [bind].
  rewrite (do_checksum_loop_spec le buf k) by lia.
  cbn [bind]. rewrite Z.add_0_l, Z.add_0_r. f_equal.
  apply wrap_small. apply wrap_range. lia.
Qed.

Lemma be_word_bound (b0 b1 : byte) :
  0 <= Z.lor (Z.shiftl (byte.unsigned b0) 8) (byte.unsigned b1) < 65536.
Proof.
  rewrite <- be_value_2. unfold Endian.be_value.
  pose proof (le_combine_bound (rev [b0; b1])) as H.
  rewrite length_rev in H. exact H.
Qed.

Lemma sum_words_bound (l : list byte) :
  0 <= sum_words (be_words l) <= 65535 * Z.of_nat (length l) /\
  forall b, 0 <= sum_words (be_words (b :: l))
              <= 65535 * Z.of_nat (length (b :: l)).
Proof.
  induction l as [|a l [IH1 IH2]].
  - split; [cbn; lia|]. intros b. cbn [be_words sum_words fold_right length].
    pose proof (byte.unsigned_range b).
    rewrite Z.shiftl_mul_pow2 by lia. change (2 ^ 8) with 256. lia.
  - split; [apply IH2|]. intros b.
    cbn [be_words sum_words fold_right]. fold (sum_words (be_words l)).
    pose proof (be_word_bound b a). cbn [length] in *.
    rewrite !Nat2Z.inj_succ. lia.
Qed.

Lemma header_words (le : bool) {PDU : Type} (h : IP.IP PDU) (c c' : Z) :
  sum_words (be_words (IP.iphdr_to_mem le (IP._ip (with_check h c))))
  - Endian.be_value (Endian.to_mem le 2 c)
  = sum_words (be_words (IP.iphdr_to_mem le (IP._ip (with_check h c'))))
    - Endian.be_value (Endian.to_mem le 2 c').
Proof.
  set (ip := IP._ip h).
  destruct (to_mem_2 le (IP.tot_len ip)) as (t0 & t1 & Et).
  destruct (to_mem_2 le (IP.id ip)) as (i0 & i1 & Ei).
  destruct (to_mem_2 le (IP.frag_off ip)) as (f0 & f1 & Ef).
  destruct (to_mem_4 le (IP.saddr ip)) as (s0 & s1 & s2 & s3 & Es).
  destruct (to_mem_4 le (IP.daddr ip)) as (d0 & d1 & d2 & d3 & Ed).
  destruct (to_mem_2 le c) as (c0 & c1 & Ec).
  destruct (to_mem_2 le c') as (c0' & c1' & Ec').
  unfold IP.iphdr_to_mem, with_check, IP.set_ip.
  cbn [IP._ip IP.ihl IP.version IP.tos IP.tot_len IP.id IP.frag_off IP.ttl
       IP.protocol IP.check IP.saddr IP.daddr].
  fold ip. rewrite Et, Ei, Ef, Es, Ed, Ec, Ec', !be_value_2.
  cbn [app be_words sum_words fold_right]. lia.
Qed.

Lemma splice_splice_inner (buf d x : list byte) (off : Z) :
  0 <= off -> off + size x <= size d -> size d <= size buf ->
  splice (splice buf 0 d) off x = splice buf 0 (splice d off x).
Proof.
  intros Hoff Hx Hd.
  assert (E : forall y, splice buf 0 y = y ++ skipn (length y) buf)
    by (intros y; reflexivity).
  rewrite !E. rewrite splice_app_l by assumption.
  rewrite length_splice by assumption. reflexivity.
Qed.

Lemma lnot_16 (f : Z) : 0 <= f < 65536 -> wrap 16 (Z.lnot f) = 65535 - f.
Proof.
  intros Hf. unfold wrap, Z.lnot. change (2 ^ 16) with 65536.
  replace (Z.pred (- f)) with (65535 - f + (-1) * 65536) by lia.
  rewrite Z.mod_add by lia. apply Z.mod_small. lia.
Qed.

(** The checksum written verifies: after a serialization with parent of a
    unit whose stored checksum is zero, the 16-bit words of the header in
    the buffer, checksum included, add up to [0xFFFF] once the carries are
    folded, which is what a receiver checks. *)
Theorem serialized_checksum_verifies :
  forall (host_le : bool) (PDU : Type) (PDU_flag : PDU -> Z)
         (this : IP.IP PDU) (out : buffer) (total_sz : Z),
    IP.check (IP._ip this) = 0 ->
    options_wf this -> 0 <= IP._options_size this ->
    20 + IP._padded_options_size this <= total_sz -> total_sz <= size out ->
    exists this' out' sum,
      IP.write_serialization host_le PDU_flag this out total_sz true
      = Ok (this', out') /\
      Utils.do_checksum host_le out' 0 (20 + IP._padded_options_size this)
      = Ok sum /\
      IP.fold_carries 32 sum = Ok 65535.
Proof.
  intros le PDU PDU_flag this out total_sz Hck Hwf Hos Htot Hout.
  destruct (write_header_ok le PDU_flag this out total_sz Hwf Hos Htot Hout)
    as (h1 & Hwh & _).
  destruct (write_header_frame le PDU_flag this h1 out _ total_sz Hwh)
    as (Hun & _).
  destruct Hun as (_ & _ & _ & _ & _ & Hc1 & _ & _ & _ & _ & Hps1 & _).
  rewrite Hck in Hc1.
  destruct Hwf as (Hbytes & Hle & Hmod & Hmax).
  set (rest := options_bytes (IP._ip_options this)
               ++ repeat Byte.x00
                    (Z.to_nat (IP._padded_options_size this
                               - IP._options_size this))) in *.
  set (hs := 20 + IP._padded_options_size this) in *.
  assert (Hrest : size rest = IP._padded_options_size this).
  { unfold rest. rewrite size_app, Hbytes, size_repeat by lia. lia. }
  pose proof (iphdr_to_mem_size le (IP._ip h1)) as Hhdr.
  set (D := IP.iphdr_to_mem le (IP._ip h1) ++ rest) in *.
  assert (HD : size D = hs) by (unfold D; rewrite size_app, Hhdr, Hrest; reflexivity).
  set (buf1 := splice out 0 D) in *.
  assert (Hb1 : size buf1 = size out) by (apply size_splice; lia).
  assert (Hk : hs = 2 * Z.of_nat (Z.to_nat (hs / 2))).
  { rewrite Z2Nat.id by (apply Z.div_pos; lia).
    unfold hs. Z.div_mod_to_equations. lia. }
  assert (Hs1 : slice buf1 0 hs = D).
  { rewrite <- HD. apply (slice_splice_same out 0 D); lia. }
  pose proof (proj1 (sum_words_bound D)) as HbD.
  assert (HlenD : Z.of_nat (length D) = hs) by exact HD.
  rewrite HlenD in HbD.
  set (S0 := sum_words (be_words D)) in *.
  assert (Hsum1 : Utils.do_checksum le buf1 0 hs = Ok S0).
  { rewrite Hk at 1. rewrite do_checksum_even by lia.
    rewrite <- Hk, Hs1. f_equal. apply wrap_small.
    change (2 ^ 32) with 4294967296. unfold hs in HbD. fold S0. lia. }
  destruct (fold_carries_value S0) as (f & Hfold & Hf & Hfm & Hfp).
  { change (2 ^ 32) with 4294967296. unfold hs in HbD. lia. }
  change (2 ^ 16) with 65536 in Hf.
  set (c := Endian.host_to_be le 2 (wrap 16 (Z.lnot f))).
  unfold IP.write_serialization. rewrite Hwh. cbn [bind].
  fold rest. fold D. fold buf1.
  rewrite Hc1. cbn [andb Z.eqb]. rewrite Hps1. change IP.sizeof_iphdr with 20.
  fold hs. rewrite Hsum1. cbn [bind]. rewrite Hfold. cbn [bind]. fold c.
  rewrite write_bytes_ok by (rewrite ?size_to_mem; lia). cbn [bind].
  set (out' := splice buf1 10 (Endian.to_mem le 2 c)).
  assert (Hout' : out' = splice out 0 (splice D 10 (Endian.to_mem le 2 c))).
  { unfold out', buf1. apply splice_splice_inner; rewrite ?size_to_mem; lia. }
  assert (HD' : splice D 10 (Endian.to_mem le 2 c)
                = IP.iphdr_to_mem le (IP._ip (with_check h1 c)) ++ rest)
    by (unfold D; apply splice_check).
  set (D' := IP.iphdr_to_mem le (IP._ip (with_check h1 c)) ++ rest) in *.
  assert (HDs : size D' = hs).
  { unfold D'. rewrite size_app, iphdr_to_mem_size, Hrest. reflexivity. }
  assert (Hs2 : slice out' 0 hs = D').
  { rewrite Hout', HD', <- HDs. apply (slice_splice_same out 0 D'); lia. }
  assert (Hv : Endian.be_value (Endian.to_mem le 2 c) = 65535 - f).
  { unfold c. rewrite be_value_to_mem_host_to_be by (apply wrap_range; lia).
    apply lnot_16. exact Hf. }
  assert (Hz : Endian.be_value (Endian.to_mem le 2 0) = 0)
    by (destruct le; reflexivity).
  assert (Heven : Nat.Even (length (IP.iphdr_to_mem le (IP._ip h1))))
    by (exists 10%nat; pose proof Hhdr as E; unfold size in E; lia).
  assert (Heven' : Nat.Even (length (IP.iphdr_to_mem le (IP._ip (with_check h1 c)))))
    by (exists 10%nat;
        pose proof (iphdr_to_mem_size le (IP._ip (with_check h1 c))) as E;
        unfold size in E; lia).
  assert (HS' : sum_words (be_words D') = S0 + (65535 - f)).
  { unfold S0, D, D'. rewrite !be_words_app_even, !sum_words_app by assumption.
    pose proof (header_words le h1 c (IP.check (IP._ip h1))) as Hw.
    rewrite with_check_same, Hc1, Hz, Hv in Hw. lia. }
  eexists _, out', _. split; [reflexivity|].
  split.
  - rewrite Hk at 1. rewrite do_checksum_even by (rewrite <- Hk; 
      unfold out'; rewrite size_splice by (rewrite ?size_to_mem; lia); lia).
    rewrite <- Hk, Hs2, HS'. reflexivity.
  - rewrite wrap_small
      by (change (2 ^ 32) with 4294967296; unfold hs in HbD; lia).
    destruct (fold_carries_value (S0 + (65535 - f))) as (f' & Hfold' & Hf' & Hfm' & Hfp').
    { change (2 ^ 32) with 4294967296. unfold hs in HbD. lia. }
    rewrite Hfold'. f_equal.
    change (2 ^ 16) with 65536 in Hf'.
    assert (Hpos : 0 < S0 + (65535 - f)).
    { destruct (Z.eq_dec S0 0) as [E0|]; [|lia].
      rewrite E0 in Hfold. rewrite fold_carries_done in Hfold by lia.
      apply Ok_inj in Hfold. lia. }
    specialize (Hfp' Hpos).
    assert (Hm0 : f' mod 65535 = 0).
    { rewrite Hfm'.
      replace (S0 + (65535 - f)) with (S0 - f + 1 * 65535) by lia.
      rewrite Z.mod_add by lia.
      rewrite Zminus_mod, <- Hfm, Z.sub_diag. reflexivity. }
    Z.div_mod_to_equations. lia.
Qed.

Lemma serialized_checksum_verifies_witness :
  exists this' out' sum,
    IP.write_serialization true (fun _ : list byte => 255) sec_header
      (repeat Byte.xff 28) 28 true = Ok (this', out') /\
    Utils.do_checksum true out' 0 28 = Ok sum /\
    IP.fold_carries 32 sum = Ok 65535.
Proof.
  apply (serialized_checksum_verifies true (list byte) (fun _ : list byte => 255)
           sec_header (repeat Byte.xff 28) 28).
  - reflexivity.
  - repeat split; vm_compute; congruence.
  - vm_compute. congruence.
  - vm_compute. congruence.
  - vm_compute. congruence.
Defined.

(** ** Matching a response *)

Lemma addresses_of_mem_to_mem (le : bool) (h : IP.iphdr) :
  IP.saddr (IP.iphdr_of_mem le (IP.iphdr_to_mem le h)) = wrap 32 (IP.saddr h) /\
  IP.daddr (IP.iphdr_of_mem le (IP.iphdr_to_mem le h)) = wrap 32 (IP.daddr h).
Proof.
  unfold IP.iphdr_to_mem.
  destruct (to_mem_2 le (IP.tot_len h)) as (t0 & t1 & Et).
  destruct (to_mem_2 le (IP.id h)) as (i0 & i1 & Ei).
  destruct (to_mem_2 le (IP.frag_off h)) as (f0 & f1 & Ef).
  destruct (to_mem_2 le (IP.check h)) as (c0 & c1 & Ec).
  destruct (to_mem_4 le (IP.saddr h)) as (s0 & s1 & s2 & s3 & Es).
  destruct (to_mem_4 le (IP.daddr h)) as (d0 & d1 & d2 & d3 & Ed).
  rewrite Et, Ei, Ef, Ec, Es, Ed.
  unfold IP.iphdr_of_mem. cbn [app IP.saddr IP.daddr].
  match goal with
  | |- context [slice ?l 12 4] =>
      change (slice l 12 4) with [s0; s1; s2; s3];
      change (slice l 16 4) with [d0; d1; d2; d3]
  end.
  rewrite <- Es, <- Ed, !of_mem_to_mem. split; reflexivity.
Qed.

Lemma write_serialization_header (le : bool) {PDU : Type} (PDU_flag : PDU -> Z)
  (this this' : IP.IP PDU) (out out' : buffer) (total_sz : Z) (parent : bool) :
  options_wf this -> 0 <= IP._options_size this ->
  20 + IP._padded_options_size this <= total_sz -> total_sz <= size out ->
  IP.write_serialization le PDU_flag this out total_sz parent = Ok (this', out') ->
  exists hx : IP.IP PDU,
    slice out' 0 20 = IP.iphdr_to_mem le (IP._ip hx) /\
    IP.saddr (IP._ip hx) = IP.saddr (IP._ip this) /\
    IP.daddr (IP._ip hx) = IP.daddr (IP._ip this) /\
    size out' = size out.
Proof.
  intros Hwf Hos Htot Hout H.
  destruct (write_header_ok le PDU_flag this out total_sz Hwf Hos Htot Hout)
    as (h1 & Hwh & _).
  destruct (write_header_frame le PDU_flag this h1 out _ total_sz Hwh)
    as (Hun & _).
  destruct Hun as (_ & _ & _ & _ & _ & _ & Hs & Hd & _).
  destruct Hwf as (Hbytes & Hle & Hmod & Hmax).
  set (rest := options_bytes (IP._ip_options this)
               ++ repeat Byte.x00
                    (Z.to_nat (IP._padded_options_size this
                               - IP._options_size this))) in *.
  assert (Hrest : size rest = IP._padded_options_size this).
  { unfold rest. rewrite size_app, Hbytes, size_repeat by lia. lia. }
  assert (Hhead : forall hx : IP.IP PDU,
            slice (splice out 0 (IP.iphdr_to_mem le (IP._ip hx) ++ rest)) 0 20
            = IP.iphdr_to_mem le (IP._ip hx)).
  { intros hx. pose proof (iphdr_to_mem_size le (IP._ip hx)) as Hx.
    assert (E : splice out 0 (IP.iphdr_to_mem le (IP._ip hx) ++ rest)
                = IP.iphdr_to_mem le (IP._ip hx)
                  ++ (rest ++ skipn (length (IP.iphdr_to_mem le (IP._ip hx) ++ rest)) out))
      by (unfold splice; cbn [Z.to_nat firstn app Nat.add];
          rewrite <- app_assoc; reflexivity).
    rewrite E. apply slice_app_l. symmetry. exact Hx. }
  assert (Hsize : forall hx : IP.IP PDU,
            size (splice out 0 (IP.iphdr_to_mem le (IP._ip hx) ++ rest)) = size out).
  { intros hx. apply size_splice; [lia|].
    rewrite size_app, iphdr_to_mem_size, Hrest. lia. }
  unfold IP.write_serialization in H. rewrite Hwh in H. cbn [bind] in H.
  fold rest in H.
  destruct (parent && (IP.check (IP._ip h1) =? 0)).
  - apply bind_Ok in H. destruct H as (sum & _ & H).
    apply bind_Ok in H. destruct H as (f & _ & H).
    apply bind_Ok in H. destruct H as (b2 & Hw & H).
    apply Ok_inj in H. injection H as _ <-.
    apply write_bytes_inv in Hw. destruct Hw as (Hb2 & _ & Hfit).
    set (c := Endian.host_to_be le 2 (wrap 16 (Z.lnot f))) in *.
    rewrite splice_splice_inner in Hb2
      by (rewrite ?size_app, ?iphdr_to_mem_size, ?size_to_mem, ?Hrest; lia).
    rewrite splice_check in Hb2.
    exists (with_check h1 c). rewrite Hb2.
    split; [apply Hhead|]. split; [exact Hs|]. split; [exact Hd|]. apply Hsize.
  - apply Ok_inj in H. injection H as _ <-.
    exists h1.
    split; [apply Hhead|]. split; [exact Hs|]. split; [exact Hd|]. apply Hsize.
Qed.

(** A serialized reply matches the request: for a request without nested
    unit, [matches_response] on the bytes of a serialized header says
    whether that header goes from the destination of the request to its
    source. *)
Theorem serialized_reply_matches_request :
  forall (host_le : bool) (PDU : Type) (PDU_flag : PDU -> Z)
         (PDU_matches_response : PDU -> buffer -> Z -> Z -> outcome bool)
         (request reply reply' : IP.IP PDU) (out out' : buffer)
         (total_sz : Z) (parent : bool),
    IP.inner_pdu request = None ->
    0 <= IP.saddr (IP._ip request) < 2 ^ 32 ->
    0 <= IP.daddr (IP._ip request) < 2 ^ 32 ->
    0 <= IP.saddr (IP._ip reply) < 2 ^ 32 ->
    0 <= IP.daddr (IP._ip reply) < 2 ^ 32 ->
    options_wf reply -> 0 <= IP._options_size reply ->
    20 + IP._padded_options_size reply <= total_sz -> total_sz <= size out ->
    IP.write_serialization host_le PDU_flag reply out total_sz parent
    = Ok (reply', out') ->
    IP.matches_response host_le PDU_matches_response request out' total_sz
    = Ok ((IP.daddr (IP._ip request) =? IP.saddr (IP._ip reply))
          && (IP.saddr (IP._ip request) =? IP.daddr (IP._ip reply))).
Proof.
  intros le PDU PDU_flag M request reply reply' out out' total_sz parent
    Hnone Hrs Hrd Hps Hpd Hwf Hos Htot Hout H.
  destruct (write_serialization_header le PDU_flag reply reply' out out'
              total_sz parent Hwf Hos Htot Hout H)
    as (hx & Hhead & Hs & Hd & Hsize).
  destruct Hwf as (_ & Hle & _ & _).
  unfold IP.matches_response. change IP.sizeof_iphdr with 20.
  replace (total_sz <? 20) with false by (symmetry; apply Z.ltb_ge; lia).
  rewrite read_bytes_ok by lia. cbn [bind].
  rewrite Hhead.
  destruct (addresses_of_mem_to_mem le (IP._ip hx)) as [Es Ed].
  rewrite Es, Ed, Hs, Hd, !wrap_small by assumption.
  rewrite Hnone.
  destruct ((IP.daddr (IP._ip request) =? IP.saddr (IP._ip reply))
            && (IP.saddr (IP._ip request) =? IP.daddr (IP._ip reply)));
    reflexivity.
Qed.

Lemma serialized_reply_matches_request_witness :
  exists reply' out',
    IP.write_serialization true (fun _ : list byte => 255)
      (IP.IP_new true 2 1 None) (repeat Byte.xff 20) 20 true
    = Ok (reply', out') /\
    IP.matches_response true no_nested_match plain_header out' 20 = Ok true.
Proof.
  destruct (IP.write_serialization true (fun _ : list byte => 255)
              (IP.IP_new true 2 1 None) (repeat Byte.xff 20) 20 true)
    as [[reply' out']| | | |] eqn:H; try (vm_compute in H; discriminate H).
  exists reply', out'. split; [reflexivity|].
  apply (serialized_reply_matches_request true (list byte)
           (fun _ : list byte => 255) no_nested_match plain_header
           (IP.IP_new true 2 1 None) reply' (repeat Byte.xff 20) out' 20 true);
    try exact H; try reflexivity;
    try (vm_compute; split; congruence); try (vm_compute; congruence).
  repeat split; vm_compute; congruence.
Defined.

(** ** Decoding an EAPOL frame of any variant *)

Lemma RC4_of_buffer_cases (le : bool) (buf : buffer) (total_sz : Z) :
  total_sz <= size buf -> 5 <= total_sz < 2 ^ 32 ->
  RC4EAPOL.RC4EAPOL_of_buffer le buf total_sz =
    if total_sz <? 48 then Throw EAPOL.msg
    else Ok {| RC4EAPOL.eapol :=
                 {| EAPOL.flag := 255;
                    EAPOL._header := EAPOL.eapolhdr_of_mem le (slice buf 0 5) |};
               RC4EAPOL._header := RC4EAPOL.rc4hdr_of_mem le (slice buf 5 43);
               RC4EAPOL._key :=
                 if total_sz - 48 =? wire_rc4_key_length buf
                 then slice buf 48 (total_sz - 48) else [] |}.
Proof.
  intros Hhi [Hlo Hmax].
  unfold RC4EAPOL.RC4EAPOL_of_buffer, EAPOL.EAPOL_of_buffer.
  change EAPOL.sizeof_eapolhdr with 5. change RC4EAPOL.sizeof_rc4hdr with 43.
  assert (H0 : (total_sz <? 5) = false) by (apply Z.ltb_ge; lia).
  rewrite H0. rewrite read_bytes_ok by lia. cbn [bind].
  rewrite (wrap_small 32 (total_sz - 5)) by lia.
  destruct (Z.ltb_spec total_sz 48) as [Hs|Hs].
  - replace (total_sz - 5 <? 43) with true by (symmetry; apply Z.ltb_lt; lia).
    reflexivity.
  - replace (total_sz - 5 <? 43) with false by (symmetry; apply Z.ltb_ge; lia).
    rewrite read_bytes_ok by lia. cbn [bind].
    rewrite (wrap_small 32 (total_sz - 5 - 43)) by lia.
    rewrite RC4_get_key_length_of_mem by lia.
    replace (total_sz - 5 - 43) with (total_sz - 48) by lia.
    replace (5 + 43) with 48 by lia.
    destruct (total_sz - 48 =? wire_rc4_key_length buf); [|reflexivity].
    rewrite read_bytes_ok by lia. reflexivity.
Qed.

Lemma RSN_get_wpa_length_of_mem (le : bool) (buf : buffer) (e : EAPOL.EAPOL)
  (k : list byte) :
  99 <= size buf ->
  RSNEAPOL.get_wpa_length le
    {| RSNEAPOL.eapol := e;
       RSNEAPOL._header := RSNEAPOL.rsnhdr_of_mem le (slice buf 5 94);
       RSNEAPOL._key := k |}
  = wire_rsn_wpa_length buf.
Proof.
  intros Hsz. unfold RSNEAPOL.get_wpa_length, wire_rsn_wpa_length.
  cbn [RSNEAPOL._header RSNEAPOL.rsnhdr_of_mem RSNEAPOL.wpa_length].
  rewrite slice_slice by lia. replace (5 + 92) with 97 by lia.
  rewrite <- (be_to_host_of_mem le (slice buf 97 2)).
  rewrite slice_size_2 by lia. reflexivity.
Qed.

Lemma RSN_of_buffer_cases (le : bool) (buf : buffer) (total_sz : Z) :
  total_sz <= size buf -> 5 <= total_sz < 2 ^ 32 ->
  RSNEAPOL.RSNEAPOL_of_buffer le buf total_sz =
    if total_sz <? 99 then Throw EAPOL.msg
    else Ok {| RSNEAPOL.eapol := EAPOL.EAPOL_new 3 EAPOL.RSN;
               RSNEAPOL._header := RSNEAPOL.rsnhdr_of_mem le (slice buf 5 94);
               RSNEAPOL._key :=
                 if total_sz - 99 =? wire_rsn_wpa_length buf
                 then slice buf 99 (total_sz - 99) else [] |}.
Proof.
  intros Hhi [Hlo Hmax].
  unfold RSNEAPOL.RSNEAPOL_of_buffer.
  change EAPOL.sizeof_eapolhdr with 5. change RSNEAPOL.sizeof_rsnhdr with 94.
  rewrite (wrap_small 32 (total_sz - 5)) by lia.
  destruct (Z.ltb_spec total_sz 99) as [Hs|Hs].
  - replace (total_sz - 5 <? 94) with true by (symmetry; apply Z.ltb_lt; lia).
    reflexivity.
  - replace (total_sz - 5 <? 94) with false by (symmetry; apply Z.ltb_ge; lia).
    rewrite read_bytes_ok by lia. cbn [bind].
    rewrite (wrap_small 32 (total_sz - 5 - 94)) by lia.
    rewrite RSN_get_wpa_length_of_mem by lia.
    replace (total_sz - 5 - 94) with (total_sz - 99) by lia.
    replace (5 + 94) with 99 by lia.
    destruct (total_sz - 99 =? wire_rsn_wpa_length buf); [|reflexivity].
    rewrite read_bytes_ok by lia. reflexivity.
Qed.

(** [from_bytes] by cases. A buffer of fewer than 5 bytes is refused with
    an exception. Otherwise the byte after the envelope decides: 1 gives a
    unit of the stream-cipher variant and needs 48 bytes at least, 2 and
    254 give a unit of the RSN variant and need 99, and in both cases a
    shorter buffer is refused with the exception; any other value gives a
    null pointer and no exception. The unit of the RSN variant has the
    discriminant 2 in its envelope also when the buffer said 254. *)
Theorem from_bytes_by_discriminant :
  forall (host_le : bool) (buf : buffer) (total_sz : Z),
    total_sz <= size buf -> total_sz < 2 ^ 32 ->
    (total_sz < 5 -> EAPOL_from_bytes host_le buf total_sz = Throw EAPOL.msg) /\
    (5 <= total_sz ->
     (wire_eapol_type buf = 1 ->
      (total_sz < 48 -> EAPOL_from_bytes host_le buf total_sz = Throw EAPOL.msg) /\
      (48 <= total_sz ->
       exists r, EAPOL_from_bytes host_le buf total_sz = Ok (Some (RC4_unit r)) /\
                 EAPOL.type (EAPOL._header (RC4EAPOL.eapol r)) = 1)) /\
     (wire_eapol_type buf = 2 \/ wire_eapol_type buf = 254 ->
      (total_sz < 99 -> EAPOL_from_bytes host_le buf total_sz = Throw EAPOL.msg) /\
      (99 <= total_sz ->
       exists r, EAPOL_from_bytes host_le buf total_sz = Ok (Some (RSN_unit r)) /\
                 EAPOL.type (EAPOL._header (RSNEAPOL.eapol r)) = 2)) /\
     (wire_eapol_type buf <> 1 -> wire_eapol_type buf <> 2 ->
      wire_eapol_type buf <> 254 ->
      EAPOL_from_bytes host_le buf total_sz = Ok None)).
Proof.
  intros le buf total_sz Hhi Hmax. unfold EAPOL_from_bytes.
  change EAPOL.sizeof_eapolhdr with 5.
  split.
  - intros Hs. replace (total_sz <? 5) with true by (symmetry; apply Z.ltb_lt; lia).
    reflexivity.
  - intros Hlo.
    replace (total_sz <? 5) with false by (symmetry; apply Z.ltb_ge; lia).
    rewrite read_bytes_ok by lia. cbn [bind].
    assert (Ht : EAPOL.type (EAPOL.eapolhdr_of_mem le (slice buf 0 5))
                 = wire_eapol_type buf).
    { unfold wire_eapol_type. cbn [EAPOL.eapolhdr_of_mem EAPOL.type].
      apply byte_at_slice. cbn. lia. }
    rewrite Ht.
    change (EAPOL.EAPOLTYPE_value EAPOL.RC4) with 1.
    change (EAPOL.EAPOLTYPE_value EAPOL.RSN) with 2.
    change (EAPOL.EAPOLTYPE_value EAPOL.EAPOL_WPA) with 254.
    rewrite RC4_of_buffer_cases, RSN_of_buffer_cases by lia.
    split; [|split].
    + intros E. rewrite E. cbn [Z.eqb Pos.eqb]. split.
      * intros Hs. replace (total_sz <? 48) with true
          by (symmetry; apply Z.ltb_lt; lia). reflexivity.
      * intros Hl. replace (total_sz <? 48) with false
          by (symmetry; apply Z.ltb_ge; lia). cbn [bind].
        eexists. split; [reflexivity|].
        cbn [RC4EAPOL.eapol EAPOL._header]. rewrite Ht. exact E.
    + intros Hrsn.
      assert (H1 : (wire_eapol_type buf =? 1) = false)
        by (apply Z.eqb_neq; lia).
      assert (H2 : (wire_eapol_type buf =? 2) || (wire_eapol_type buf =? 254) = true).
      { destruct Hrsn as [-> | ->]; reflexivity. }
      rewrite H1, H2. split.
      * intros Hs. replace (total_sz <? 99) with true
          by (symmetry; apply Z.ltb_lt; lia). reflexivity.
      * intros Hl. replace (total_sz <? 99) with false
          by (symmetry; apply Z.ltb_ge; lia). cbn [bind].
        eexists. split; reflexivity.
    + intros N1 N2 N3.
      apply Z.eqb_neq in N1. apply Z.eqb_neq in N2. apply Z.eqb_neq in N3.
      rewrite N1, N2, N3. reflexivity.
Qed.

Lemma from_bytes_by_discriminant_witness :
  exists r, EAPOL_from_bytes true wpa_frame 99 = Ok (Some (RSN_unit r)) /\
            EAPOL.type (EAPOL._header (RSNEAPOL.eapol r)) = 2.
Proof.
  destruct (from_bytes_by_discriminant true wpa_frame 99) as [_ H];
    try (vm_compute; congruence).
  destruct (H ltac:(lia)) as (_ & Hrsn & _).
  destruct (Hrsn (or_intror eq_refl)) as [_ Hok].
  exact (Hok ltac:(lia)).
Defined.

(** ** The round trip of a frame of the stream-cipher variant *)

Lemma rc4hdr_to_mem_size (le : bool) (h : RC4EAPOL.rc4hdr) :
  rc4hdr_wf h -> size (RC4EAPOL.rc4hdr_to_mem le h) = 43.
Proof.
  intros [Hiv Hsign]. unfold RC4EAPOL.rc4hdr_to_mem, size.
  rewrite !length_app, !to_mem_length, Hiv, Hsign. reflexivity.
Qed.

Lemma rc4hdr_key_length_at (le : bool) (h : RC4EAPOL.rc4hdr) (rest : list byte) :
  slice (RC4EAPOL.rc4hdr_to_mem le h ++ rest) 0 2
  = Endian.to_mem le 2 (RC4EAPOL.key_length h).
Proof.
  unfold RC4EAPOL.rc4hdr_to_mem. rewrite <- app_assoc.
  apply slice_app_l. rewrite size_to_mem. reflexivity.
Qed.

Lemma le_split_S (n : nat) (v : Z) :
  le_split (S n) v = byte.of_Z v :: le_split n (Z.shiftr v 8).
Proof. reflexivity. Qed.

Lemma le_split_0 (n : nat) : le_split n 0 = repeat Byte.x00 n.
Proof.
  induction n as [|n IH]; [reflexivity|].
  rewrite le_split_S, Z.shiftr_0_l, IH. reflexivity.
Qed.

Lemma swapped_size_low_bits (n : nat) (v : Z) :
  n = 4%nat \/ n = 8%nat -> 0 <= v < 2 ^ 16 ->
  wrap 16 (Endian.host_to_be true n v) = 0.
Proof.
  intros Hn Hv. unfold Endian.host_to_be, Endian.change_endian, wrap.
  change (2 ^ 16) with (2 ^ (8 * Z.of_nat 2)).
  rewrite <- le_combine_firstn.
  assert (H16 : Z.shiftr (Z.shiftr v 8) 8 = 0).
  { rewrite Z.shiftr_shiftr by lia. apply Z.shiftr_eq_0; [lia|].
    destruct (Z.eq_dec v 0) as [->|]; [reflexivity|].
    apply Z.log2_lt_pow2; lia. }
  destruct Hn as [-> | ->]; rewrite !le_split_S, H16, le_split_0; reflexivity.
Qed.

Lemma RC4_write_serialization_ok (le : bool) (n : nat) (this : RC4EAPOL.RC4EAPOL)
  (out : buffer) (total_sz : Z) :
  rc4hdr_wf (RC4EAPOL._header this) ->
  48 + size (RC4EAPOL._key this) <= total_sz ->
  total_sz <= size out -> total_sz < 2 ^ 32 ->
  exists e1 h1,
    EAPOL.write_serialization le (H := RC4EAPOL.RC4EAPOL_Variant le n) this out
      total_sz
    = Ok ({| RC4EAPOL.eapol := e1; RC4EAPOL._header := h1;
             RC4EAPOL._key := RC4EAPOL._key this |},
          splice out 0
            (EAPOL.eapolhdr_to_mem le (EAPOL._header e1)
             ++ RC4EAPOL.rc4hdr_to_mem le h1 ++ RC4EAPOL._key this)) /\
    rc4hdr_wf h1 /\
    RC4EAPOL.key_length h1
    = (if size (RC4EAPOL._key this) =? 0
       then RC4EAPOL.key_length (RC4EAPOL._header this)
       else wrap 16 (Endian.host_to_be le n (size (RC4EAPOL._key this)))).
Proof.
  intros Hwf Hlo Hhi Hmax.
  pose proof (size_nonneg (RC4EAPOL._key this)) as Hk.
  unfold EAPOL.write_serialization.
  cbn [EAPOL.header_size EAPOL.base EAPOL.set_base EAPOL.write_body
       RC4EAPOL.RC4EAPOL_Variant].
  unfold RC4EAPOL.header_size.
  change EAPOL.sizeof_eapolhdr with 5. change RC4EAPOL.sizeof_rc4hdr with 43.
  rewrite (wrap_small 32 (5 + 43 + size (RC4EAPOL._key this))) by lia.
  replace (total_sz >=? 5 + 43 + size (RC4EAPOL._key this)) with true
    by (symmetry; apply Z.geb_le; lia).
  cbn [negb].
  set (this1 := if EAPOL.length (EAPOL._header (RC4EAPOL.eapol this)) =? 0
                then _ else this).
  assert (H1 : RC4EAPOL._header this1 = RC4EAPOL._header this /\
               RC4EAPOL._key this1 = RC4EAPOL._key this).
  { unfold this1.
    destruct (EAPOL.length (EAPOL._header (RC4EAPOL.eapol this)) =? 0);
      split; reflexivity. }
  clearbody this1. destruct H1 as [Hh1 Hk1].
  pose proof (eapolhdr_to_mem_size le (EAPOL._header (RC4EAPOL.eapol this1))) as He.
  rewrite write_bytes_ok by lia. cbn [bind].
  unfold RC4EAPOL.write_body.
  change RC4EAPOL.sizeof_rc4hdr with 43.
  rewrite Hk1, Hh1.
  rewrite (wrap_small 32 (total_sz - 5)) by lia.
  rewrite (wrap_small 32 (43 + size (RC4EAPOL._key this))) by lia.
  replace (total_sz - 5 >=? 43 + size (RC4EAPOL._key this)) with true
    by (symmetry; apply Z.geb_le; lia).
  cbn [negb].
  set (this2 := if negb (size (RC4EAPOL._key this) =? 0) then _ else this1).
  assert (H2 : RC4EAPOL.eapol this2 = RC4EAPOL.eapol this1 /\
               RC4EAPOL._key this2 = RC4EAPOL._key this /\
               rc4hdr_wf (RC4EAPOL._header this2) /\
               RC4EAPOL.key_length (RC4EAPOL._header this2)
               = (if size (RC4EAPOL._key this) =? 0
                  then RC4EAPOL.key_length (RC4EAPOL._header this)
                  else wrap 16 (Endian.host_to_be le n (size (RC4EAPOL._key this))))).
  { unfold this2. destruct (size (RC4EAPOL._key this) =? 0); cbn [negb].
    - rewrite Hh1. repeat split; try assumption; apply Hwf.
    - cbn [RC4EAPOL.eapol RC4EAPOL._key RC4EAPOL._header RC4EAPOL.key_length].
      repeat split; apply Hwf. }
  clearbody this2. destruct H2 as (He2 & Hk2 & Hwf2 & Hkl2).
  pose proof (rc4hdr_to_mem_size le (RC4EAPOL._header this2) Hwf2) as Hr.
  rewrite write_bytes_ok by (rewrite ?size_splice; lia). cbn [bind].
  rewrite Hk2.
  rewrite write_bytes_ok by (rewrite ?size_splice; rewrite ?size_splice; lia).
  cbn [bind].
  exists (RC4EAPOL.eapol this1), (RC4EAPOL._header this2).
  split; [|split; assumption].
  f_equal. f_equal.
  - destruct this2 as [e2 h2 k2]. cbn in *. subst. reflexivity.
  - pose proof (splice_splice_adjacent out 0
                  (EAPOL.eapolhdr_to_mem le (EAPOL._header (RC4EAPOL.eapol this1)))
                  (RC4EAPOL.rc4hdr_to_mem le (RC4EAPOL._header this2))) as Ha1.
    rewrite He in Ha1. change (0 + 5) with 5 in Ha1. rewrite Ha1 by lia.
    pose proof (splice_splice_adjacent out 0
                  (EAPOL.eapolhdr_to_mem le (EAPOL._header (RC4EAPOL.eapol this1))
                   ++ RC4EAPOL.rc4hdr_to_mem le (RC4EAPOL._header this2))
                  (RC4EAPOL._key this)) as Ha2.
    rewrite size_app, He, Hr in Ha2. change (0 + (5 + 43)) with (5 + 43) in Ha2.
    rewrite Ha2 by lia. rewrite <- app_assoc. reflexivity.
Qed.

Lemma slice_in_splice_0 (buf data : list byte) (i n : Z) :
  size data <= size buf -> 0 <= i -> 0 <= n -> i + n <= size data ->
  slice (splice buf 0 data) i n = slice data i n.
Proof.
  intros Hd Hi Hn Hin.
  exact (slice_in_splice buf 0 data i n ltac:(lia) ltac:(lia) Hi Hn Hin).
Qed.

(** A frame of the stream-cipher variant, serialized and decoded again.
    The key bytes are in the frame after the 48 bytes of the envelope and
    the fixed body. [write_body] swaps the bytes of [_key.size()] at the
    width of [size_t], 4 or 8 bytes, and keeps the low 16 bits: on a
    big-endian host that is the size of the key, and the decoder gives the
    key back; on a little-endian host it is 0 for every key shorter than
    2^16 bytes, so the frame declares a key length of 0 and the decoder
    returns a unit without key. *)
Theorem RC4_serialized_frame_decoded :
  forall (host_le : bool) (sizeof_size_t : nat) (this : RC4EAPOL.RC4EAPOL)
         (k out : list byte),
    sizeof_size_t = 4%nat \/ sizeof_size_t = 8%nat ->
    rc4hdr_wf (RC4EAPOL._header this) ->
    k <> [] -> size k < 2 ^ 16 -> 48 + size k <= size out ->
    exists this' out' r,
      EAPOL.write_serialization host_le
        (H := RC4EAPOL.RC4EAPOL_Variant host_le sizeof_size_t)
        (RC4EAPOL.key this k) out (48 + size k) = Ok (this', out') /\
      slice out' 48 (size k) = k /\
      wire_rc4_key_length out' = (if host_le then 0 else size k) /\
      RC4EAPOL.RC4EAPOL_of_buffer host_le out' (48 + size k) = Ok r /\
      RC4EAPOL._key r = (if host_le then [] else k).
Proof.
  intros le n this k out Hn Hwf Hne Hk16 Hout.
  pose proof (size_nonempty k Hne) as Hkpos.
  change (2 ^ 16) with 65536 in Hk16.
  destruct (RC4_write_serialization_ok le n (RC4EAPOL.key this k) out
              (48 + size k) Hwf ltac:(cbn; lia) Hout
              ltac:(change (2 ^ 32) with 4294967296; lia))
    as (e1 & h1 & Hws & Hwf1 & Hkl).
  cbn [RC4EAPOL.key RC4EAPOL._key RC4EAPOL._header] in Hws, Hkl.
  replace (size k =? 0) with false in Hkl by (symmetry; apply Z.eqb_neq; lia).
  set (E := EAPOL.eapolhdr_to_mem le (EAPOL._header e1)) in *.
  set (R := RC4EAPOL.rc4hdr_to_mem le h1) in *.
  assert (HE : size E = 5) by apply eapolhdr_to_mem_size.
  assert (HR : size R = 43) by (apply rc4hdr_to_mem_size; exact Hwf1).
  set (out' := splice out 0 (E ++ R ++ k)) in *.
  assert (Hdata : size (E ++ R ++ k) = 48 + size k)
    by (rewrite !size_app, HE, HR; lia).
  assert (Hsz' : size out' = size out) by (apply size_splice; lia).
  assert (Hkey : slice out' 48 (size k) = k).
  { unfold out'.
    rewrite (slice_in_splice_0 out (E ++ R ++ k) 48 (size k)) by lia.
    rewrite app_assoc.
    replace 48 with (size (E ++ R) + 0) by (rewrite size_app, HE, HR; lia).
    rewrite slice_app_r by lia. apply slice_all. }
  assert (Hwire : wire_rc4_key_length out' = (if le then 0 else size k)).
  { unfold wire_rc4_key_length, out'.
    rewrite (slice_in_splice_0 out (E ++ R ++ k) 5 2) by lia.
    rewrite <- HE at 1. replace (size E) with (size E + 0) by lia.
    rewrite slice_app_r by lia.
    unfold R. rewrite rc4hdr_key_length_at, Hkl.
    destruct le.
    - rewrite swapped_size_low_bits by (try assumption; lia). reflexivity.
    - unfold Endian.host_to_be, Endian.to_mem.
      rewrite be_value_be_bytes. unfold wrap.
      change (2 ^ (Z.of_nat 2 * 8)) with 65536. change (2 ^ 16) with 65536.
      rewrite Z.mod_mod by lia.
      rewrite (Z.mod_small (size k) (2 ^ (Z.of_nat n * 8))).
      + apply Z.mod_small. lia.
      + split; [lia|]. apply Z.lt_le_trans with (2 ^ 16); [lia|].
        apply Z.pow_le_mono_r; destruct Hn as [-> | ->]; lia. }
  eexists _, out', _. split; [exact Hws|]. split; [exact Hkey|].
  split; [exact Hwire|].
  rewrite RC4_of_buffer_cases
    by (rewrite ?Hsz'; change (2 ^ 32) with 4294967296; lia).
  replace (48 + size k <? 48) with false by (symmetry; apply Z.ltb_ge; lia).
  split; [reflexivity|]. cbn [RC4EAPOL._key].
  rewrite Hwire. replace (48 + size k - 48) with (size k) by lia.
  destruct le.
  - replace (size k =? 0) with false by (symmetry; apply Z.eqb_neq; lia).
    reflexivity.
  - rewrite Z.eqb_refl. exact Hkey.
Qed.

Lemma RC4_serialized_frame_decoded_witness :
  exists this' out' r,
    EAPOL.write_serialization true (H := RC4EAPOL.RC4EAPOL_Variant true 8)
      (RC4EAPOL.key RC4EAPOL.RC4EAPOL_new (bytes_of [10; 11; 12]))
      (repeat Byte.xff 51) 51 = Ok (this', out') /\
    slice out' 48 3 = bytes_of [10; 11; 12] /\
    wire_rc4_key_length out' = 0 /\
    RC4EAPOL.RC4EAPOL_of_buffer true out' 51 = Ok r /\
    RC4EAPOL._key r = [].
Proof.
  apply (RC4_serialized_frame_decoded true 8 RC4EAPOL.RC4EAPOL_new
           (bytes_of [10; 11; 12]) (repeat Byte.xff 51)).
  - right. reflexivity.
  - split; reflexivity.
  - discriminate.
  - reflexivity.
  - vm_compute. congruence.
Defined.

(** ** The round trip of a frame of the RSN variant *)

Lemma RSN_raw_key_frame (le : bool) (this0 : RSNEAPOL.RSNEAPOL) (data : list byte)
  (buf : buffer) (total_sz : Z) :
  rsnhdr_wf (RSNEAPOL._header this0) -> data <> [] -> size data < 2 ^ 16 ->
  99 + size data <= total_sz -> total_sz <= size buf -> total_sz < 2 ^ 32 ->
  exists this' buf',
    EAPOL.write_serialization le (H := RSNEAPOL.RSNEAPOL_Variant le)
      (RSNEAPOL.key this0 data) buf total_sz = Ok (this', buf') /\
    size buf' = size buf /\
    wire_rsn_wpa_length buf' = size data /\
    slice buf' 99 (size data) = data.
Proof.
  intros Hwf Hne Hd Htot Hhi Hmax.
  pose proof (size_nonempty _ Hne) as Hpos.
  assert (Hd' : size data < 65536) by exact Hd.
  destruct (RSN_write_serialization_eq le (RSNEAPOL.key this0 data) buf total_sz)
    as [e1 Heq]; try lia.
  { rewrite RSN_header_size_key by assumption. lia. }
  rewrite Heq. clear Heq.
  cbn [RSNEAPOL.key RSNEAPOL._header RSNEAPOL._key].
  set (b1 := splice buf 0 (EAPOL.eapolhdr_to_mem le (EAPOL._header e1))).
  assert (Hb1 : size b1 = size buf)
    by (unfold b1; apply size_splice; rewrite ?eapolhdr_to_mem_size; lia).
  destruct (RSN_write_body_raw_key le
              {| RSNEAPOL.eapol := e1;
                 RSNEAPOL._header := RSNEAPOL.set_key_t (RSNEAPOL._header this0) 0;
                 RSNEAPOL._key := data |} b1 5 (total_sz - 5))
    as (h' & Hw & Hwf' & Hkl & Hwpa);
    cbn [RSNEAPOL._header RSNEAPOL._key]; try assumption; try lia.
  { reflexivity. }
  cbn [RSNEAPOL._header RSNEAPOL._key RSNEAPOL.eapol] in Hw, Hwpa.
  rewrite Hw. clear Hw.
  pose proof (rsnhdr_to_mem_size le h' Hwf') as Hsz.
  eexists _, _. split; [reflexivity|].
  set (b2 := splice b1 5 (RSNEAPOL.rsnhdr_to_mem le h')).
  assert (Hb2 : size b2 = size buf)
    by (unfold b2; rewrite size_splice; lia).
  split; [rewrite size_splice; lia|].
  unfold wire_rsn_wpa_length.
  rewrite !(slice_splice_other b2 (5 + 94) data) by lia.
  change 97 with (5 + 92).
  unfold b2. rewrite !slice_in_splice by lia.
  rewrite rsnhdr_wpa_length_at by assumption.
  rewrite Hwpa. rewrite !be_value_to_mem_host_to_be by lia.
  split; [reflexivity|].
  change 99 with (5 + 94).
  apply slice_splice_same; rewrite ?size_splice; lia.
Qed.

Lemma RSN_information_frame (le : bool) (this0 : RSNEAPOL.RSNEAPOL)
  (data : list byte) (buf : buffer) (total_sz : Z) :
  rsnhdr_wf (RSNEAPOL._header this0) -> data <> [] -> size data < 2 ^ 8 ->
  101 + size data <= total_sz -> total_sz <= size buf -> total_sz < 2 ^ 32 ->
  exists this' buf',
    EAPOL.write_serialization le (H := RSNEAPOL.RSNEAPOL_Variant le)
      (RSNEAPOL.rsn_information this0 data) buf total_sz = Ok (this', buf') /\
    size buf' = size buf /\
    wire_rsn_wpa_length buf' = size data + 2 /\
    slice buf' 99 (2 + size data)
    = [byte.of_Z Dot11_RSN; byte.of_Z (size data)] ++ data.
Proof.
  intros Hwf Hne Hd Htot Hhi Hmax.
  pose proof (size_nonempty _ Hne) as Hpos.
  assert (Hd' : size data < 256) by exact Hd.
  destruct (RSN_write_serialization_eq le (RSNEAPOL.rsn_information this0 data)
              buf total_sz) as [e1 Heq]; try lia.
  { rewrite RSN_header_size_information by assumption. lia. }
  rewrite Heq. clear Heq.
  cbn [RSNEAPOL.rsn_information RSNEAPOL._header RSNEAPOL._key].
  set (b1 := splice buf 0 (EAPOL.eapolhdr_to_mem le (EAPOL._header e1))).
  assert (Hb1 : size b1 = size buf)
    by (unfold b1; apply size_splice; rewrite ?eapolhdr_to_mem_size; lia).
  destruct (RSN_write_body_information le
              {| RSNEAPOL.eapol := e1;
                 RSNEAPOL._header := RSNEAPOL.set_key_t (RSNEAPOL._header this0) 1;
                 RSNEAPOL._key := data |} b1 5 (total_sz - 5))
    as (h' & Hw & Hwf' & Hkl & Hwpa);
    cbn [RSNEAPOL._header RSNEAPOL._key]; try assumption; try lia.
  { reflexivity. }
  cbn [RSNEAPOL._header RSNEAPOL._key RSNEAPOL.eapol] in Hw, Hwpa.
  rewrite Hw. clear Hw.
  pose proof (rsnhdr_to_mem_size le h' Hwf') as Hsz.
  eexists _, _. split; [reflexivity|].
  set (b2 := splice b1 5 (RSNEAPOL.rsnhdr_to_mem le h')).
  assert (Hb2 : size b2 = size buf)
    by (unfold b2; rewrite size_splice; lia).
  assert (E3 : splice
                 (splice (splice b2 (5 + 94) [byte.of_Z Dot11_RSN]) (5 + 94 + 1)
                    [byte.of_Z (size data)])
                 (5 + 94 + 2) data
               = splice b2 (5 + 94)
                   ([byte.of_Z Dot11_RSN; byte.of_Z (size data)] ++ data)).
  { pose proof (splice_splice_adjacent b2 (5 + 94) [byte.of_Z Dot11_RSN]
                  [byte.of_Z (size data)]) as A1.
    change (size [byte.of_Z Dot11_RSN]) with 1 in A1.
    change (size [byte.of_Z (size data)]) with 1 in A1.
    rewrite A1 by lia.
    pose proof (splice_splice_adjacent b2 (5 + 94)
                  ([byte.of_Z Dot11_RSN] ++ [byte.of_Z (size data)]) data) as A2.
    change (size ([byte.of_Z Dot11_RSN] ++ [byte.of_Z (size data)])) with 2 in A2.
    rewrite A2 by lia. reflexivity. }
  rewrite E3.
  set (tail := [byte.of_Z Dot11_RSN; byte.of_Z (size data)] ++ data).
  assert (Htail : size tail = 2 + size data)
    by (unfold tail; rewrite size_app; reflexivity).
  split; [rewrite size_splice; lia|].
  unfold wire_rsn_wpa_length.
  rewrite (slice_splice_other b2 (5 + 94) tail) by lia.
  change 97 with (5 + 92).
  unfold b2. rewrite slice_in_splice by lia.
  rewrite rsnhdr_wpa_length_at by assumption.
  rewrite Hwpa.
  rewrite be_value_to_mem_host_to_be by (change (2 ^ 16) with 65536; lia).
  split; [reflexivity|].
  change 99 with (5 + 94). rewrite <- Htail.
  apply slice_splice_same; rewrite ?size_splice; lia.
Qed.

(** A frame of the RSN variant with a raw key, serialized and decoded
    again: for a key of fewer than 2^16 bytes the decoder gives the key
    back, on either kind of host. *)
Theorem RSN_raw_key_frame_decoded :
  forall (host_le : bool) (this : RSNEAPOL.RSNEAPOL) (k out : list byte),
    rsnhdr_wf (RSNEAPOL._header this) ->
    k <> [] -> size k < 2 ^ 16 -> 99 + size k <= size out ->
    exists this' out' r,
      EAPOL.write_serialization host_le (H := RSNEAPOL.RSNEAPOL_Variant host_le)
        (RSNEAPOL.key this k) out (99 + size k) = Ok (this', out') /\
      RSNEAPOL.RSNEAPOL_of_buffer host_le out' (99 + size k) = Ok r /\
      RSNEAPOL._key r = k /\
      RSNEAPOL.get_wpa_length host_le r = size k.
Proof.
  intros le this k out Hwf Hne Hk Hout.
  pose proof (size_nonempty _ Hne) as Hpos.
  change (2 ^ 16) with 65536 in Hk.
  destruct (RSN_raw_key_frame le this k out (99 + size k) Hwf Hne Hk
              ltac:(lia) Hout ltac:(change (2 ^ 32) with 4294967296; lia))
    as (this' & out' & Hws & Hsz & Hwpa & Hkey).
  exists this', out'. eexists. split; [exact Hws|].
  rewrite RSN_of_buffer_cases
    by (rewrite ?Hsz; change (2 ^ 32) with 4294967296; lia).
  replace (99 + size k <? 99) with false by (symmetry; apply Z.ltb_ge; lia).
  split; [reflexivity|].
  split.
  - cbn [RSNEAPOL._key]. rewrite Hwpa.
    replace (99 + size k - 99) with (size k) by lia.
    rewrite Z.eqb_refl. exact Hkey.
  - rewrite RSN_get_wpa_length_of_mem by lia. exact Hwpa.
Qed.

Lemma RSN_raw_key_frame_decoded_witness :
  exists this' out' r,
    EAPOL.write_serialization true (H := RSNEAPOL.RSNEAPOL_Variant true)
      (RSNEAPOL.key RSNEAPOL.RSNEAPOL_new (bytes_of [1; 2; 3]))
      (repeat Byte.xff 102) 102 = Ok (this', out') /\
    RSNEAPOL.RSNEAPOL_of_buffer true out' 102 = Ok r /\
    RSNEAPOL._key r = bytes_of [1; 2; 3] /\
    RSNEAPOL.get_wpa_length true r = 3.
Proof.
  apply (RSN_raw_key_frame_decoded true RSNEAPOL.RSNEAPOL_new (bytes_of [1; 2; 3])
           (repeat Byte.xff 102)).
  - repeat split; reflexivity.
  - discriminate.
  - reflexivity.
  - vm_compute. congruence.
Defined.

(** A frame of the RSN variant with an information element, serialized
    and decoded again: the block the decoder returns is not the element
    that was set but the element with the two bytes written before it,
    the tag and the size; the WPA length of the unit counts them. *)
Theorem RSN_information_frame_decoded :
  forall (host_le : bool) (this : RSNEAPOL.RSNEAPOL) (element out : list byte),
    rsnhdr_wf (RSNEAPOL._header this) ->
    element <> [] -> size element < 2 ^ 8 -> 101 + size element <= size out ->
    exists this' out' r,
      EAPOL.write_serialization host_le (H := RSNEAPOL.RSNEAPOL_Variant host_le)
        (RSNEAPOL.rsn_information this element) out (101 + size element)
      = Ok (this', out') /\
      RSNEAPOL.RSNEAPOL_of_buffer host_le out' (101 + size element) = Ok r /\
      RSNEAPOL._key r
      = [byte.of_Z Dot11_RSN; byte.of_Z (size element)] ++ element /\
      RSNEAPOL.get_wpa_length host_le r = size element + 2.
Proof.
  intros le this k out Hwf Hne Hk Hout.
  pose proof (size_nonempty _ Hne) as Hpos.
  change (2 ^ 8) with 256 in Hk.
  destruct (RSN_information_frame le this k out (101 + size k) Hwf Hne Hk
              ltac:(lia) Hout ltac:(change (2 ^ 32) with 4294967296; lia))
    as (this' & out' & Hws & Hsz & Hwpa & Hkey).
  exists this', out'. eexists. split; [exact Hws|].
  rewrite RSN_of_buffer_cases
    by (rewrite ?Hsz; change (2 ^ 32) with 4294967296; lia).
  replace (101 + size k <? 99) with false by (symmetry; apply Z.ltb_ge; lia).
  split; [reflexivity|].
  split.
  - cbn [RSNEAPOL._key]. rewrite Hwpa.
    replace (101 + size k - 99) with (2 + size k) by lia.
    replace (2 + size k =? size k + 2) with true
      by (symmetry; apply Z.eqb_eq; lia).
    exact Hkey.
  - rewrite RSN_get_wpa_length_of_mem by lia. exact Hwpa.
Qed.

Lemma RSN_information_frame_decoded_witness :
  exists this' out' r,
    EAPOL.write_serialization true (H := RSNEAPOL.RSNEAPOL_Variant true)
      (RSNEAPOL.rsn_information RSNEAPOL.RSNEAPOL_new (bytes_of [1; 2; 3]))
      (repeat Byte.xff 104) 104 = Ok (this', out') /\
    RSNEAPOL.RSNEAPOL_of_buffer true out' 104 = Ok r /\
    RSNEAPOL._key r = bytes_of [48; 3; 1; 2; 3] /\
    RSNEAPOL.get_wpa_length true r = 5.
Proof.
  apply (RSN_information_frame_decoded true RSNEAPOL.RSNEAPOL_new
           (bytes_of [1; 2; 3]) (repeat Byte.xff 104)).
  - repeat split; reflexivity.
  - discriminate.
  - reflexivity.
  - vm_compute. congruence.
Defined.

(** ** The key length a caller sets *)

(** The setter [key_length] of the stream-cipher variant stores the value
    for the wire: on either kind of host, a unit without key whose key
    length was set declares that length (modulo 2^16), in big-endian
    order, in its serialized frame, and the decoder reads it back; it
    finds no key, the frame ending after the fixed body. *)
Theorem RC4_key_length_set_and_read_back :
  forall (host_le : bool) (sizeof_size_t : nat) (this : RC4EAPOL.RC4EAPOL)
         (new_key_length : Z) (out : list byte),
    rc4hdr_wf (RC4EAPOL._header this) ->
    RC4EAPOL._key this = [] -> 48 <= size out ->
    exists this' out' r,
      EAPOL.write_serialization host_le
        (H := RC4EAPOL.RC4EAPOL_Variant host_le sizeof_size_t)
        (RC4EAPOL.set_key_length host_le this new_key_length) out 48
      = Ok (this', out') /\
      slice out' 5 2 = Endian.be_bytes 2 new_key_length /\
      RC4EAPOL.RC4EAPOL_of_buffer host_le out' 48 = Ok r /\
      RC4EAPOL.get_key_length host_le r = wrap 16 new_key_length /\
      RC4EAPOL._key r = [].
Proof.
  intros le n this v out Hwf Hk Hout.
  destruct (RC4_write_serialization_ok le n (RC4EAPOL.set_key_length le this v)
              out 48)
    as (e1 & h1 & Hws & Hwf1 & Hkl);
    try (cbn [RC4EAPOL.set_key_length RC4EAPOL._header RC4EAPOL._key
              RC4EAPOL.key_iv RC4EAPOL.key_sign]; rewrite ?Hk;
         first [exact Hwf | cbn; lia | assumption]).
  cbn [RC4EAPOL.set_key_length RC4EAPOL._header RC4EAPOL._key
       RC4EAPOL.key_length] in Hws, Hkl.
  rewrite Hk in Hws, Hkl. change (size [] =? 0) with true in Hkl.
  cbv iota in Hkl. rewrite app_nil_r in Hws.
  set (E := EAPOL.eapolhdr_to_mem le (EAPOL._header e1)) in *.
  set (R := RC4EAPOL.rc4hdr_to_mem le h1) in *.
  assert (HE : size E = 5) by apply eapolhdr_to_mem_size.
  assert (HR : size R = 43) by (apply rc4hdr_to_mem_size; exact Hwf1).
  set (out' := splice out 0 (E ++ R)) in *.
  assert (Hdata : size (E ++ R) = 48) by (rewrite size_app, HE, HR; lia).
  assert (Hsz' : size out' = size out) by (apply size_splice; lia).
  assert (Hwire : slice out' 5 2 = Endian.be_bytes 2 v).
  { unfold out'. rewrite (slice_in_splice_0 out (E ++ R) 5 2) by lia.
    rewrite <- HE at 1. replace (size E) with (size E + 0) by lia.
    rewrite slice_app_r by lia.
    rewrite <- (app_nil_r R). unfold R.
    rewrite rc4hdr_key_length_at, Hkl, to_mem_host_to_be.
    apply be_bytes_2_wrap. }
  eexists _, out', _. split; [exact Hws|]. split; [exact Hwire|].
  rewrite RC4_of_buffer_cases
    by (rewrite ?Hsz'; change (2 ^ 32) with 4294967296; lia).
  change (48 <? 48) with false. cbv iota.
  split; [reflexivity|].
  split.
  - rewrite RC4_get_key_length_of_mem by lia.
    unfold wire_rc4_key_length. rewrite Hwire.
    rewrite be_value_be_bytes. reflexivity.
  - cbn [RC4EAPOL._key]. change (48 - 48) with 0.
    destruct (0 =? wire_rc4_key_length out'); [apply slice_nil | reflexivity].
Qed.

Lemma RC4_key_length_set_and_read_back_witness :
  exists this' out' r,
    EAPOL.write_serialization true (H := RC4EAPOL.RC4EAPOL_Variant true 8)
      (RC4EAPOL.set_key_length true RC4EAPOL.RC4EAPOL_new 13) (repeat Byte.xff 48) 48
    = Ok (this', out') /\
    slice out' 5 2 = bytes_of [0; 13] /\
    RC4EAPOL.RC4EAPOL_of_buffer true out' 48 = Ok r /\
    RC4EAPOL.get_key_length true r = 13 /\
    RC4EAPOL._key r = [].
Proof.
  apply (RC4_key_length_set_and_read_back true 8 RC4EAPOL.RC4EAPOL_new 13
           (repeat Byte.xff 48)).
  - split; reflexivity.
  - reflexivity.
  - vm_compute. congruence.
Defined.

(** ** The layout of a serialized IP header *)

Lemma write_serialization_layout (le : bool) {PDU : Type} (PDU_flag : PDU -> Z)
  (this this' : IP.IP PDU) (out out' : buffer) (total_sz : Z) (parent : bool) :
  options_wf this -> 0 <= IP._options_size this ->
  20 + IP._padded_options_size this <= total_sz -> total_sz <= size out ->
  IP.write_serialization le PDU_flag this out total_sz parent = Ok (this', out') ->
  exists hx : IP.IP PDU,
    out' = splice out 0
             (IP.iphdr_to_mem le (IP._ip hx)
              ++ options_bytes (IP._ip_options this)
              ++ repeat Byte.x00
                   (Z.to_nat (IP._padded_options_size this
                              - IP._options_size this))) /\
    IP.ihl (IP._ip hx) = (20 + IP._padded_options_size this) / 4 /\
    IP.tot_len (IP._ip hx) = Endian.host_to_be le 2 (wrap 16 total_sz).
Proof.
  intros Hwf Hos Htot Hout H.
  destruct (write_header_ok le PDU_flag this out total_sz Hwf Hos Htot Hout)
    as (h1 & Hwh & Hihl).
  destruct (write_header_frame le PDU_flag this h1 out _ total_sz Hwh)
    as (_ & Htl & _).
  destruct Hwf as (Hbytes & Hle & Hmod & Hmax).
  set (rest := options_bytes (IP._ip_options this)
               ++ repeat Byte.x00
                    (Z.to_nat (IP._padded_options_size this
                               - IP._options_size this))) in *.
  assert (Hrest : size rest = IP._padded_options_size this).
  { unfold rest. rewrite size_app, Hbytes, size_repeat by lia. lia. }
  unfold IP.write_serialization in H. rewrite Hwh in H. cbn [bind] in H.
  fold rest in H.
  destruct (parent && (IP.check (IP._ip h1) =? 0)).
  - apply bind_Ok in H. destruct H as (sum & _ & H).
    apply bind_Ok in H. destruct H as (f & _ & H).
    apply bind_Ok in H. destruct H as (b2 & Hw & H).
    apply Ok_inj in H. injection H as _ <-.
    apply write_bytes_inv in Hw. destruct Hw as (Hb2 & _ & Hfit).
    set (c := Endian.host_to_be le 2 (wrap 16 (Z.lnot f))) in *.
    rewrite splice_splice_inner in Hb2
      by (rewrite ?size_app, ?iphdr_to_mem_size, ?size_to_mem, ?Hrest; lia).
    rewrite splice_check in Hb2.
    exists (with_check h1 c). split; [exact Hb2|]. split; assumption.
  - apply Ok_inj in H. injection H as _ <-.
    exists h1. split; [reflexivity|]. split; assumption.
Qed.

Lemma header_first_bytes (le : bool) (h : IP.iphdr) (rest : list byte) :
  0 <= IP.ihl h <= 15 ->
  wire_ihl (IP.iphdr_to_mem le h ++ rest) = IP.ihl h /\
  slice (IP.iphdr_to_mem le h ++ rest) 2 2 = Endian.to_mem le 2 (IP.tot_len h).
Proof.
  intros Hihl. unfold IP.iphdr_to_mem.
  destruct (to_mem_2 le (IP.tot_len h)) as (t0 & t1 & Et). rewrite Et.
  split; [|reflexivity].
  unfold wire_ihl, byte_at. cbn [app nth].
  assert (Hv : 0 <= Z.land (IP.version h) 15 < 16).
  { change 15 with (Z.ones 4). rewrite Z.land_ones by lia.
    apply Z.mod_pos_bound. reflexivity. }
  destruct (version_ihl_byte (IP.ihl h) (Z.land (IP.version h) 15)
              ltac:(lia) Hv) as [Hlo _].
  rewrite <- Z.land_assoc in Hlo. change (Z.land 15 15) with 15 in Hlo.
  exact Hlo.
Qed.

(** What a serialization leaves in the buffer, with or without parent: the
    header length on the wire is the size of the header in 32-bit words,
    the total length on the wire is the size given (modulo 2^16), the
    options follow the fixed header in the order they were set, each as
    its type byte and its data block, then zero bytes up to the padded
    size; and nothing after the header is written. *)
Theorem serialized_header_layout :
  forall (host_le : bool) (PDU : Type) (PDU_flag : PDU -> Z)
         (this this' : IP.IP PDU) (out out' : buffer) (total_sz : Z)
         (parent : bool),
    options_wf this -> 0 <= IP._options_size this ->
    20 + IP._padded_options_size this <= total_sz -> total_sz <= size out ->
    IP.write_serialization host_le PDU_flag this out total_sz parent
    = Ok (this', out') ->
    wire_ihl out' * 4 = IP.header_size this /\
    wire_tot_len out' = wrap 16 total_sz /\
    slice out' 20 (IP._padded_options_size this)
    = options_bytes (IP._ip_options this)
      ++ repeat Byte.x00
           (Z.to_nat (IP._padded_options_size this - IP._options_size this)) /\
    size out' = size out /\
    slice out' (IP.header_size this) (size out - IP.header_size this)
    = slice out (IP.header_size this) (size out - IP.header_size this).
Proof.
  intros le PDU PDU_flag this this' out out' total_sz parent Hwf Hos Htot Hout H.
  destruct (write_serialization_layout le PDU_flag this this' out out' total_sz
              parent Hwf Hos Htot Hout H) as (hx & Hout' & Hihl & Htl).
  destruct Hwf as (Hbytes & Hle & Hmod & Hmax).
  set (rest := options_bytes (IP._ip_options this)
               ++ repeat Byte.x00
                    (Z.to_nat (IP._padded_options_size this
                               - IP._options_size this))) in *.
  assert (Hrest : size rest = IP._padded_options_size this).
  { unfold rest. rewrite size_app, Hbytes, size_repeat by lia. lia. }
  pose proof (iphdr_to_mem_size le (IP._ip hx)) as Hhdr.
  set (D := IP.iphdr_to_mem le (IP._ip hx) ++ rest) in *.
  assert (HD : size D = 20 + IP._padded_options_size this)
    by (unfold D; rewrite size_app, Hhdr, Hrest; reflexivity).
  assert (Hhs : IP.header_size this = 20 + IP._padded_options_size this).
  { unfold IP.header_size. change IP.sizeof_iphdr with 20.
    apply wrap_small. change (2 ^ 32) with 4294967296. lia. }
  assert (Hihl4 : IP.ihl (IP._ip hx) * 4 = 20 + IP._padded_options_size this).
  { rewrite Hihl. Z.div_mod_to_equations. lia. }
  assert (Hr : 0 <= IP.ihl (IP._ip hx) <= 15) by lia.
  destruct (header_first_bytes le (IP._ip hx) rest Hr) as [Hw0 Hw2].
  fold D in Hw0, Hw2.
  assert (Hpre : forall i n, 0 <= i -> 0 <= n -> i + n <= size D ->
                             slice out' i n = slice D i n).
  { intros i n Hi Hn Hin. rewrite Hout'. apply slice_in_splice_0; lia. }
  rewrite Hhs.
  split; [|split; [|split; [|split]]].
  - rewrite <- Hihl4, <- Hw0. f_equal.
    unfold wire_ihl. f_equal.
    rewrite <- (byte_at_slice out' 1 0), <- (byte_at_slice D 1 0) by lia.
    rewrite Hpre by lia. reflexivity.
  - unfold wire_tot_len. rewrite Hpre, Hw2, Htl by lia.
    apply be_value_to_mem_host_to_be. apply wrap_range. lia.
  - rewrite Hpre by lia. unfold D.
    rewrite <- Hhdr at 1. replace (size (IP.iphdr_to_mem le (IP._ip hx)))
      with (size (IP.iphdr_to_mem le (IP._ip hx)) + 0) by lia.
    rewrite slice_app_r by lia. rewrite <- Hrest. apply slice_all.
  - rewrite Hout'. apply size_splice; lia.
  - rewrite Hout'. rewrite <- HD.
    apply slice_splice_other; lia.
Qed.

Lemma serialized_header_layout_witness :
  exists this' out',
    IP.write_serialization true (fun _ : list byte => 255) sec_header
      (repeat Byte.xff 30) 28 true = Ok (this', out') /\
    wire_ihl out' * 4 = 28 /\ wire_tot_len out' = 28 /\
    slice out' 20 8 = bytes_of [130; 3; 21; 23; 148; 0; 0; 0] /\
    slice out' 28 2 = [Byte.xff; Byte.xff].
Proof.
  destruct (IP.write_serialization true (fun _ : list byte => 255) sec_header
              (repeat Byte.xff 30) 28 true)
    as [[this' out']| | | |] eqn:H; try (vm_compute in H; discriminate H).
  exists this', out'. split; [reflexivity|].
  destruct (serialized_header_layout true (list byte) (fun _ : list byte => 255)
              sec_header this' (repeat Byte.xff 30) out' 28 true)
    as (H1 & H2 & H3 & _ & H5);
    try exact H; try (vm_compute; congruence).
  - repeat split; vm_compute; congruence.
  - repeat split; assumption.
Defined.

(** ** The checksum of a range in two parts *)

Lemma do_checksum_raw (le : bool) (buf : buffer) (start end_ : Z) :
  0 <= start -> start <= end_ -> end_ <= size buf ->
  Utils.do_checksum le buf start end_
  = Ok (wrap 32
          (sum_words (be_words (slice buf start (2 * ((end_ - start) / 2))))
           + (if (end_ - start) mod 2 =? 1
              then 256 * wire_byte buf (end_ - 1) else 0))).
Proof.
  intros Hs Hse He. unfold Utils.do_checksum.
  replace (Z.land (end_ - start) 1) with ((end_ - start) mod 2)
    by (symmetry; apply (Z.land_ones (end_ - start) 1); lia).
  pose proof (Z.mod_pos_bound (end_ - start) 2 ltac:(lia)) as Hm.
  pose proof (Z.div_mod (end_ - start) 2 ltac:(lia)) as Hd.
  assert (Hk : Z.of_nat (Z.to_nat ((end_ - start) / 2)) = (end_ - start) / 2)
    by (rewrite Z2Nat.id; [reflexivity | apply Z.div_pos; lia]).
  destruct ((end_ - start) mod 2 =? 1) eqn:Hodd.
  - apply Z.eqb_eq in Hodd.
    rewrite read8_wire by lia. cbn [bind].
    rewrite (do_checksum_loop_spec le buf (Z.to_nat ((end_ - start) / 2))) by lia.
    cbn [bind]. rewrite Hk, Z.add_0_l, wrap_add_l. do 3 f_equal.
    pose proof (wire_byte_range buf (end_ - 1)).
    rewrite Z.shiftl_mul_pow2 by lia. change (2 ^ 8) with 256.
    rewrite wrap_small by (change (2 ^ 16) with 65536; lia). lia.
  - apply Z.eqb_neq in Hodd. cbn [bind].
    rewrite (do_checksum_loop_spec le buf (Z.to_nat ((end_ - start) / 2))) by lia.
    cbn [bind]. rewrite Hk, Z.add_0_l, wrap_add_l. reflexivity.
Qed.

(** The checksum of a range cut at an even offset is the sum of the
    checksums of the two parts, modulo 2^32: the accumulator of a pseudo
    header or of a header can be added to that of what follows. *)
Theorem do_checksum_of_two_parts :
  forall (host_le : bool) (buf : buffer) (start mid end_ : Z),
    0 <= start -> start <= mid -> mid <= end_ -> end_ <= size buf ->
    (mid - start) mod 2 = 0 ->
    exists a b,
      Utils.do_checksum host_le buf start mid = Ok a /\
      Utils.do_checksum host_le buf mid end_ = Ok b /\
      Utils.do_checksum host_le buf start end_ = Ok (wrap 32 (a + b)).
Proof.
  intros le buf start mid end_ Hs Hsm Hme He Heven.
  rewrite (do_checksum_raw le buf start mid), (do_checksum_raw le buf mid end_),
    (do_checksum_raw le buf start end_) by lia.
  eexists _, _. split; [reflexivity|]. split; [reflexivity|].
  rewrite Heven. change (0 =? 1) with false. cbv iota.
  assert (Hmod : (end_ - start) mod 2 = (end_ - mid) mod 2).
  { replace (end_ - start) with (end_ - mid + (mid - start)) by lia.
    rewrite Z.add_mod, Heven, Z.add_0_r, Z.mod_mod by lia. reflexivity. }
  rewrite Hmod.
  set (p := if (end_ - mid) mod 2 =? 1 then 256 * wire_byte buf (end_ - 1) else 0).
  assert (Hdiv : 2 * ((end_ - start) / 2)
                 = (mid - start) + 2 * ((end_ - mid) / 2))
    by (Z.div_mod_to_equations; lia).
  assert (Hdiv1 : 2 * ((mid - start) / 2) = mid - start)
    by (Z.div_mod_to_equations; lia).
  assert (Hnn : 0 <= 2 * ((end_ - mid) / 2) <= end_ - mid)
    by (Z.div_mod_to_equations; lia).
  rewrite Hdiv, Hdiv1.
  rewrite (slice_app buf start (mid - start) (2 * ((end_ - mid) / 2))) by lia.
  replace (start + (mid - start)) with mid by lia.
  rewrite be_words_app_even, sum_words_app.
  2:{ rewrite length_slice by lia.
      exists (Z.to_nat ((mid - start) / 2)).
      rewrite <- Hdiv1 at 1. rewrite Z2Nat.inj_mul by (Z.div_mod_to_equations; lia).
      reflexivity. }
  set (x := sum_words (be_words (slice buf start (mid - start)))).
  set (y := sum_words (be_words (slice buf mid (2 * ((end_ - mid) / 2))))).
  clearbody x y p. f_equal. unfold wrap. change (2 ^ 32) with 4294967296.
  rewrite Z.add_0_r. Z.div_mod_to_equations. lia.
Qed.

Lemma do_checksum_of_two_parts_witness :
  exists a b,
    Utils.do_checksum true (bytes_of [1; 2; 3; 4; 5]) 0 2 = Ok a /\
    Utils.do_checksum true (bytes_of [1; 2; 3; 4; 5]) 2 5 = Ok b /\
    Utils.do_checksum true (bytes_of [1; 2; 3; 4; 5]) 0 5 = Ok (wrap 32 (a + b)).
Proof.
  apply (do_checksum_of_two_parts true (bytes_of [1; 2; 3; 4; 5]) 0 2 5);
    try lia; try reflexivity; vm_compute; congruence.
Defined.

(** ** The envelope of a serialized frame *)

(** The envelope an RSN unit is serialized with, whenever the
    serialization returns: version, packet type and discriminant as the
    unit holds them, and between them the two bytes of the length as they
    lie in the memory of the host. The length is the size of the frame
    less 4 when the unit held the length 0; a length the caller has set
    is written as it is, whatever the size of the frame, and the unit
    keeps it. *)
Theorem RSN_envelope_as_serialized :
  forall (host_le : bool) (this this' : RSNEAPOL.RSNEAPOL) (out out' : buffer)
         (total_sz : Z),
    EAPOL.write_serialization host_le (H := RSNEAPOL.RSNEAPOL_Variant host_le)
      this out total_sz = Ok (this', out') ->
    let h := EAPOL._header (RSNEAPOL.eapol this) in
    let new_length := serialized_length h (RSNEAPOL.header_size this) in
    slice out' 0 5
    = [byte.of_Z (EAPOL.version h); byte.of_Z (EAPOL.packet_type h)]
      ++ Endian.to_mem host_le 2 new_length ++ [byte.of_Z (EAPOL.type h)] /\
    EAPOL.length (EAPOL._header (RSNEAPOL.eapol this')) = new_length /\
    RSNEAPOL.header_size this <= total_sz.
Proof.
  intros le this this' out out' total_sz H h new_length.
  pose proof (RSN_envelope_in_memory_order le this this' out out' total_sz H)
    as Henv.
  rewrite Henv. clear Henv.
  revert H. unfold EAPOL.write_serialization.
  cbn [EAPOL.header_size EAPOL.base EAPOL.set_base EAPOL.write_body
       RSNEAPOL.RSNEAPOL_Variant].
  destruct (total_sz >=? RSNEAPOL.header_size this) eqn:Hge;
    cbn [negb]; [|discriminate].
  apply Z.geb_le in Hge.
  intros H.
  apply bind_Ok in H as (b1 & _ & H).
  apply RSN_write_body_frame in H as (He & _);
    [| unfold EAPOL.sizeof_eapolhdr; lia].
  rewrite He. unfold new_length, serialized_length. fold h.
  destruct (EAPOL.length h =? 0) eqn:Hz.
  - cbn [RSNEAPOL.eapol EAPOL.set_length EAPOL._header EAPOL.length].
    unfold EAPOL.eapolhdr_to_mem.
    cbn [EAPOL.version EAPOL.packet_type EAPOL.length EAPOL.type].
    fold h.
    replace (RSNEAPOL.header_size this - 1 - 2 - 1)
      with (RSNEAPOL.header_size this - 4) by lia.
    repeat split; try reflexivity. exact Hge.
  - unfold EAPOL.eapolhdr_to_mem. fold h.
    repeat split; try reflexivity. exact Hge.
Qed.

Lemma RSN_envelope_as_serialized_witness :
  exists this' out',
    EAPOL.write_serialization true (H := RSNEAPOL.RSNEAPOL_Variant true)
      {| RSNEAPOL.eapol := EAPOL.set_length (EAPOL.EAPOL_new 3 EAPOL.RSN) 258;
         RSNEAPOL._header := RSNEAPOL.zero_header; RSNEAPOL._key := [] |}
      (repeat Byte.xff 99) 99 = Ok (this', out') /\
    slice out' 0 5 = bytes_of [1; 3; 2; 1; 2].
Proof.
  destruct (EAPOL.write_serialization true (H := RSNEAPOL.RSNEAPOL_Variant true)
              {| RSNEAPOL.eapol := EAPOL.set_length (EAPOL.EAPOL_new 3 EAPOL.RSN) 258;
                 RSNEAPOL._header := RSNEAPOL.zero_header; RSNEAPOL._key := [] |}
              (repeat Byte.xff 99) 99)
    as [[this' out']| | | |] eqn:H; try (vm_compute in H; discriminate H).
  exists this', out'. split; [reflexivity|].
  exact (proj1 (RSN_envelope_as_serialized true _ this' _ out' 99 H)).
Defined.

(** ** The protocol of a nested unit *)

Lemma write_header_protocol (le : bool) {PDU : Type} (PDU_flag : PDU -> Z)
  (this this1 : IP.IP PDU) (inner : PDU) (buf buf1 : buffer) (total_sz : Z) :
  IP.write_header le PDU_flag this buf total_sz = Ok (this1, buf1) ->
  IP.inner_pdu this = Some inner ->
  IP.protocol (IP._ip this1) = wrap 8 (protocol_of_flag (PDU_flag inner)) /\
  IP.flag this1 = wrap 32 (protocol_of_flag (PDU_flag inner)).
Proof.
  unfold IP.write_header. intros H Hin. rewrite Hin in H.
  destruct (negb (total_sz >=? IP.header_size this)); [discriminate|].
  apply bind_Ok in H as (hl & _ & H).
  apply bind_Ok in H as (b1 & _ & H).
  apply bind_Ok in H as ([b2 p2] & _ & H).
  apply bind_Ok in H as (b3 & _ & H).
  apply Ok_inj in H. injection H as <- _.
  split; reflexivity.
Qed.

Lemma header_protocol_byte (le : bool) (h : IP.iphdr) (rest : list byte) :
  wire_byte (IP.iphdr_to_mem le h ++ rest) 9 = wrap 8 (IP.protocol h).
Proof.
  unfold IP.iphdr_to_mem.
  destruct (to_mem_2 le (IP.tot_len h)) as (t0 & t1 & Et).
  destruct (to_mem_2 le (IP.id h)) as (i0 & i1 & Ei).
  destruct (to_mem_2 le (IP.frag_off h)) as (f0 & f1 & Ef).
  rewrite Et, Ei, Ef. unfold wire_byte, byte_at.
  change (Z.to_nat 9) with 9%nat. cbn [app nth].
  apply byte.unsigned_of_Z.
Qed.

(** The protocol of a header with a nested unit: whenever its
    serialization returns, the protocol byte in the buffer, the protocol
    field and the flag of the unit are the flag of the nested unit, cut
    to the width of the field, where a nested unit that is an IP header
    itself (flag 0) counts as IP-in-IP (4). *)
Theorem nested_unit_sets_protocol :
  forall (host_le : bool) (PDU : Type) (PDU_flag : PDU -> Z)
         (this this' : IP.IP PDU) (inner : PDU) (out out' : buffer)
         (total_sz : Z) (parent : bool),
    IP.inner_pdu this = Some inner ->
    options_wf this -> 0 <= IP._options_size this ->
    20 + IP._padded_options_size this <= total_sz -> total_sz <= size out ->
    IP.write_serialization host_le PDU_flag this out total_sz parent
    = Ok (this', out') ->
    wire_byte out' 9 = wrap 8 (protocol_of_flag (PDU_flag inner)) /\
    IP.protocol (IP._ip this') = wrap 8 (protocol_of_flag (PDU_flag inner)) /\
    IP.flag this' = wrap 32 (protocol_of_flag (PDU_flag inner)).
Proof.
  intros le PDU PDU_flag this this' inner out out' total_sz parent Hin Hwf Hos
    Htot Hout H.
  destruct (write_header_ok le PDU_flag this out total_sz Hwf Hos Htot Hout)
    as (h1 & Hwh & _).
  destruct (write_header_protocol le PDU_flag this h1 inner out _ total_sz Hwh Hin)
    as [Hp Hf].
  destruct Hwf as (Hbytes & Hle & Hmod & Hmax).
  set (rest := options_bytes (IP._ip_options this)
               ++ repeat Byte.x00
                    (Z.to_nat (IP._padded_options_size this
                               - IP._options_size this))) in *.
  assert (Hrest : size rest = IP._padded_options_size this).
  { unfold rest. rewrite size_app, Hbytes, size_repeat by lia. lia. }
  assert (Hbyte : forall hx : IP.IP PDU,
            wire_byte (splice out 0 (IP.iphdr_to_mem le (IP._ip hx) ++ rest)) 9
            = wrap 8 (IP.protocol (IP._ip hx))).
  { intros hx. rewrite <- (header_protocol_byte le (IP._ip hx) rest).
    set (D := IP.iphdr_to_mem le (IP._ip hx) ++ rest).
    assert (HD : size D = 20 + IP._padded_options_size this)
      by (unfold D; rewrite size_app, iphdr_to_mem_size, Hrest; reflexivity).
    unfold wire_byte. change (Z.to_nat 9) with 9%nat.
    rewrite <- (byte_at_slice (splice out 0 D) 10 9),
      <- (byte_at_slice D 10 9) by lia.
    rewrite slice_in_splice_0 by lia. reflexivity. }
  assert (Hww : forall x, wrap 8 (wrap 8 x) = wrap 8 x).
  { intros x. unfold wrap. apply Z.mod_mod. lia. }
  unfold IP.write_serialization in H. rewrite Hwh in H. cbn [bind] in H.
  fold rest in H.
  destruct (parent && (IP.check (IP._ip h1) =? 0)).
  - apply bind_Ok in H as (sum & _ & H).
    apply bind_Ok in H as (f & _ & H).
    apply bind_Ok in H as (b2 & Hw & H).
    apply Ok_inj in H. injection H as <- <-.
    apply write_bytes_inv in Hw. destruct Hw as (Hb2 & _ & Hfit).
    set (c := Endian.host_to_be le 2 (wrap 16 (Z.lnot f))) in *.
    rewrite splice_splice_inner in Hb2
      by (rewrite ?size_app, ?iphdr_to_mem_size, ?size_to_mem, ?Hrest; lia).
    rewrite splice_check in Hb2.
    rewrite Hb2, Hbyte.
    change (IP.protocol (IP._ip (with_check h1 c)))
      with (IP.protocol (IP._ip h1)).
    change (IP.protocol (IP._ip (IP.set_check le h1 0)))
      with (IP.protocol (IP._ip h1)).
    change (IP.flag (IP.set_check le h1 0)) with (IP.flag h1).
    rewrite Hp at 1. rewrite Hww. repeat split; assumption.
  - apply Ok_inj in H.
    pose proof (f_equal fst H) as E1. pose proof (f_equal snd H) as E2.
    cbn [fst snd] in E1, E2. subst this' out'.
    rewrite Hbyte. rewrite Hp at 1. rewrite Hww. repeat split; assumption.
Qed.

Lemma nested_unit_sets_protocol_witness :
  exists this' out',
    IP.write_serialization true (fun _ : list byte => 0)
      (IP.IP_new true 1 2 (Some (bytes_of [7]))) (repeat Byte.xff 21) 21 false
    = Ok (this', out') /\
    wire_byte out' 9 = 4 /\ IP.flag this' = 4.
Proof.
  destruct (IP.write_serialization true (fun _ : list byte => 0)
              (IP.IP_new true 1 2 (Some (bytes_of [7]))) (repeat Byte.xff 21)
              21 false)
    as [[this' out']| | | |] eqn:H; try (vm_compute in H; discriminate H).
  exists this', out'. split; [reflexivity|].
  destruct (nested_unit_sets_protocol true (list byte) (fun _ : list byte => 0)
              (IP.IP_new true 1 2 (Some (bytes_of [7]))) this' (bytes_of [7])
              (repeat Byte.xff 21) out' 21 false)
    as (H1 & _ & H3);
    try exact H; try reflexivity; try (vm_compute; congruence).
  - repeat split; vm_compute; congruence.
  - split; assumption.
Defined.
